(** * mytorch: recurrent unit, packed-sequence time iteration and SGD

    A shallow embedding of [mytorch/nn/rnn.py] and [mytorch/optim/sgd.py].

    Scalars are kept abstract (class [Scalar]): the development never
    depends on how floating-point numbers round.  Python exceptions are
    values of type [exn]; a computation that may raise has type
    [pyresult A].  The calls that [TimeIterator.forward] makes to its
    unit are logged in a trace, so that statements about "what is passed
    to the unit" are statements about the model. *)

From stdpp Require Import base option list gmap sorting strings.
From Stdlib Require Import ZArith Lia.

Local Open Scope Z_scope.
Local Open Scope nat_scope.

(** ** Python exceptions and results *)

Inductive exn : Type :=
  | Exception (msg : string)
  | AttributeError
  | ValueError
  | IndexError
  | TypeError
  | NotImplementedError (msg : string).

Inductive pyresult (A : Type) : Type :=
  | Returns (a : A)
  | Raises (e : exn).
Arguments Returns {A} a.
Arguments Raises {A} e.

Definition rbind {A B} (m : pyresult A) (k : A → pyresult B) : pyresult B :=
  match m with
  | Returns a => k a
  | Raises e => Raises e
  end.

Definition rmap {A B} (f : A → B) (m : pyresult A) : pyresult B :=
  rbind m (λ a, Returns (f a)).

Declare Scope py_scope.
Delimit Scope py_scope with py.
Notation "'let!' x ':=' m 'in' k" := (rbind m (λ x, k))
  (at level 10, x name, m at level 100, k at level 200) : py_scope.
Local Open Scope py_scope.

Fixpoint rmapM {A B} (f : A → pyresult B) (l : list A) : pyresult (list B) :=
  match l with
  | [] => Returns []
  | a :: l' =>
      let! b := f a in
      let! bs := rmapM f l' in
      Returns (b :: bs)
  end.

(** ** Python slicing

    [l[start:stop]] for integer bounds: a negative bound counts from the
    end, and every bound is clamped to [0, len l]. *)

Definition slice_bound (n : nat) (i : Z) : nat :=
  if (i <? 0)%Z then Z.to_nat (Z.max 0 (i + Z.of_nat n))
  else Z.to_nat (Z.min i (Z.of_nat n)).

Definition py_slice {A} (l : list A) (start stop : Z) : list A :=
  let s := slice_bound (length l) start in
  let e := slice_bound (length l) stop in
  take (e - s) (drop s l).

(** ** Scalars

    The element type of arrays with the arithmetic the two files use,
    and the pointwise functions of [mytorch.nn.activations] (which is
    not among the sources) that [RNNUnit] can select. *)

Class Scalar (R : Type) := {
  s_zero : R;
  s_add : R → R → R;
  s_sub : R → R → R;
  s_mul : R → R → R
}.

Class Activations (R : Type) := {
  s_tanh : R → R;
  s_relu : R → R
}.

(** ** Rank-2 arrays (numpy)

    A rank-2 array is its list of rows together with its number of
    columns, so that a shape [(0, c)] keeps [c].  Rank-1 arrays (the
    biases) are plain lists. *)

Section Arrays.
Context {R : Type} `{Scalar R}.

Record ndarray : Type := mk_ndarray {
  rows : list (list R);
  ncols : nat
  }.

Definition nrows (a : ndarray) : nat := length (rows a).

Definition wf_array (a : ndarray) : Prop :=
  Forall (λ r, length r = ncols a) (rows a).

Definition has_shape (a : ndarray) (r c : nat) : Prop :=
  nrows a = r ∧ ncols a = c ∧ wf_array a.

Definition get (a : ndarray) (i j : nat) : R :=
  nth j (nth i (rows a) []) s_zero.

Definition tabulate (r c : nat) (f : nat → nat → R) : ndarray :=
  mk_ndarray (map (λ i, map (λ j, f i j) (seq 0 c)) (seq 0 r)) c.

Definition np_zeros (r c : nat) : ndarray := tabulate r c (λ _ _, s_zero).

Definition np_zeros1 (n : nat) : list R := replicate n s_zero.

Definition np_T (a : ndarray) : ndarray :=
  tabulate (ncols a) (nrows a) (λ i j, get a j i).

(** [sum_upto n f] is [f 0 + f 1 + ... + f (n-1)], added left to right
    from [s_zero]. *)
Definition sum_upto (n : nat) (f : nat → R) : R :=
  fold_left (λ acc k, s_add acc (f k)) (seq 0 n) s_zero.

Definition np_matmul (a b : ndarray) : pyresult ndarray :=
  if ncols a =? nrows b then
    Returns (tabulate (nrows a) (ncols b)
               (λ i j, sum_upto (ncols a) (λ k, s_mul (get a i k) (get b k j))))
  else Raises ValueError.

(** Broadcasting of one dimension: equal extents, or one of them is 1. *)
Definition bcast_dim (m n : nat) : option nat :=
  if m =? n then Some m
  else if m =? 1 then Some n
  else if n =? 1 then Some m
  else None.

Definition bcast_idx (extent i : nat) : nat :=
  if extent =? 1 then 0 else i.

Definition np_broadcast2 (op : R → R → R) (a b : ndarray) : pyresult ndarray :=
  match bcast_dim (nrows a) (nrows b), bcast_dim (ncols a) (ncols b) with
  | Some r, Some c =>
      Returns (tabulate r c (λ i j,
        op (get a (bcast_idx (nrows a) i) (bcast_idx (ncols a) j))
           (get b (bcast_idx (nrows b) i) (bcast_idx (ncols b) j))))
  | _, _ => Raises ValueError
  end.

Definition np_add : ndarray → ndarray → pyresult ndarray :=
  np_broadcast2 s_add.

(** A rank-1 array of extent [n] broadcasts against a rank-2 array as
    the shape [(1, n)]. *)
Definition as_row (v : list R) : ndarray := mk_ndarray [v] (length v).

Definition np_add1 (a : ndarray) (v : list R) : pyresult ndarray :=
  np_add a (as_row v).

Definition np_map (f : R → R) (a : ndarray) : ndarray :=
  mk_ndarray (map (map f) (rows a)) (ncols a).

(** [a[start:stop]]: basic slicing of the leading axis. *)
Definition np_slice (a : ndarray) (start stop : Z) : ndarray :=
  mk_ndarray (py_slice (rows a) start stop) (ncols a).

(** [a[None, -1, :]]: the last row, as an array of shape [(1, ncols)]. *)
Definition np_last_row (a : ndarray) : pyresult ndarray :=
  match last (rows a) with
  | Some r => Returns (mk_ndarray [r] (ncols a))
  | None => Raises IndexError
  end.

(** [np.concatenate(seq)] along axis 0. *)
Definition np_concatenate (l : list ndarray) : pyresult ndarray :=
  match l with
  | [] => Raises ValueError
  | a :: l' =>
      if forallb (λ b, ncols b =? ncols a) l'
      then Returns (mk_ndarray (concat (map rows l)) (ncols a))
      else Raises ValueError
  end.
End Arrays.
Arguments ndarray R : clear implicits.

(** ** Tensors

    [mytorch/tensor.py], [mytorch/nn/activations.py] and
    [mytorch/nn/util.py] are not among the sources. *)

(** Modelled from the spec: the class [Tensor], "a value buffer ...
    flags {requires-gradient, is-learnable-parameter}".  A tensor is its
    array and the flags its constructor takes; the gradient and the
    graph linkage, which the forward computations never read, are left
    out. *)
Record Tensor (D : Type) : Type := mk_Tensor {
  data : D;
  requires_grad : bool;
  is_leaf : bool;
  is_parameter : bool
}.
Arguments mk_Tensor {D} data requires_grad is_leaf is_parameter.
Arguments data {D} t.
Arguments requires_grad {D} t.
Arguments is_leaf {D} t.
Arguments is_parameter {D} t.

(** [Tensor(d, requires_grad=rg, is_parameter=ip)]; [is_leaf] keeps its
    default [True]. *)
Definition Tensor_new {D} (d : D) (rg ip : bool) : Tensor D :=
  mk_Tensor d rg true ip.

(** Modelled from the spec: the result of a tensor operation, "a new
    tensor linked to its producers".  It requires a gradient when one of
    the operands does, and it is then neither a leaf nor a parameter. *)
Definition op_output {D} (d : D) (rg : bool) : Tensor D :=
  mk_Tensor d rg (negb rg) false.

(** Values a Python variable of the two files may hold where the code
    tests or indexes it. *)
Inductive pyobj (R : Type) : Type :=
  | PyTensor (t : Tensor (ndarray R))
  | PyInt (z : Z)
  | PyOther (type_name : string).
Arguments PyTensor {R} t.
Arguments PyInt {R} z.
Arguments PyOther {R} type_name.

(** The truth value of a tensor ([not hidden]).  Python asks the class
    [Tensor], which is not among the sources and of which the spec says
    nothing here: the truth value is a parameter of the development. *)
Class TensorTruth (R : Type) := {
  tensor_bool : Tensor (ndarray R) → bool
}.

Section TensorOps.
Context {R : Type} `{Scalar R} `{Activations R}.

Local Abbreviation tensor := (Tensor (ndarray R)).

(** [t.shape[0]] *)
Definition shape0 (t : tensor) : nat := nrows (data t).

(** Modelled from the spec: [t.T()], the "transpose" of [Tensor]. *)
Definition tensor_T (t : tensor) : tensor :=
  op_output (np_T (data t)) (requires_grad t).

(** Modelled from the spec: [a @ b], the "matrix multiply" of [Tensor]. *)
Definition tensor_matmul (a b : tensor) : pyresult tensor :=
  let! d := np_matmul (data a) (data b) in
  Returns (op_output d (requires_grad a || requires_grad b)).

(** Modelled from the spec: [a + b], an "elementwise op" of [Tensor],
    for two tensors of rank 2. *)
Definition tensor_add (a b : tensor) : pyresult tensor :=
  let! d := np_add (data a) (data b) in
  Returns (op_output d (requires_grad a || requires_grad b)).

(** Modelled from the spec: [a + b] for [a] of rank 2 and [b] of rank 1
    (a bias). *)
Definition tensor_add1 (a : tensor) (b : Tensor (list R)) : pyresult tensor :=
  let! d := np_add1 (data a) (data b) in
  Returns (op_output d (requires_grad a || requires_grad b)).

(** Modelled from the spec: [t[start:stop]], the indexing of [Tensor]
    with a slice. *)
Definition tensor_slice (t : tensor) (start stop : Z) : tensor :=
  op_output (np_slice (data t) start stop) (requires_grad t).

(** Modelled from the spec: [t[None, -1, :]], the indexing of [Tensor]
    that takes the last row. *)
Definition tensor_last_row (t : tensor) : pyresult tensor :=
  let! d := np_last_row (data t) in
  Returns (op_output d (requires_grad t)).

(** Modelled from the spec: [tensor.cat(seq)], the "concatenation" of
    tensors along the leading dimension. *)
Definition tensor_cat (l : list tensor) : pyresult tensor :=
  let! d := np_concatenate (map data l) in
  Returns (op_output d (existsb requires_grad l)).

(** The activations [RNNUnit] chooses from: [Tanh()] and [ReLU()]. *)
Inductive Activation : Type := Tanh | ReLU.

Definition act_fun (a : Activation) : R → R :=
  match a with
  | Tanh => s_tanh
  | ReLU => s_relu
  end.

(** Modelled from the spec: calling an activation, "a stateless
    pointwise differentiable function over a tensor". *)
Definition act_apply (a : Activation) (t : tensor) : tensor :=
  op_output (np_map (act_fun a) (data t)) (requires_grad t).
End TensorOps.

(** ** [RNNUnit] (rnn.py, lines 9-80) *)

Section RNNUnit.
Context {R : Type} `{Scalar R} `{Activations R} `{TensorTruth R}.
Local Abbreviation tensor := (Tensor (ndarray R)).

(** The attributes of a unit.  [act] is [None] when [__init__] has not
    set the attribute. *)
Record RNNUnit : Type := mk_RNNUnit {
  weight_ih : tensor;
  bias_ih : Tensor (list R);
  weight_hh : tensor;
  bias_hh : Tensor (list R);
  hidden_size : nat;
  act : option Activation
}.

(** [np.random.randn(r, c)], the numbers drawn being those of [draw]. *)
Definition randn (draw : nat → R) (r c : nat) : ndarray R :=
  tabulate r c (λ i j, draw (i * c + j)).

(** [RNNUnit.__init__]; [draw_ih] and [draw_hh] are the two random
    draws.  Sizes are natural numbers. *)
Definition RNNUnit_init (input_size hidden_size : nat) (nonlinearity : string)
    (draw_ih draw_hh : nat → R) : pyresult RNNUnit :=
  let weight_ih := Tensor_new (randn draw_ih hidden_size input_size) true true in
  let bias_ih := Tensor_new (np_zeros1 hidden_size) true true in
  let weight_hh := Tensor_new (randn draw_hh hidden_size hidden_size) true true in
  let bias_hh := Tensor_new (np_zeros1 hidden_size) true true in
  let act :=
    if String.eqb nonlinearity "tanh" then Some Tanh
    else if String.eqb nonlinearity "relu" then Some ReLU
    else None in
  Returns (mk_RNNUnit weight_ih bias_ih weight_hh bias_hh hidden_size act).

Definition type_repr (x : pyobj R) : string :=
  match x with
  | PyTensor _ => "<class 'mytorch.tensor.Tensor'>"
  | PyInt _ => "<class 'int'>"
  | PyOther n => n
  end.

(** Lines 70-74: the hidden state the computation uses. *)
Definition resolve_hidden (self : RNNUnit) (x : tensor) (hidden : option tensor)
    : tensor :=
  let not_hidden :=
    match hidden with
    | None => true
    | Some h => negb (tensor_bool h)
    end in
  match not_hidden, hidden with
  | false, Some h => h
  | _, _ =>
      let hidden_shape := (shape0 x, hidden_size self) in
      Tensor_new (np_zeros hidden_shape.1 hidden_shape.2) true true
  end.

(** [self.act]: an attribute that was never set raises. *)
Definition getattr_act (self : RNNUnit) : pyresult Activation :=
  match act self with
  | Some a => Returns a
  | None => Raises AttributeError
  end.

(** [RNNUnit.forward] *)
Definition RNNUnit_forward (self : RNNUnit) (x : pyobj R) (hidden : option tensor)
    : pyresult tensor :=
  match x with
  | PyTensor x =>
      let hidden := resolve_hidden self x hidden in
      let! xw := tensor_matmul x (tensor_T (weight_ih self)) in
      let! lhs := tensor_add1 xw (bias_ih self) in
      let! hw := tensor_matmul hidden (tensor_T (weight_hh self)) in
      let! rhs := tensor_add1 hw (bias_hh self) in
      let! weighted_sum := tensor_add lhs rhs in
      let! act := getattr_act self in
      let weight_hprime := act_apply act weighted_sum in
      Returns weight_hprime
  | _ => Raises (Exception ("Input must be Tensor. Got " +:+ type_repr x))
  end.
End RNNUnit.
Arguments RNNUnit R : clear implicits.

(** ** Unit calls and their trace *)

Section Trace.
Context {R : Type}.
Local Abbreviation tensor := (Tensor (ndarray R)).

(** One call [unit.forward(x, hidden)] and its outcome. *)
Record unit_call : Type := mk_call {
  call_x : tensor;
  call_hidden : option tensor;
  call_outcome : pyresult tensor
}.

(** A computation that logs the calls it makes, in order, and then
    returns or raises. *)
Definition traced (A : Type) : Type := list unit_call * pyresult A.

Definition tret {A} (a : A) : traced A := ([], Returns a).

Definition lift {A} (r : pyresult A) : traced A := ([], r).

Definition tbind {A B} (m : traced A) (k : A → traced B) : traced B :=
  match m with
  | (t, Returns a) => let '(t', r) := k a in (t ++ t', r)
  | (t, Raises e) => (t, Raises e)
  end.

(** [for i in idxs: s = body(i, s)] *)
Fixpoint for_each {S} (idxs : list nat) (body : nat → S → traced S) (s : S)
    : traced S :=
  match idxs with
  | [] => tret s
  | i :: idxs' => tbind (body i s) (for_each idxs' body)
  end.

(** [l[i]] for a list and an index that is not negative. *)
Definition getitem {A} (l : list A) (i : nat) : pyresult A :=
  match l !! i with
  | Some a => Returns a
  | None => Raises IndexError
  end.

(** [l[i] = a] *)
Definition setitem {A} (l : list A) (i : nat) (a : A) : pyresult (list A) :=
  if decide (i < length l) then Returns (<[i := a]> l) else Raises IndexError.
End Trace.
Arguments unit_call R : clear implicits.
Arguments traced R A : clear implicits.

Notation "'let*' x ':=' m 'in' k" := (tbind m (λ x, k))
  (at level 10, x name, m at level 100, k at level 200) : py_scope.

(** The interface [TimeIterator] asks of its [basic_unit]: a [forward]
    method of two arguments. *)
Class BasicUnit (R : Type) (U : Type) := {
  unit_forward : U → pyobj R → option (Tensor (ndarray R)) → pyresult (Tensor (ndarray R))
}.

#[export] Instance RNNUnit_BasicUnit {R} `{Scalar R} `{Activations R} `{TensorTruth R}
    : BasicUnit R (RNNUnit R) :=
  {| unit_forward := RNNUnit_forward |}.

(** ** [PackedSequence] and [TimeIterator] (rnn.py, lines 83-169) *)

(** Modelled from the spec: [PackedSequence] of [mytorch/nn/util.py], the
    "triple of (flat data tensor ..., sorted_indices ..., batch_sizes:
    ordered sequence of integers, one per timestep)".  Nothing in the
    record makes the invariant of the spec hold. *)
Record PackedSequence (R : Type) : Type := mk_PackedSequence {
  ps_data : Tensor (ndarray R);
  sorted_indices : list Z;
  batch_sizes : list Z
}.
Arguments mk_PackedSequence {R} ps_data sorted_indices batch_sizes.
Arguments ps_data {R} p.
Arguments sorted_indices {R} p.
Arguments batch_sizes {R} p.

Record TimeIterator (U : Type) : Type := mk_TimeIterator { unit : U }.
Arguments mk_TimeIterator {U} unit.
Arguments unit {U} t.

Section TimeIterator.
Context {R : Type} `{Scalar R} {U : Type} `{BasicUnit R U}.
Local Abbreviation tensor := (Tensor (ndarray R)).

Definition call_unit (u : U) (x : tensor) (hidden : option tensor) : traced R tensor :=
  let r := unit_forward u (PyTensor x) hidden in
  ([mk_call x hidden r], r).

(** *** Lines 126-134: the segments [X] *)

Record seg_state : Type := mk_seg {
  seg_X : list tensor;
  seg_start : Z;
  seg_end : Z
}.

Definition segment_step (data : tensor) (batch_sizes : list Z)
    (s : seg_state) (i : nat) : seg_state :=
  let end_ := (seg_start s + batch_sizes !!! i)%Z in
  let timestep_data := tensor_slice data (seg_start s) end_ in
  mk_seg (seg_X s ++ [timestep_data]) end_ end_.

Definition segments (data : tensor) (batch_sizes : list Z) : list tensor :=
  seg_X (fold_left (segment_step data batch_sizes)
           (seq 0 (length batch_sizes)) (mk_seg [] 0 0)).

(** *** Lines 135-149: the recurrence *)

Record rec_state : Type := mk_rec {
  hidden_states : list (pyobj R);
  hidden_step_per_batch : list tensor
}.

(** [o[:n]] *)
Definition subscript_to (o : pyobj R) (n : nat) : pyresult tensor :=
  match o with
  | PyTensor t => Returns (tensor_slice t 0 (Z.of_nat n))
  | _ => Raises TypeError
  end.

Definition recurrence_step (self : TimeIterator U) (X : list tensor)
    (hidden : option tensor) (i : nat) (s : rec_state) : traced R rec_state :=
  let* h_previous :=
    if i =? 0 then tret hidden
    else
      let* Xi := lift (getitem X i) in
      let effective_batch_size := shape0 Xi in
      let* prev := lift (getitem (hidden_states s) (i - 1)) in
      let* h := lift (subscript_to prev effective_batch_size) in
      tret (Some h) in
  let* Xi := lift (getitem X i) in
  let* hidden_state := call_unit (unit self) Xi h_previous in
  let* hidden_states' := lift (setitem (hidden_states s) i (PyTensor hidden_state)) in
  let* last := lift (tensor_last_row hidden_state) in
  tret (mk_rec hidden_states' (hidden_step_per_batch s ++ [last])).

Definition recurrence (self : TimeIterator U) (X : list tensor)
    (hidden : option tensor) : traced R rec_state :=
  let hidden_states := map (λ _, PyInt 0) X in
  for_each (seq 0 (length X)) (recurrence_step self X hidden)
    (mk_rec hidden_states []).

(** *** Lines 153-161: which recorded rows make the final hidden state *)

Definition count_step (batch_sizes : list Z) (d : gmap Z (option nat)) (i : nat)
    : gmap Z (option nat) :=
  let key := batch_sizes !!! i in
  <[key := Some i]> d.

Definition batch_size_sample_count (batch_sizes : list Z) : gmap Z (option nat) :=
  let d : gmap Z (option nat) := gset_to_gmap None (list_to_set batch_sizes) in
  fold_left (count_step batch_sizes) (seq 0 (length batch_sizes)) d.

(** [sorted(values)]: an entry still [None] cannot be compared. *)
Definition sorted_values (values : list (option nat)) : pyresult (list nat) :=
  let! ints := rmapM (λ v, match v with
                            | Some i => Returns i
                            | None => Raises TypeError
                            end) values in
  Returns (merge_sort le ints).

Definition target_hidden_step_indices (batch_sizes : list Z) : pyresult (list nat) :=
  sorted_values (map snd (map_to_list (batch_size_sample_count batch_sizes))).

Definition last_hidden_step_per_sample (hidden_step_per_batch : list tensor)
    (target : list nat) : pyresult (list tensor) :=
  let! l := rmapM (getitem hidden_step_per_batch) target in
  Returns (reverse l).

(** *** Lines 163-169 and the whole of [TimeIterator.forward] *)

Definition as_tensor (o : pyobj R) : pyresult tensor :=
  match o with
  | PyTensor t => Returns t
  | _ => Raises TypeError
  end.

Definition TimeIterator_forward (self : TimeIterator U)
    (input : PackedSequence R) (hidden : option tensor)
    : traced R (PackedSequence R * tensor) :=
  let '(mk_PackedSequence data sorted_indices batch_sizes) := input in
  let X := segments data batch_sizes in
  let* s := recurrence self X hidden in
  let* target := lift (target_hidden_step_indices batch_sizes) in
  let* last := lift (last_hidden_step_per_sample (hidden_step_per_batch s) target) in
  let* tensors := lift (rmapM as_tensor (hidden_states s)) in
  let* out := lift (tensor_cat tensors) in
  let ps := mk_PackedSequence out sorted_indices batch_sizes in
  let* final := lift (tensor_cat last) in
  tret (ps, final).
End TimeIterator.

(** [TimeIterator.__init__] with [basic_unit = RNNUnit]. *)
Definition TimeIterator_init {R} `{Scalar R} (input_size hidden_size : nat)
    (nonlinearity : string) (draw_ih draw_hh : nat → R)
    : pyresult (TimeIterator (RNNUnit R)) :=
  let! u := RNNUnit_init input_size hidden_size nonlinearity draw_ih draw_hh in
  Returns (mk_TimeIterator u).

(** [RNN.__init__] (lines 181-183) *)
Definition RNN_init {R} (input_size hidden_size : nat) (nonlinearity : string)
    : pyresult (TimeIterator (RNNUnit R)) :=
  Raises (NotImplementedError "Initialize properly!").

(** ** Arrays of any rank (numpy)

    The parameters an optimizer updates have any rank: such an array is
    its shape and its elements in row-major order.  Elementwise
    operations broadcast: the shapes are aligned at their last
    dimension, the shorter one is padded with 1s, and an extent of 1 is
    stretched. *)

Section NPArrays.
Context {R : Type} `{Scalar R}.

Record nparray : Type := mk_nparray {
  shape : list nat;
  flat : list R
}.

Definition size (s : list nat) : nat := foldr Nat.mul 1 s.

Definition wf_nparray (a : nparray) : Prop := length (flat a) = size (shape a).

(** [np.zeros(s)] *)
Definition np_zeros_shape (s : list nat) : nparray :=
  mk_nparray s (replicate (size s) s_zero).

(** [c * a] for a Python number [c] *)
Definition np_scale (c : R) (a : nparray) : nparray :=
  mk_nparray (shape a) (map (s_mul c) (flat a)).

Definition pad_shape (n : nat) (s : list nat) : list nat :=
  replicate (n - length s) 1 ++ s.

Fixpoint broadcast_dims (s1 s2 : list nat) : option (list nat) :=
  match s1, s2 with
  | [], [] => Some []
  | d1 :: s1', d2 :: s2' =>
      match bcast_dim d1 d2, broadcast_dims s1' s2' with
      | Some d, Some s => Some (d :: s)
      | _, _ => None
      end
  | _, _ => None
  end.

(** The index along each dimension of the element at position [k]. *)
Fixpoint unravel (s : list nat) (k : nat) : list nat :=
  match s with
  | [] => []
  | _ :: s' => k / size s' :: unravel s' (k mod size s')
  end.

(** The position, in an operand of (padded) shape [s], of the element
    that is combined into the result at the indices [idx]. *)
Fixpoint ravel_bcast (s idx : list nat) : nat :=
  match s, idx with
  | d :: s', i :: idx' => bcast_idx d i * size s' + ravel_bcast s' idx'
  | _, _ => 0
  end.

Definition np_elementwise (op : R → R → R) (a b : nparray) : pyresult nparray :=
  let n := max (length (shape a)) (length (shape b)) in
  let sa := pad_shape n (shape a) in
  let sb := pad_shape n (shape b) in
  match broadcast_dims sa sb with
  | Some s =>
      Returns (mk_nparray s
        (map (λ k, let idx := unravel s k in
                   op (nth (ravel_bcast sa idx) (flat a) s_zero)
                      (nth (ravel_bcast sb idx) (flat b) s_zero))
             (seq 0 (size s))))
  | None => Raises ValueError
  end.

Definition np_plus : nparray → nparray → pyresult nparray := np_elementwise s_add.
Definition np_minus : nparray → nparray → pyresult nparray := np_elementwise s_sub.
End NPArrays.
Arguments nparray R : clear implicits.

(** ** [SGD] (sgd.py)

    The parameters are tensor objects that the optimizer shares with
    the model: the optimizer holds references, and [step] assigns to
    the [data] attribute of the objects.  A state is the store of the
    tensor objects and the attributes of the optimizer.  In Python a
    reference always names an object; on a state where one does not,
    the model raises an exception of its own. *)

Section SGD.
Context {R : Type} `{Scalar R}.

(** Modelled from the spec: a parameter, a [Tensor] with its "value" and
    its "gradient (same shape, optional)": the array [data] and the
    array [grad.data] of its gradient tensor, when [grad] is not
    [None]. *)
Record param_tensor : Type := mk_param {
  param_data : nparray R;
  param_grad : option (nparray R)
}.

Record SGD : Type := mk_SGD {
  params : list nat;
  lr : R;
  momentum : R;
  momentums : list (nparray R)
}.

Record sgd_state : Type := mk_state {
  store : gmap nat param_tensor;
  self : SGD
}.

(** A computation on a state, which is kept as it is when an exception
    is raised. *)
Definition stateful (A : Type) : Type := sgd_state → sgd_state * pyresult A.

Definition sret {A} (a : A) : stateful A := λ st, (st, Returns a).

Definition sbind {A B} (m : stateful A) (k : A → stateful B) : stateful B :=
  λ st, match m st with
        | (st', Returns a) => k a st'
        | (st', Raises e) => (st', Raises e)
        end.

Definition slift {A} (r : pyresult A) : stateful A := λ st, (st, r).

Definition sget : stateful sgd_state := λ st, (st, Returns st).

Definition sput (st : sgd_state) : stateful () := λ _, (st, Returns ()).
End SGD.
Arguments param_tensor R : clear implicits.
Arguments SGD R : clear implicits.
Arguments sgd_state R : clear implicits.
Arguments stateful R A : clear implicits.

Notation "'let$' x ':=' m 'in' k" := (sbind m (λ x, k))
  (at level 10, x name, m at level 100, k at level 200) : py_scope.

Section SGDStep.
Context {R : Type} `{Scalar R}.

(** [SGD.__init__]: [refs] are the tensors of [params], in order (the
    parent class, which is not among the sources, keeps them as the
    list [self.params]). *)
Definition SGD_init (refs : list nat) (lr momentum : R) : stateful R () :=
  let$ st := sget in
  let$ shapes := slift (rmapM (λ t, match store st !! t with
                                    | Some p => Returns (shape (param_data p))
                                    | None => Raises (Exception "no such object")
                                    end) refs) in
  sput (mk_state (store st)
          (mk_SGD refs lr momentum (map np_zeros_shape shapes))).

(** [o.grad.data] *)
Definition grad_data (o : param_tensor R) : pyresult (nparray R) :=
  match param_grad o with
  | Some g => Returns g
  | None => Raises AttributeError
  end.

(** [self.params[idx]]: the tensor object the entry refers to. *)
Definition params_at (st : sgd_state R) (idx : nat)
    : pyresult (nat * param_tensor R) :=
  let! t := getitem (params (self st)) idx in
  match store st !! t with
  | Some o => Returns (t, o)
  | None => Raises (Exception "no such object")
  end.

(** Lines 33-39: the body of the loop. *)
Definition step_body (idx : nat) : stateful R () :=
  let$ st := sget in
  let$ m := slift (getitem (momentums (self st)) idx) in
  let velocity := np_scale (momentum (self st)) m in
  let$ p := slift (params_at st idx) in
  let$ g := slift (grad_data p.2) in
  let$ m' := slift (np_minus velocity (np_scale (lr (self st)) g)) in
  let$ ms := slift (setitem (momentums (self st)) idx m') in
  let st1 := mk_state (store st)
               (mk_SGD (params (self st)) (lr (self st)) (momentum (self st)) ms) in
  let$ _ := sput st1 in
  let$ p := slift (params_at st1 idx) in
  let$ m := slift (getitem (momentums (self st1)) idx) in
  let$ d := slift (np_plus (param_data p.2) m) in
  sput (mk_state (<[p.1 := mk_param d (param_grad p.2)]> (store st1)) (self st1)).

Fixpoint for_idx (idxs : list nat) (body : nat → stateful R ()) : stateful R () :=
  match idxs with
  | [] => sret ()
  | i :: idxs' => let$ _ := body i in for_idx idxs' body
  end.

(** [SGD.step] *)
Definition step : stateful R () :=
  let$ st := sget in
  for_idx (seq 0 (length (params (self st)))) step_body.

(** *** Vocabulary of the statements about [step] *)

(** What one iteration of the loop does to a state, when it raises
    nothing: [momentums[idx]] becomes
    [momentum * momentums[idx] - lr * params[idx].grad.data], and then
    [params[idx].data] becomes [params[idx].data + momentums[idx]]. *)
Definition updates_index (idx : nat) (st st' : sgd_state R) : Prop :=
  ∃ m t o g m' d,
    momentums (self st) !! idx = Some m ∧
    params (self st) !! idx = Some t ∧
    store st !! t = Some o ∧
    param_grad o = Some g ∧
    np_minus (np_scale (momentum (self st)) m) (np_scale (lr (self st)) g)
      = Returns m' ∧
    np_plus (param_data o) m' = Returns d ∧
    st' = mk_state (<[t := mk_param d (Some g)]> (store st))
            (mk_SGD (params (self st)) (lr (self st)) (momentum (self st))
               (<[idx := m']> (momentums (self st)))).

(** What the iterations for the indices [k, k + n) do to a state:
    every such index has its velocity and the data of its parameter
    updated from their values in [st], and nothing else changes. *)
Definition updates_range (k n : nat) (st st' : sgd_state R) : Prop :=
  params (self st') = params (self st) ∧
  lr (self st') = lr (self st) ∧
  momentum (self st') = momentum (self st) ∧
  length (momentums (self st')) = length (momentums (self st)) ∧
  (∀ i, ¬ (k ≤ i < k + n) →
        momentums (self st') !! i = momentums (self st) !! i) ∧
  (∀ t, (∀ i, k ≤ i < k + n → params (self st) !! i ≠ Some t) →
        store st' !! t = store st !! t) ∧
  (∀ i, k ≤ i < k + n →
     ∃ m t o g m' d,
       momentums (self st) !! i = Some m ∧
       params (self st) !! i = Some t ∧
       store st !! t = Some o ∧
       param_grad o = Some g ∧
       np_minus (np_scale (momentum (self st)) m) (np_scale (lr (self st)) g)
         = Returns m' ∧
       np_plus (param_data o) m' = Returns d ∧
       momentums (self st') !! i = Some m' ∧
       store st' !! t = Some (mk_param d (Some g))).

(** The parameter at [idx], its gradient and its velocity are arrays of
    one shape. *)
Definition index_ready (st : sgd_state R) (idx : nat) : Prop :=
  ∃ t o g m,
    params (self st) !! idx = Some t ∧
    store st !! t = Some o ∧
    param_grad o = Some g ∧
    momentums (self st) !! idx = Some m ∧
    wf_nparray (param_data o) ∧ wf_nparray g ∧ wf_nparray m ∧
    shape g = shape (param_data o) ∧ shape m = shape (param_data o).

(** Every parameter is a different tensor that has a gradient, and
    gradients and velocities have the shapes of their parameters. *)
Definition sgd_ready (st : sgd_state R) : Prop :=
  NoDup (params (self st)) ∧
  length (momentums (self st)) = length (params (self st)) ∧
  ∀ idx, idx < length (params (self st)) → index_ready st idx.

End SGDStep.

#[export] Instance Z_Scalar : Scalar Z :=
  {| s_zero := 0%Z; s_add := Z.add; s_sub := Z.sub; s_mul := Z.mul |}.

(** ** Vocabulary of the statements about the unit *)

Section RNNUnitSpec.
Context {R : Type} `{Scalar R} `{Activations R} `{TensorTruth R}.
Local Abbreviation tensor := (Tensor (ndarray R)).
Implicit Types (u : RNNUnit R) (x h z : tensor).

(** A tensor that is false is all zero.  Whatever [Tensor] defines,
    the usual readings of [not hidden] satisfy this: every object is
    true; an object is true when its [__len__] is not zero (a false
    tensor has no row); an object is true when one of its entries is not
    zero. *)
Definition false_is_zero : Prop :=
  ∀ t : tensor, tensor_bool t = false →
    data t = np_zeros (shape0 t) (ncols (data t)).

(** The parameters have the shapes [__init__] gives them. *)
Definition unit_shaped u (input_size : nat) : Prop :=
  has_shape (data (weight_ih u)) (hidden_size u) input_size ∧
  length (data (bias_ih u)) = hidden_size u ∧
  has_shape (data (weight_hh u)) (hidden_size u) (hidden_size u) ∧
  length (data (bias_hh u)) = hidden_size u.

(** The spec's formula, entry by entry:
    [pre = (x @ transpose(weight_ih) + bias_ih)
           + (hidden @ transpose(weight_hh) + bias_hh)]. *)
Definition spec_pre u x h (i j : nat) : R :=
  s_add
    (s_add (sum_upto (ncols (data x))
              (λ k, s_mul (get (data x) i k) (get (data (weight_ih u)) j k)))
           (nth j (data (bias_ih u)) s_zero))
    (s_add (sum_upto (ncols (data h))
              (λ k, s_mul (get (data h) i k) (get (data (weight_hh u)) j k)))
           (nth j (data (bias_hh u)) s_zero)).

Definition spec_advance u (a : Activation) x h : ndarray R :=
  tabulate (shape0 x) (hidden_size u) (λ i j, act_fun a (spec_pre u x h i j)).

(** The same formula as a chain of array operations. *)
Definition spec_pre_arrays u x h : pyresult (ndarray R) :=
  let! xw := np_matmul (data x) (np_T (data (weight_ih u))) in
  let! lhs := np_add1 xw (data (bias_ih u)) in
  let! hw := np_matmul (data h) (np_T (data (weight_hh u))) in
  let! rhs := np_add1 hw (data (bias_hh u)) in
  np_add lhs rhs.

(** Lines 76-80, for the hidden state already chosen. *)
Definition affine_act u x h : pyresult tensor :=
  let! xw := tensor_matmul x (tensor_T (weight_ih u)) in
  let! lhs := tensor_add1 xw (bias_ih u) in
  let! hw := tensor_matmul h (tensor_T (weight_hh u)) in
  let! rhs := tensor_add1 hw (bias_hh u) in
  let! weighted_sum := tensor_add lhs rhs in
  let! act := getattr_act u in
  Returns (act_apply act weighted_sum).

End RNNUnitSpec.

(** ** Formal scalars

    Expressions over integer constants.  A run on numbers is the image
    of the run on expressions, and which rows are selected, sliced or
    concatenated does not depend on the numbers at all; the concrete
    runs below are made on expressions. *)

Inductive sym : Type :=
  | SConst (z : Z)
  | SAdd (a b : sym)
  | SSub (a b : sym)
  | SMul (a b : sym)
  | STanh (a : sym)
  | SRelu (a : sym).

#[export] Instance sym_Scalar : Scalar sym :=
  {| s_zero := SConst 0; s_add := SAdd; s_sub := SSub; s_mul := SMul |}.

#[export] Instance sym_Activations : Activations sym :=
  {| s_tanh := STanh; s_relu := SRelu |}.

(** A tensor is true when it has a row ([__len__]). *)
#[export] Instance sym_TensorTruth : TensorTruth sym :=
  {| tensor_bool t := negb (shape0 t =? 0) |}.

(** [Tensor(rows)] with constant entries. *)
Definition const_tensor (l : list (list Z)) (c : nat) : Tensor (ndarray sym) :=
  Tensor_new (mk_ndarray (map (map SConst) l) c) false false.

(** A unit as [RNNUnit(input_size, hidden_size, nonlinearity)] builds
    it, every weight drawn being 1. *)
Definition unit_of (input_size n_hidden : nat) (nonlinearity : string)
    : pyresult (RNNUnit sym) :=
  RNNUnit_init input_size n_hidden nonlinearity (λ _, SConst 1) (λ _, SConst 1).

Definition relu_unit : RNNUnit sym :=
  mk_RNNUnit (Tensor_new (randn (λ _, SConst 1) 1 1) true true)
             (Tensor_new (np_zeros1 1) true true)
             (Tensor_new (randn (λ _, SConst 1) 1 1) true true)
             (Tensor_new (np_zeros1 1) true true)
             1 (Some ReLU).

(** ** Vocabulary of the statements about the time iterator *)

Section TimeIteratorSpec.
Context {R : Type} `{Scalar R} {U : Type} `{BasicUnit R U}.
Local Abbreviation tensor := (Tensor (ndarray R)).

(** The segments, by recursion on [batch_sizes]: the segment of a
    timestep starts where the one before ended. *)
Fixpoint cut (data : tensor) (start : Z) (batch_sizes : list Z) : list tensor :=
  match batch_sizes with
  | [] => []
  | b :: batch_sizes' =>
      tensor_slice data start (start + b) :: cut data (start + b) batch_sizes'
  end.

(** The recurrence, by recursion on the segments left.  [prev] is the
    hidden state of the timestep before ([None] at timestep 0); the
    result pairs every hidden state with its recorded last row. *)
Fixpoint unroll (u : U) (hidden : option tensor) (prev : option tensor)
    (Xs : list tensor) : traced R (list (tensor * tensor)) :=
  match Xs with
  | [] => tret []
  | x :: Xs' =>
      let h_previous :=
        match prev with
        | None => hidden
        | Some p => Some (tensor_slice p 0 (Z.of_nat (shape0 x)))
        end in
      let* hidden_state := call_unit u x h_previous in
      let* last := lift (tensor_last_row hidden_state) in
      let* rest := unroll u hidden (Some hidden_state) Xs' in
      tret ((hidden_state, last) :: rest)
  end.

(** Lines 153-169, on the hidden states and recorded rows of a
    recurrence that returned. *)
Definition finish (l : list (tensor * tensor)) (sorted_indices batch_sizes : list Z)
    : pyresult (PackedSequence R * tensor) :=
  let! target := target_hidden_step_indices batch_sizes in
  let! last := last_hidden_step_per_sample (map snd l) target in
  let! out := tensor_cat (map fst l) in
  let! final := tensor_cat last in
  Returns (mk_PackedSequence out sorted_indices batch_sizes, final).

Definition sum_Z (l : list Z) : Z := foldr Z.add 0%Z l.

(** The last timestep at which the batch size [v] occurs. *)
Fixpoint last_index (batch_sizes : list Z) (v : Z) : option nat :=
  match batch_sizes with
  | [] => None
  | b :: batch_sizes' =>
      match last_index batch_sizes' v with
      | Some i => Some (S i)
      | None => if decide (b = v) then Some 0 else None
      end
  end.

(** The timesteps after which their batch size does not occur again,
    in increasing order. *)
Definition last_steps (batch_sizes : list Z) : list nat :=
  filter (λ i, batch_sizes !!! i ∉ drop (S i) batch_sizes)
    (seq 0 (length batch_sizes)).

(** The spec's Step 3, in its words: for each distinct value of
    [batch_sizes] the last timestep at which it occurs; these sorted
    ascending, then reversed. *)
Definition spec_order (batch_sizes : list Z) : list nat :=
  reverse (merge_sort le (omap (last_index batch_sizes) (remove_dups batch_sizes))).

(** [exit_hidden[t]] is the last row of [hidden_states[t]]. *)
Definition spec_exit_hidden (hidden_states : list tensor) : pyresult (list tensor) :=
  rmapM tensor_last_row hidden_states.

(** Index [exit_hidden] with that order and concatenate. *)
Definition spec_final_hidden (hidden_states : list tensor) (batch_sizes : list Z)
    : pyresult tensor :=
  let! exit_hidden := spec_exit_hidden hidden_states in
  let! chosen := rmapM (getitem exit_hidden) (spec_order batch_sizes) in
  tensor_cat chosen.

(** The number of timesteps of the sample at position [j] of the sorted
    batch: it is active at the timesteps whose batch size exceeds [j]. *)
Definition sequence_length (batch_sizes : list Z) (j : nat) : nat :=
  length (filter (λ b, (Z.of_nat j < b)%Z) batch_sizes).

(** Every entry of [batch_sizes] is a count and the data has a row for
    each of them.  The packed-sequence invariant (counts that do not
    increase and add up to the number of rows) implies it. *)
Definition segments_fit (input : PackedSequence R) : Prop :=
  Forall (λ b, (0 ≤ b)%Z) (batch_sizes input) ∧
  (sum_Z (batch_sizes input) ≤ Z.of_nat (shape0 (ps_data input)))%Z.

Definition non_increasing (batch_sizes : list Z) : Prop :=
  StronglySorted (λ a b, (b ≤ a)%Z) batch_sizes.

Definition packed_invariant (input : PackedSequence R) : Prop :=
  Forall (λ b, (0 < b)%Z) (batch_sizes input) ∧
  non_increasing (batch_sizes input) ∧
  sum_Z (batch_sizes input) = Z.of_nat (shape0 (ps_data input)).
End TimeIteratorSpec.

(** ** Vocabulary of the statements about [TimeIterator] over [RNNUnit] *)

Section RNNIteratorSpec.
Context {R : Type} `{Scalar R} `{Activations R} `{TensorTruth R}.
Local Abbreviation tensor := (Tensor (ndarray R)).

(** A hidden state that can be passed with the input [x]: none, or one
    row for each row of [x]. *)
Definition hidden_fits (u : RNNUnit R) (hp : option tensor) (x : tensor) : Prop :=
  match hp with
  | None => True
  | Some h => shape0 h = shape0 x ∧ ncols (data h) = hidden_size u
  end.

(** Segments of [input_size] columns, none empty, none longer than the
    one before. *)
Fixpoint shrinking (input_size : nat) (Xs : list tensor) : Prop :=
  match Xs with
  | [] => True
  | x :: Xs' =>
      1 ≤ shape0 x ∧ ncols (data x) = input_size ∧
      match Xs' with
      | [] => True
      | x' :: _ => shape0 x' ≤ shape0 x
      end ∧
      shrinking input_size Xs'
  end.
End RNNIteratorSpec.

(** Data of [n] rows and one column, row [i] holding the constant [i]. *)
Definition data_rows (n : nat) : Tensor (ndarray sym) :=
  const_tensor (map (λ i, [Z.of_nat i]) (seq 0 n)) 1.

Definition relu_iterator : TimeIterator (RNNUnit sym) := mk_TimeIterator relu_unit.

(** The claim C7 as a property of an iterator: a malformed
    [batch_sizes] is rejected before the unit is called. *)
Definition malformed {R} `{Scalar R} (input : PackedSequence R) : Prop :=
  ¬ non_increasing (batch_sizes input) ∨
  0%Z ∈ batch_sizes input ∨
  sum_Z (batch_sizes input) ≠ Z.of_nat (shape0 (ps_data input)).

Definition rejects_malformed {R U} `{Scalar R} `{BasicUnit R U}
    (self : TimeIterator U) : Prop :=
  ∀ (input : PackedSequence R) hidden,
    malformed input →
    ∃ e, TimeIterator_forward self input hidden = ([], Raises e).

(** ** The remaining methods of rnn.py *)

Section Calls.
Context {R : Type} `{Scalar R} `{Activations R} `{TensorTruth R}.
Local Abbreviation tensor := (Tensor (ndarray R)).

(** [RNNUnit.__call__] (lines 49-50); an argument left out is [None]. *)
Definition RNNUnit_call (self : RNNUnit R) (input : pyobj R) (hidden : option tensor)
    : pyresult tensor :=
  RNNUnit_forward self input hidden.

(** [TimeIterator.__call__] (lines 103-104) *)
Definition TimeIterator_call {U : Type} `{BasicUnit R U} (self : TimeIterator U)
    (input : PackedSequence R) (hidden : option tensor)
    : traced R (PackedSequence R * tensor) :=
  TimeIterator_forward self input hidden.
End Calls.

(** ** Vocabulary of the further statements *)

Section ExtraSpec.
Context {R : Type} `{Scalar R}.
Local Abbreviation tensor := (Tensor (ndarray R)).

(** A hidden state that goes with the input [x] for a unit of
    [n_hidden] features: none, or one row of [n_hidden] columns for
    each row of [x]. *)
Definition hidden_fits_rows (n_hidden : nat) (hidden : option tensor) (x : tensor)
    : Prop :=
  match hidden with
  | None => True
  | Some h => shape0 h = shape0 x ∧ ncols (data h) = n_hidden
  end.

(** An initial hidden state that goes with the packed [input] for a unit
    of [n_hidden] features: none, or one row of [n_hidden] columns for
    each sample of the first timestep. *)
Definition initial_hidden_fits (n_hidden : nat) (hidden : option tensor)
    (input : PackedSequence R) : Prop :=
  match hidden with
  | None => True
  | Some h => Z.of_nat (shape0 h) = batch_sizes input !!! 0 ∧
              ncols (data h) = n_hidden
  end.

(** The names [RNNUnit.__init__] knows. *)
Definition known_nonlinearity (nonlinearity : string) : Prop :=
  nonlinearity = "tanh"%string ∨ nonlinearity = "relu"%string.

(** Row [j] of [x] is the one row of [x'], which has the columns of
    [x]. *)
Definition row_of (j : nat) (x x' : tensor) : Prop :=
  ncols (data x') = ncols (data x) ∧
  ∃ r, rows (data x) !! j = Some r ∧ rows (data x') = [r].

Definition hidden_row_of (j : nat) (hidden hidden' : option tensor) : Prop :=
  match hidden, hidden' with
  | None, None => True
  | Some h, Some h' => row_of j h h'
  | _, _ => False
  end.

(** The rows of the sample at position [j] of the sorted batch: row [j]
    of every segment that has one. *)
Definition sample_rows (input : PackedSequence R) (j : nat) : list (list R) :=
  omap (λ x : tensor, rows (data x) !! j)
    (segments (ps_data input) (batch_sizes input)).

(** That sample alone, as a packed sequence: a batch of one. *)
Definition sample_input (input : PackedSequence R) (j : nat) : PackedSequence R :=
  let d := ps_data input in
  mk_PackedSequence
    (mk_Tensor (mk_ndarray (sample_rows input j) (ncols (data d)))
       (requires_grad d) (is_leaf d) (is_parameter d))
    [0%Z] (replicate (length (sample_rows input j)) 1%Z).

(** [hidden[j:j+1]], when a hidden state is given. *)
Definition sample_hidden (hidden : option tensor) (j : nat) : option tensor :=
  match hidden with
  | None => None
  | Some h => Some (tensor_slice h (Z.of_nat j) (Z.of_nat j + 1))
  end.
End ExtraSpec.

(** ** Vocabulary of the further statements about [SGD] *)

Section SGDExtraSpec.
Context {R : Type} `{Scalar R}.

(** What a run of [step] leaves as it is: the attributes [params], [lr]
    and [momentum], the number of velocities, the tensor objects there
    are, their gradients, and the tensors that are not parameters. *)
Definition step_frame (st st' : sgd_state R) : Prop :=
  params (self st') = params (self st) ∧
  lr (self st') = lr (self st) ∧
  momentum (self st') = momentum (self st) ∧
  length (momentums (self st')) = length (momentums (self st)) ∧
  dom (store st') = dom (store st) ∧
  (∀ t o', store st' !! t = Some o' →
           ∃ o, store st !! t = Some o ∧ param_grad o' = param_grad o) ∧
  (∀ t, t ∉ params (self st) → store st' !! t = store st !! t).

(** There is a velocity for each parameter, and every parameter is a
    tensor object of the store. *)
Definition optimizer_consistent (st : sgd_state R) : Prop :=
  length (momentums (self st)) = length (params (self st)) ∧
  ∀ t, t ∈ params (self st) → is_Some (store st !! t).

(** Arithmetic on scalars without rounding, as far as the statement on
    the first step needs it: [x * 0 = 0] and [p + (0 - x) = p - x]. *)
Definition zero_laws : Prop :=
  (∀ x : R, s_mul x s_zero = s_zero) ∧
  (∀ p x : R, s_add p (s_sub s_zero x) = s_sub p x).
End SGDExtraSpec.
(** * Properties *)

(** ** The result monads *)

Lemma rbind_returns {A B} (m : pyresult A) (k : A → pyresult B) b :
  rbind m k = Returns b ↔ ∃ a, m = Returns a ∧ k a = Returns b.
Proof.
  destruct m as [a|e]; simpl; split.
  - eauto.
  - intros (a' & [= ->] & Hk). exact Hk.
  - discriminate.
  - intros (a' & [=] & _).
Qed.

Lemma rmapM_returns_length {A B} (f : A → pyresult B) l bs :
  rmapM f l = Returns bs → length bs = length l.
Proof.
  revert bs. induction l as [|a l IH]; intros bs; simpl.
  - intros [= <-]. reflexivity.
  - destruct (f a) as [b|]; [|discriminate]. simpl.
    destruct (rmapM f l) as [bs'|]; [|discriminate]. simpl.
    intros [= <-]. simpl. f_equal. apply IH. reflexivity.
Qed.

Lemma rmapM_total {A B} (f : A → pyresult B) (g : A → B) l :
  Forall (λ a, f a = Returns (g a)) l → rmapM f l = Returns (map g l).
Proof.
  induction 1 as [|a l Ha _ IH]; simpl; [reflexivity|].
  rewrite Ha. simpl. rewrite IH. reflexivity.
Qed.

Lemma rmapM_app {A B} (f : A → pyresult B) l1 l2 :
  rmapM f (l1 ++ l2) =
  (let! b1 := rmapM f l1 in let! b2 := rmapM f l2 in Returns (b1 ++ b2)).
Proof.
  induction l1 as [|a l1 IH]; simpl.
  - destruct (rmapM f l2); reflexivity.
  - destruct (f a); simpl; [|reflexivity]. rewrite IH.
    destruct (rmapM f l1); simpl; [|reflexivity].
    destruct (rmapM f l2); reflexivity.
Qed.

(** ** Arrays *)

Section ArrayFacts.
Context {R : Type} `{Scalar R}.
Implicit Types (a b : ndarray R) (f g : nat → nat → R).

Lemma nrows_tabulate r c f : nrows (tabulate r c f) = r.
Proof. unfold nrows, tabulate. simpl. by rewrite length_map, length_seq. Qed.

Lemma ncols_tabulate r c f : ncols (tabulate r c f) = c.
Proof. reflexivity. Qed.

Lemma wf_tabulate r c f : wf_array (tabulate r c f).
Proof.
  unfold wf_array, tabulate. simpl. apply Forall_forall.
  intros row Hrow. apply list_elem_of_fmap in Hrow as (i & -> & _).
  by rewrite length_map, length_seq.
Qed.

Lemma has_shape_tabulate r c f : has_shape (tabulate r c f) r c.
Proof. split; [apply nrows_tabulate|]. split; [reflexivity|apply wf_tabulate]. Qed.

Lemma nth_map_seq {B} (h : nat → B) n i d :
  i < n → nth i (map h (seq 0 n)) d = h i.
Proof.
  intros Hi. rewrite (nth_indep _ d (h 0)) by (by rewrite length_map, length_seq).
  change (h 0) with (h 0%nat). rewrite (map_nth h (seq 0 n) 0 i).
  by rewrite seq_nth.
Qed.

Lemma get_tabulate r c f i j :
  i < r → j < c → get (tabulate r c f) i j = f i j.
Proof.
  intros Hi Hj. unfold get, tabulate. simpl.
  rewrite (nth_map_seq (λ i, map (λ j, f i j) (seq 0 c))) by done.
  by rewrite (nth_map_seq (f i)).
Qed.

Lemma tabulate_ext r c f g :
  (∀ i j, i < r → j < c → f i j = g i j) → tabulate r c f = tabulate r c g.
Proof.
  intros Hfg. unfold tabulate. f_equal.
  apply map_ext_in. intros i Hi. apply in_seq in Hi.
  apply map_ext_in. intros j Hj. apply in_seq in Hj.
  apply Hfg; lia.
Qed.

Lemma sum_upto_ext n (p q : nat → R) :
  (∀ k, k < n → p k = q k) → sum_upto n p = sum_upto n q.
Proof.
  unfold sum_upto. generalize (s_zero (R := R)) as acc.
  assert (Hin : ∀ k, In k (seq 0 n) → k < n) by (intros k Hk; apply in_seq in Hk; lia).
  revert Hin. generalize (seq 0 n) as l.
  induction l as [|k l IH]; intros Hin acc Hpq; simpl; [reflexivity|].
  rewrite (Hpq k) by (apply Hin; by left).
  apply IH; [|done]. intros k' Hk'. apply Hin. by right.
Qed.

Lemma np_map_tabulate (h : R → R) r c f :
  np_map h (tabulate r c f) = tabulate r c (λ i j, h (f i j)).
Proof.
  unfold np_map, tabulate. simpl. f_equal.
  rewrite map_map. apply map_ext. intros i. by rewrite map_map.
Qed.

Lemma bcast_dim_same n : bcast_dim n n = Some n.
Proof. unfold bcast_dim. by rewrite Nat.eqb_refl. Qed.

Lemma bcast_dim_one n : bcast_dim n 1 = Some n.
Proof.
  unfold bcast_dim. destruct (Nat.eqb_spec n 1) as [->|]; [done|]. done.
Qed.

Lemma bcast_idx_lt n i : i < n → bcast_idx n i = i.
Proof.
  intros Hi. unfold bcast_idx. destruct (Nat.eqb_spec n 1); [lia|done].
Qed.

Lemma get_as_row (v : list R) j : get (as_row v) 0 j = nth j v s_zero.
Proof. reflexivity. Qed.

Lemma np_T_get a i j :
  i < ncols a → j < nrows a → get (np_T a) i j = get a j i.
Proof. intros. unfold np_T. by rewrite get_tabulate. Qed.

(** The product with a transposed matrix, entry by entry. *)
Lemma np_matmul_T x w :
  ncols x = ncols w →
  np_matmul x (np_T w) =
  Returns (tabulate (nrows x) (nrows w)
             (λ i j, sum_upto (ncols x) (λ k, s_mul (get x i k) (get w j k)))).
Proof.
  intros Hc. unfold np_matmul.
  assert (nrows (np_T w) = ncols w) as -> by apply nrows_tabulate.
  rewrite Hc, Nat.eqb_refl. f_equal.
  assert (ncols (np_T w) = nrows w) as -> by reflexivity.
  apply tabulate_ext. intros i j Hi Hj. rewrite <- Hc.
  apply sum_upto_ext. intros k Hk. rewrite np_T_get by lia. done.
Qed.

(** Adding a bias of the right extent to every row. *)
Lemma np_add1_tabulate r c f (v : list R) :
  length v = c →
  np_add1 (tabulate r c f) v =
  Returns (tabulate r c (λ i j, s_add (f i j) (nth j v s_zero))).
Proof.
  intros Hv. unfold np_add1, np_add, np_broadcast2.
  rewrite nrows_tabulate, ncols_tabulate.
  change (nrows (as_row v)) with 1. change (ncols (as_row v)) with (length v).
  rewrite Hv, bcast_dim_one, bcast_dim_same. f_equal.
  apply tabulate_ext. intros i j Hi Hj.
  rewrite !bcast_idx_lt by done. rewrite get_tabulate by done.
  unfold bcast_idx at 1. simpl. done.
Qed.

(** Adding two arrays of one shape. *)
Lemma np_add_tabulate r c f g :
  np_add (tabulate r c f) (tabulate r c g) =
  Returns (tabulate r c (λ i j, s_add (f i j) (g i j))).
Proof.
  unfold np_add, np_broadcast2.
  rewrite !nrows_tabulate, !ncols_tabulate, !bcast_dim_same. f_equal.
  apply tabulate_ext. intros i j Hi Hj.
  rewrite !bcast_idx_lt by done. by rewrite !get_tabulate.
Qed.

Lemma np_zeros_get r c i j : get (np_zeros r c) i j = s_zero.
Proof.
  unfold np_zeros.
  destruct (decide (i < r)) as [Hi|Hi]; [destruct (decide (j < c)) as [Hj|Hj]|].
  - by rewrite get_tabulate.
  - unfold get, tabulate. simpl.
    rewrite (nth_map_seq (λ i, map (λ j, s_zero) (seq 0 c))) by done.
    apply nth_overflow. rewrite length_map, length_seq. lia.
  - unfold get, tabulate. simpl.
    rewrite (nth_overflow (map _ _)) by (rewrite length_map, length_seq; lia).
    by destruct j.
Qed.
End ArrayFacts.

(** ** The recurrent unit *)

Section RNNUnitFacts.
Context {R : Type} `{Scalar R} `{Activations R} `{TensorTruth R}.
Local Abbreviation tensor := (Tensor (ndarray R)).
Implicit Types (u : RNNUnit R) (x h z : tensor).

Lemma RNNUnit_forward_unfold u x hidden :
  RNNUnit_forward u (PyTensor x) hidden = affine_act u x (resolve_hidden u x hidden).
Proof. reflexivity. Qed.

Lemma resolve_hidden_None u x :
  resolve_hidden u x None = Tensor_new (np_zeros (shape0 x) (hidden_size u)) true true.
Proof. reflexivity. Qed.

Lemma resolve_hidden_Some u x h :
  resolve_hidden u x (Some h) =
  if tensor_bool h then h
  else Tensor_new (np_zeros (shape0 x) (hidden_size u)) true true.
Proof. unfold resolve_hidden. by destruct (tensor_bool h). Qed.

(** The arrays computed depend on the array of the hidden state only,
    not on its flags. *)
Lemma affine_act_data u x h h' :
  data h = data h' → rmap data (affine_act u x h) = rmap data (affine_act u x h').
Proof.
  intros Hd. unfold affine_act, tensor_matmul, tensor_add1, tensor_add.
  destruct (np_matmul (data x) (data (tensor_T (weight_ih u)))) as [d1|]; [|done].
  simpl. destruct (np_add1 d1 (data (bias_ih u))) as [d2|]; [|done].
  simpl. rewrite <- Hd.
  destruct (np_matmul (data h) (np_T (data (weight_hh u)))) as [d3|]; [|done].
  simpl. destruct (np_add1 d3 (data (bias_hh u))) as [d4|]; [|done].
  simpl. destruct (np_add d2 d4) as [d5|]; [|done].
  simpl. destruct (getattr_act u); done.
Qed.

Lemma affine_act_flags u x h h' :
  data h = data h' → requires_grad (weight_hh u) = true →
  affine_act u x h = affine_act u x h'.
Proof.
  intros Hd Hrg. unfold affine_act, tensor_matmul, tensor_add1, tensor_add.
  destruct (np_matmul (data x) (data (tensor_T (weight_ih u)))) as [d1|]; [|done].
  simpl. destruct (np_add1 d1 (data (bias_ih u))) as [d2|]; [|done].
  simpl. rewrite <- Hd, Hrg.
  destruct (np_matmul (data h) (np_T (data (weight_hh u)))) as [d3|]; [|done].
  simpl. destruct (np_add1 d3 (data (bias_hh u))) as [d4|]; [|done].
  simpl. destruct (np_add d2 d4) as [d5|]; [|done].
  simpl. rewrite !orb_true_r. simpl. done.
Qed.

(** Without an activation no call returns. *)
Lemma affine_act_no_act u x h :
  act u = None → ∀ y, affine_act u x h ≠ Returns y.
Proof.
  intros Hact y. unfold affine_act, getattr_act. rewrite Hact.
  destruct (tensor_matmul x _); simpl; [|done].
  destruct (tensor_add1 _ _); simpl; [|done].
  destruct (tensor_matmul h _); simpl; [|done].
  destruct (tensor_add1 _ _); simpl; [|done].
  destruct (tensor_add _ _); simpl; done.
Qed.

(** On operands of matching shapes the code computes the formula. *)
Lemma affine_act_shaped u x h input_size :
  unit_shaped u input_size →
  ncols (data x) = input_size →
  shape0 h = shape0 x → ncols (data h) = hidden_size u →
  affine_act u x h =
  (let! a := getattr_act u in
   Returns (op_output (spec_advance u a x h)
              (requires_grad x || requires_grad (weight_ih u) || requires_grad (bias_ih u)
               || (requires_grad h || requires_grad (weight_hh u)
                   || requires_grad (bias_hh u))))).
Proof.
  intros (Hih & Hbih & Hhh & Hbhh) Hx Hh Hhc.
  destruct Hih as (Hih_r & Hih_c & _). destruct Hhh as (Hhh_r & Hhh_c & _).
  unfold affine_act, tensor_matmul, tensor_add1, tensor_add. simpl.
  rewrite np_matmul_T by congruence. simpl.
  rewrite Hih_r, np_add1_tabulate by done. simpl.
  rewrite np_matmul_T by congruence. simpl.
  rewrite Hhh_r. unfold shape0 in Hh. rewrite Hh.
  rewrite np_add1_tabulate by done. simpl.
  rewrite np_add_tabulate. simpl.
  destruct (getattr_act u) as [a|]; [|done]. simpl.
  unfold act_apply. simpl. rewrite np_map_tabulate. done.
Qed.

Lemma spec_advance_shape u a x h :
  has_shape (spec_advance u a x h) (shape0 x) (hidden_size u).
Proof. apply has_shape_tabulate. Qed.

(** The hidden state the unit uses has as many rows as [x] whenever the
    one passed does. *)
Lemma resolve_hidden_shape u x hidden :
  match hidden with
  | None => True
  | Some h => shape0 h = shape0 x ∧ ncols (data h) = hidden_size u
  end →
  shape0 (resolve_hidden u x hidden) = shape0 x ∧
  ncols (data (resolve_hidden u x hidden)) = hidden_size u.
Proof.
  destruct hidden as [h|].
  - intros [Hr Hc]. rewrite resolve_hidden_Some.
    destruct (tensor_bool h); [done|].
    split; [apply nrows_tabulate|reflexivity].
  - intros _. split; [apply nrows_tabulate|reflexivity].
Qed.

(** With a hidden state that is false the unit computes on zeros, which
    is what the hidden state was. *)
Lemma resolve_hidden_get u x h i j :
  false_is_zero →
  get (data (resolve_hidden u x (Some h))) i j = get (data h) i j.
Proof.
  intros Ht. rewrite resolve_hidden_Some.
  destruct (tensor_bool h) eqn:Hb; [done|].
  apply Ht in Hb. rewrite Hb. simpl. by rewrite !np_zeros_get.
Qed.

Lemma RNNUnit_init_returns input_size n_hidden nonlinearity draw_ih draw_hh :
  ∃ u, RNNUnit_init input_size n_hidden nonlinearity draw_ih draw_hh = Returns u
       ∧ unit_shaped u input_size
       ∧ hidden_size u = n_hidden
       ∧ requires_grad (weight_hh u) = true
       ∧ act u = (if String.eqb nonlinearity "tanh" then Some Tanh
                  else if String.eqb nonlinearity "relu" then Some ReLU
                  else None).
Proof.
  eexists. split; [reflexivity|]. simpl.
  split; [|done].
  repeat split; simpl; try apply nrows_tabulate; try apply wf_tabulate;
    apply length_replicate.
Qed.
End RNNUnitFacts.

Section RNNUnitClaims.
Context {R : Type} `{Scalar R} `{Activations R} `{TensorTruth R}.
Local Abbreviation tensor := (Tensor (ndarray R)).
Implicit Types (u : RNNUnit R) (x h z : tensor).

Lemma spec_pre_arrays_shaped u x h input_size :
  unit_shaped u input_size →
  ncols (data x) = input_size →
  shape0 h = shape0 x → ncols (data h) = hidden_size u →
  spec_pre_arrays u x h =
  Returns (tabulate (shape0 x) (hidden_size u) (spec_pre u x h)).
Proof.
  intros (Hih & Hbih & Hhh & Hbhh) Hx Hh Hhc.
  destruct Hih as (Hih_r & Hih_c & _). destruct Hhh as (Hhh_r & Hhh_c & _).
  unfold spec_pre_arrays.
  rewrite np_matmul_T by congruence. simpl.
  rewrite Hih_r, np_add1_tabulate by done. simpl.
  rewrite np_matmul_T by congruence. simpl.
  rewrite Hhh_r. unfold shape0 in Hh. rewrite Hh.
  rewrite np_add1_tabulate by done. simpl.
  by rewrite np_add_tabulate.
Qed.

Lemma spec_advance_resolved u a x h :
  false_is_zero → shape0 h = shape0 x → ncols (data h) = hidden_size u →
  spec_advance u a x (resolve_hidden u x (Some h)) = spec_advance u a x h.
Proof.
  intros Ht Hr Hc. unfold spec_advance. apply tabulate_ext. intros i j Hi Hj.
  f_equal. unfold spec_pre. f_equal. f_equal.
  destruct (resolve_hidden_shape u x (Some h)) as [_ Hc']; [done|].
  rewrite Hc', Hc. apply sum_upto_ext. intros k Hk.
  by rewrite resolve_hidden_get.
Qed.

(** C5.  On an input [x] of shape [B, input_size] and a hidden state of
    shape [B, hidden_size], for parameters of the shapes [__init__]
    gives them and a truth value of tensors under which a false tensor
    is all zero, [RNNUnit.forward] returns a tensor of shape
    [B, hidden_size] whose array is
    [act((x @ transpose(weight_ih) + bias_ih)
         + (hidden @ transpose(weight_hh) + bias_hh))]
    for the configured activation [act] (tanh or ReLU): the chain of
    array operations returns an array [pre], the result is [act] mapped
    over [pre], and entry [(i, j)] of [pre] is the spec's sum. *)
Theorem C5_forward_formula u (a : Activation) x h (B input_size : nat) :
  false_is_zero →
  unit_shaped u input_size →
  act u = Some a →
  has_shape (data x) B input_size →
  has_shape (data h) B (hidden_size u) →
  ∃ y pre,
    RNNUnit_forward u (PyTensor x) (Some h) = Returns y ∧
    spec_pre_arrays u x h = Returns pre ∧
    pre = tabulate B (hidden_size u) (spec_pre u x h) ∧
    data y = np_map (act_fun a) pre ∧
    has_shape (data y) B (hidden_size u).
Proof.
  intros Ht Hu Hact (Hxr & Hxc & _) (Hhr & Hhc & _).
  assert (Hrows : shape0 h = shape0 x) by (unfold shape0; congruence).
  destruct (resolve_hidden_shape u x (Some h)) as [Hr' Hc']; [done|].
  rewrite RNNUnit_forward_unfold.
  rewrite (affine_act_shaped u x _ input_size) by done.
  unfold getattr_act. rewrite Hact. simpl.
  eexists _, _. split; [reflexivity|].
  split; [by apply (spec_pre_arrays_shaped u x h input_size)|].
  unfold shape0. rewrite Hxr.
  split; [reflexivity|]. simpl.
  rewrite spec_advance_resolved by done.
  unfold spec_advance, shape0. rewrite Hxr, np_map_tabulate.
  split; [reflexivity|]. apply has_shape_tabulate.
Qed.

(** C6.  Calling [RNNUnit.forward] with [hidden = None] computes the
    same array (or raises the same exception) as calling it with any
    explicit all-zero tensor of shape [B, hidden_size], and returns the
    very same tensor when the hidden-to-hidden weight requires a
    gradient, as [__init__] makes it.  The hidden state synthesized for
    [None] is all zero, requires a gradient and is flagged as a
    parameter and a leaf; passing it explicitly changes nothing. *)
Theorem C6_zero_hidden_default u x z :
  data z = np_zeros (shape0 x) (hidden_size u) →
  rmap data (RNNUnit_forward u (PyTensor x) None)
    = rmap data (RNNUnit_forward u (PyTensor x) (Some z)) ∧
  (requires_grad (weight_hh u) = true →
   RNNUnit_forward u (PyTensor x) None = RNNUnit_forward u (PyTensor x) (Some z)) ∧
  let h0 := resolve_hidden u x None in
  data h0 = np_zeros (shape0 x) (hidden_size u) ∧
  requires_grad h0 = true ∧ is_parameter h0 = true ∧ is_leaf h0 = true ∧
  RNNUnit_forward u (PyTensor x) None = RNNUnit_forward u (PyTensor x) (Some h0).
Proof.
  intros Hz.
  assert (Hd : data (resolve_hidden u x None) = data (resolve_hidden u x (Some z))).
  { rewrite resolve_hidden_Some. by destruct (tensor_bool z). }
  rewrite !RNNUnit_forward_unfold.
  split; [by apply affine_act_data|].
  split; [intros Hrg; by apply affine_act_flags|].
  simpl. repeat split.
  rewrite resolve_hidden_Some. by destruct (tensor_bool _).
Qed.

(** C8.  For a nonlinearity other than "tanh" and "relu" the
    construction of an [RNNUnit] returns a unit (nothing is raised) on
    which no activation is set; no call of [forward] on that unit
    returns, and on operands of the right shapes the call raises the
    attribute error of the missing [act]. *)
Theorem C8_unknown_nonlinearity (input_size n_hidden : nat) (nonlinearity : string)
    (draw_ih draw_hh : nat → R) :
  nonlinearity ≠ "tanh"%string → nonlinearity ≠ "relu"%string →
  ∃ u,
    RNNUnit_init input_size n_hidden nonlinearity draw_ih draw_hh = Returns u ∧
    act u = None ∧
    (∀ (o : pyobj R) hidden y, RNNUnit_forward u o hidden ≠ Returns y) ∧
    (∀ x hidden B,
       has_shape (data x) B input_size →
       match hidden with
       | None => True
       | Some h => has_shape (data h) B n_hidden
       end →
       RNNUnit_forward u (PyTensor x) hidden = Raises AttributeError).
Proof.
  intros Htanh Hrelu.
  destruct (RNNUnit_init_returns input_size n_hidden nonlinearity draw_ih draw_hh)
    as (u & Hinit & Hshaped & Hsize & _ & Hact).
  apply String.eqb_neq in Htanh, Hrelu. rewrite Htanh, Hrelu in Hact.
  exists u. split; [done|]. split; [done|]. split.
  - intros [x| |] hidden y; [|done..].
    rewrite RNNUnit_forward_unfold. by apply affine_act_no_act.
  - intros x hidden B (Hxr & Hxc & _) Hh.
    destruct (resolve_hidden_shape u x hidden) as [Hr' Hc'].
    { destruct hidden as [h|]; [|done]. destruct Hh as (Hhr & Hhc & _).
      unfold shape0. split; congruence. }
    rewrite RNNUnit_forward_unfold.
    rewrite (affine_act_shaped u x _ input_size) by done.
    unfold getattr_act. by rewrite Hact.
Qed.
End RNNUnitClaims.

(** ** The trace monad *)

Section TraceFacts.
Context {R : Type}.
Implicit Types (A B C : Type).

Lemma tbind_tret_l {A B} (a : A) (k : A → traced R B) : tbind (tret a) k = k a.
Proof. unfold tbind, tret. by destruct (k a). Qed.

Lemma tbind_lift_returns {A B} (a : A) (k : A → traced R B) :
  tbind (lift (Returns a)) k = k a.
Proof. apply tbind_tret_l. Qed.

Lemma tbind_lift_raises {A B} e (k : A → traced R B) :
  tbind (lift (Raises e)) k = ([], Raises e).
Proof. reflexivity. Qed.

Lemma tbind_tret_r {A} (m : traced R A) : tbind m tret = m.
Proof.
  destruct m as [t [a|e]]; simpl; [|done]. by rewrite app_nil_r.
Qed.

Lemma tbind_assoc {A B C} (m : traced R A) (k : A → traced R B) (k' : B → traced R C) :
  tbind (tbind m k) k' = tbind m (λ a, tbind (k a) k').
Proof.
  destruct m as [t [a|e]]; simpl; [|done].
  destruct (k a) as [t1 [b|e]]; simpl; [|done].
  destruct (k' b) as [t2 r]. by rewrite app_assoc.
Qed.

Lemma tbind_ext {A B} (m : traced R A) (k k' : A → traced R B) :
  (∀ a, k a = k' a) → tbind m k = tbind m k'.
Proof.
  intros Hk. destruct m as [t [a|e]]; simpl; [|done]. by rewrite Hk.
Qed.

(** What was called before a bind is still called after it. *)
Lemma tbind_trace_lift {A B} (m : traced R A) (k : A → pyresult B) :
  (tbind m (λ a, lift (k a))).1 = m.1.
Proof.
  destruct m as [t [a|e]]; simpl; [|done]. by rewrite app_nil_r.
Qed.

Lemma tbind_returns {A B} (m : traced R A) (k : A → traced R B) t b :
  tbind m k = (t, Returns b) →
  ∃ t1 a t2, m = (t1, Returns a) ∧ k a = (t2, Returns b) ∧ t = t1 ++ t2.
Proof.
  destruct m as [t1 [a|e]]; simpl; [|done].
  destruct (k a) as [t2 r] eqn:Hk. intros [= <- ->]. by exists t1, a, t2.
Qed.
End TraceFacts.

(** ** Slicing *)

Lemma py_slice_to {A} (l : list A) (n : nat) :
  py_slice l 0 (Z.of_nat n) = take n l.
Proof.
  unfold py_slice, slice_bound. simpl.
  destruct (Z.ltb_spec (Z.of_nat n) 0) as [?|_]; [lia|].
  replace (Z.to_nat (0 `min` Z.of_nat (length l))) with 0 by lia.
  rewrite Nat.sub_0_r, drop_0.
  destruct (decide (n ≤ length l)) as [Hn|Hn].
  - f_equal. lia.
  - replace (Z.to_nat (Z.of_nat n `min` Z.of_nat (length l))) with (length l) by lia.
    rewrite !take_ge by lia. done.
Qed.

Lemma py_slice_counted {A} (l : list A) (s b : Z) :
  (0 ≤ s)%Z → (0 ≤ b)%Z → (s + b ≤ Z.of_nat (length l))%Z →
  py_slice l s (s + b) = take (Z.to_nat b) (drop (Z.to_nat s) l).
Proof.
  intros Hs Hb Hl. unfold py_slice, slice_bound.
  destruct (Z.ltb_spec s 0) as [?|_]; [lia|].
  destruct (Z.ltb_spec (s + b) 0) as [?|_]; [lia|].
  replace (Z.to_nat (s `min` Z.of_nat (length l))) with (Z.to_nat s) by lia.
  replace (Z.to_nat ((s + b) `min` Z.of_nat (length l)) - Z.to_nat s)
    with (Z.to_nat b) by lia.
  done.
Qed.

Lemma py_slice_counted_length {A} (l : list A) (s b : Z) :
  (0 ≤ s)%Z → (0 ≤ b)%Z → (s + b ≤ Z.of_nat (length l))%Z →
  length (py_slice l s (s + b)) = Z.to_nat b.
Proof.
  intros Hs Hb Hl. rewrite py_slice_counted by done.
  rewrite length_take, length_drop. lia.
Qed.

(** ** The time iterator *)

Section TimeIteratorFacts.
Context {R : Type} `{Scalar R} {U : Type} `{BasicUnit R U}.
Local Abbreviation tensor := (Tensor (ndarray R)).
Implicit Types (self : TimeIterator U) (X Xs : list tensor) (bs : list Z).

(** *** The first loop cuts consecutive segments *)

Lemma segments_loop (dat : tensor) pre bs acc s e :
  seg_X (fold_left (segment_step dat (pre ++ bs))
           (seq (length pre) (length bs)) (mk_seg acc s e))
  = acc ++ cut dat s bs.
Proof.
  revert pre acc s e. induction bs as [|b bs IH]; intros pre acc s e; simpl.
  - by rewrite app_nil_r.
  - unfold segment_step at 2. simpl.
    rewrite list_lookup_total_middle by done.
    replace (pre ++ b :: bs) with ((pre ++ [b]) ++ bs) by (by rewrite <- app_assoc).
    replace (S (length pre)) with (length (pre ++ [b]))
      by (rewrite length_app; simpl; lia).
    rewrite IH. by rewrite <- app_assoc.
Qed.

Lemma segments_cut (dat : tensor) bs : segments dat bs = cut dat 0 bs.
Proof. unfold segments. apply (segments_loop dat [] bs [] 0%Z 0%Z). Qed.

Lemma length_cut (dat : tensor) s bs : length (cut dat s bs) = length bs.
Proof. revert s. induction bs as [|b bs IH]; intros s; simpl; [done|]. by rewrite IH. Qed.

Lemma length_segments (dat : tensor) bs : length (segments dat bs) = length bs.
Proof. rewrite segments_cut. apply length_cut. Qed.

Lemma cut_shape (dat : tensor) s bs :
  (0 ≤ s)%Z → Forall (λ b, (0 ≤ b)%Z) bs →
  (s + sum_Z bs ≤ Z.of_nat (shape0 dat))%Z →
  Forall2 (λ x b, shape0 x = Z.to_nat b ∧ ncols (data x) = ncols (data dat))
    (cut dat s bs) bs.
Proof.
  intros Hs Hbs. revert s Hs. induction Hbs as [|b bs Hb Hbs IH]; intros s Hs Hsum.
  - constructor.
  - simpl in *. constructor.
    + split; [|done]. unfold shape0, nrows. simpl.
      apply py_slice_counted_length; [done..|]. unfold sum_Z in Hsum.
      assert (0 ≤ foldr Z.add 0 bs)%Z; [|unfold shape0, nrows in Hsum; lia].
      clear -Hbs. induction Hbs; simpl; lia.
    + apply IH; [lia|]. unfold sum_Z in *. lia.
Qed.

Lemma segments_shape (input : PackedSequence R) :
  segments_fit input →
  Forall2 (λ x b, shape0 x = Z.to_nat b ∧ ncols (data x) = ncols (data (ps_data input)))
    (segments (ps_data input) (batch_sizes input)) (batch_sizes input).
Proof.
  intros [Hbs Hsum]. rewrite segments_cut. by apply cut_shape.
Qed.

Lemma packed_invariant_fit (input : PackedSequence R) :
  packed_invariant input → segments_fit input.
Proof.
  intros (Hpos & _ & Hsum). split; [|lia].
  eapply Forall_impl; [exact Hpos|]. simpl. lia.
Qed.

(** *** The second loop is the recurrence [unroll] *)

Lemma recurrence_step_eq self hidden Xd x Xr (done_ : list (tensor * tensor)) :
  length done_ = length Xd →
  recurrence_step self (Xd ++ x :: Xr) hidden (length Xd)
    (mk_rec (map (λ p, PyTensor p.1) done_ ++ PyInt 0 :: map (λ _, PyInt 0) Xr)
            (map snd done_))
  = tbind (call_unit (unit self) x
             match last (map fst done_) with
             | None => hidden
             | Some p => Some (tensor_slice p 0 (Z.of_nat (shape0 x)))
             end)
      (λ hs, tbind (lift (tensor_last_row hs))
         (λ l, tret (mk_rec (map (λ p, PyTensor p.1) (done_ ++ [(hs, l)])
                              ++ map (λ _, PyInt 0) Xr)
                            (map snd (done_ ++ [(hs, l)]))))).
Proof.
  intros Hlen. unfold recurrence_step.
  assert (Hx : getitem (Xd ++ x :: Xr) (length Xd) = Returns x).
  { unfold getitem. by rewrite list_lookup_middle. }
  rewrite Hx.
  assert (Hprev :
    (if length Xd =? 0 then tret hidden
     else tbind (lift (Returns x)) (λ Xi,
            tbind (lift (getitem
                     (hidden_states
                        (mk_rec (map (λ p, PyTensor p.1) done_
                                 ++ PyInt 0 :: map (λ _, PyInt 0) Xr)
                                (map snd done_)))
                     (length Xd - 1)))
              (λ prev, tbind (lift (subscript_to prev (shape0 Xi)))
                         (λ h, tret (Some h)))))
    = tret (R := R) match last (map fst done_) with
           | None => hidden
           | Some p => Some (tensor_slice p 0 (Z.of_nat (shape0 x)))
           end).
  { destruct done_ as [|p0 done0 _] using rev_ind.
    - destruct Xd; [done|discriminate].
    - rewrite length_app in Hlen. simpl in Hlen.
      destruct (Nat.eqb_spec (length Xd) 0) as [?|_]; [lia|].
      rewrite (tbind_lift_returns x). simpl.
      rewrite !map_app. simpl. rewrite last_snoc.
      unfold getitem.
      replace (length Xd - 1) with (length (map (λ p, PyTensor (R := R) p.1) done0))
        by (rewrite length_map; lia).
      rewrite <- app_assoc. simpl. rewrite list_lookup_middle by done.
      destruct p0 as [p l0]. reflexivity. }
  rewrite Hprev, tbind_tret_l, (tbind_lift_returns x).
  apply tbind_ext. intros hs. cbn [hidden_states hidden_step_per_batch].
  unfold setitem.
  destruct (decide _) as [_|Hn].
  2:{ exfalso. apply Hn. rewrite length_app, length_map. simpl. lia. }
  rewrite (tbind_lift_returns (<[length Xd := PyTensor hs]> _)).
  apply tbind_ext. intros l. f_equal. f_equal.
  - rewrite insert_app_r_alt by (rewrite length_map; lia).
    rewrite length_map, Hlen, Nat.sub_diag. simpl.
    rewrite map_app. simpl. by rewrite <- app_assoc.
  - by rewrite map_app.
Qed.

Lemma recurrence_loop self hidden Xd Xr (done_ : list (tensor * tensor)) :
  length done_ = length Xd →
  for_each (seq (length Xd) (length Xr)) (recurrence_step self (Xd ++ Xr) hidden)
    (mk_rec (map (λ p, PyTensor p.1) done_ ++ map (λ _, PyInt 0) Xr) (map snd done_))
  = tbind (unroll (unit self) hidden (last (map fst done_)) Xr)
      (λ l, tret (mk_rec (map (λ p, PyTensor p.1) (done_ ++ l)) (map snd (done_ ++ l)))).
Proof.
  revert Xd done_. induction Xr as [|x Xr IH]; intros Xd done_ Hlen.
  - cbn [length seq for_each unroll map]. by rewrite tbind_tret_l, !app_nil_r.
  - cbn [length seq for_each unroll map].
    rewrite recurrence_step_eq by done.
    rewrite !tbind_assoc. apply tbind_ext. intros hs.
    rewrite !tbind_assoc. apply tbind_ext. intros l.
    rewrite tbind_tret_l, tbind_assoc.
    replace (Xd ++ x :: Xr) with ((Xd ++ [x]) ++ Xr) by (by rewrite <- app_assoc).
    replace (S (length Xd)) with (length (Xd ++ [x]))
      by (rewrite length_app; simpl; lia).
    rewrite IH by (rewrite !length_app; simpl; lia).
    rewrite map_app. simpl. rewrite last_snoc.
    apply tbind_ext. intros rest. unfold tret. by rewrite <- !app_assoc.
Qed.

Lemma recurrence_unroll self X hidden :
  recurrence self X hidden
  = tbind (unroll (unit self) hidden None X)
      (λ l, tret (mk_rec (map (λ p, PyTensor p.1) l) (map snd l))).
Proof. apply (recurrence_loop self hidden [] X []). done. Qed.

(** *** [forward] is the recurrence followed by the assembly *)

Lemma rmapM_as_tensor (l : list (tensor * tensor)) :
  rmapM as_tensor (map (λ p, PyTensor (R := R) p.1) l) = Returns (map fst l).
Proof.
  induction l as [|p l IH]; simpl; [done|]. by rewrite IH.
Qed.

Lemma forward_unroll self (input : PackedSequence R) hidden :
  TimeIterator_forward self input hidden
  = tbind (unroll (unit self) hidden None
             (segments (ps_data input) (batch_sizes input)))
      (λ l, lift (finish l (sorted_indices input) (batch_sizes input))).
Proof.
  destruct input as [dat si bs]. unfold TimeIterator_forward.
  cbn [ps_data sorted_indices batch_sizes].
  rewrite recurrence_unroll, tbind_assoc. apply tbind_ext. intros l.
  rewrite tbind_tret_l. cbn [hidden_states hidden_step_per_batch].
  rewrite rmapM_as_tensor. unfold finish.
  destruct (target_hidden_step_indices bs) as [target|]; [|done].
  rewrite (tbind_lift_returns target). simpl rbind at 1.
  destruct (last_hidden_step_per_sample (map snd l) target) as [last|]; [|done].
  rewrite (tbind_lift_returns last), (tbind_lift_returns (map fst l)).
  simpl rbind at 1.
  destruct (tensor_cat (map fst l)) as [out|]; [|done].
  rewrite (tbind_lift_returns out). simpl rbind at 1.
  destruct (tensor_cat last) as [final|]; [|done].
  by rewrite (tbind_lift_returns final).
Qed.

Lemma forward_trace self (input : PackedSequence R) hidden :
  (TimeIterator_forward self input hidden).1
  = (unroll (unit self) hidden None
       (segments (ps_data input) (batch_sizes input))).1.
Proof. rewrite forward_unroll. apply tbind_trace_lift. Qed.

Lemma forward_returns self (input : PackedSequence R) hidden trace ps final :
  TimeIterator_forward self input hidden = (trace, Returns (ps, final)) ↔
  ∃ l, unroll (unit self) hidden None
         (segments (ps_data input) (batch_sizes input)) = (trace, Returns l) ∧
       finish l (sorted_indices input) (batch_sizes input) = Returns (ps, final).
Proof.
  rewrite forward_unroll. split.
  - intros Hf. apply tbind_returns in Hf as (t1 & l & t2 & Hu & Hfin & ->).
    exists l. unfold lift in Hfin. injection Hfin as <- Hfin.
    by rewrite app_nil_r.
  - intros (l & Hu & Hfin). rewrite Hu. simpl. rewrite Hfin.
    by rewrite app_nil_r.
Qed.

(** *** The calls of the recurrence *)

Lemma unroll_cons (u : U) hidden prev x Xs :
  unroll u hidden prev (x :: Xs) =
  let hp := match prev with
            | None => hidden
            | Some p => Some (tensor_slice p 0 (Z.of_nat (shape0 x)))
            end in
  let r := unit_forward u (PyTensor x) hp in
  match r with
  | Raises e => ([mk_call x hp r], Raises e)
  | Returns hs =>
      match tensor_last_row hs with
      | Raises e => ([mk_call x hp r], Raises e)
      | Returns l =>
          (mk_call x hp r :: (unroll u hidden (Some hs) Xs).1,
           rmap (cons (hs, l)) (unroll u hidden (Some hs) Xs).2)
      end
  end.
Proof.
  cbn [unroll]. unfold call_unit. cbn zeta.
  destruct (unit_forward u (PyTensor x) _) as [hs|e]; [|done].
  cbn [tbind]. destruct (tensor_last_row hs) as [l|e]; [|done].
  rewrite (tbind_lift_returns l).
  destruct (unroll u hidden (Some hs) Xs) as [t [rest|e]]; simpl; [|done].
  by rewrite app_nil_r.
Qed.

Lemma unroll_calls (u : U) hidden Xs prev trace res :
  unroll u hidden prev Xs = (trace, res) →
  (∀ t c, trace !! t = Some c →
     Xs !! t = Some (call_x c) ∧
     call_outcome c = unit_forward u (PyTensor (call_x c)) (call_hidden c)) ∧
  (∀ c, trace !! 0 = Some c →
     call_hidden c = match prev with
                     | None => hidden
                     | Some p => Some (tensor_slice p 0 (Z.of_nat (shape0 (call_x c))))
                     end) ∧
  (∀ t c, trace !! S t = Some c →
     ∃ cp hp, trace !! t = Some cp ∧ call_outcome cp = Returns hp ∧
       call_hidden c = Some (tensor_slice hp 0 (Z.of_nat (shape0 (call_x c))))) ∧
  (∀ l, res = Returns l →
     length l = length Xs ∧
     Forall2 (λ c p, call_outcome c = Returns p.1 ∧ tensor_last_row p.1 = Returns p.2)
       trace l) ∧
  (Xs ≠ [] → ∃ c trace', trace = c :: trace').
Proof.
  revert prev trace res. induction Xs as [|x Xs IH]; intros prev trace res.
  - simpl. intros [= <- <-]. split_and!; try done.
    intros l [= <-]. split; [done|constructor].
  - rewrite unroll_cons. cbn zeta.
    set (hp := match prev with None => hidden | Some p => _ end).
    destruct (unit_forward u (PyTensor x) hp) as [hs|e] eqn:Hcall.
    2:{ intros [= <- <-]. split_and!.
        - intros [|t] c; [|done]. intros [= <-]. simpl. by rewrite Hcall.
        - by intros c [= <-].
        - intros t c Hc. by destruct t.
        - done.
        - eauto. }
    destruct (tensor_last_row hs) as [l|e] eqn:Hlast.
    2:{ intros [= <- <-]. split_and!.
        - intros [|t] c; [|done]. intros [= <-]. simpl. by rewrite Hcall.
        - by intros c [= <-].
        - intros t c Hc. by destruct t.
        - done.
        - eauto. }
    destruct (unroll u hidden (Some hs) Xs) as [t' r'] eqn:Hrest.
    destruct (IH _ _ _ Hrest) as (I1 & I2 & I3 & I4 & _).
    simpl. intros [= <- <-]. split_and!.
    + intros [|t] c; simpl; [|by apply I1]. intros [= <-]. simpl. by rewrite Hcall.
    + by intros c [= <-].
    + intros [|t] c Hc; simpl in *.
      * exists (mk_call x hp (Returns hs)), hs. split_and!; try done. by apply I2.
      * by apply I3.
    + destruct r' as [rest|]; [|done]. intros l' [= <-].
      destruct (I4 rest eq_refl) as [Hlen Hall].
      split; [simpl; by f_equal|]. by constructor.
    + eauto.
Qed.

Lemma recurrence_returns self X hidden trace s :
  recurrence self X hidden = (trace, Returns s) →
  ∃ l, unroll (unit self) hidden None X = (trace, Returns l) ∧
       s = mk_rec (map (λ p, PyTensor p.1) l) (map snd l).
Proof.
  rewrite recurrence_unroll. intros Hr.
  apply tbind_returns in Hr as (t1 & l & t2 & Hu & Hk & ->).
  injection Hk as <- <-. exists l. by rewrite app_nil_r.
Qed.

(** C1.  For every timestep [t > 0] at which the unit is called, the
    call at [t - 1] returned a tensor [hs_prev], which is
    [hidden_states[t-1]], and the hidden state passed at [t] is the
    slice [hs_prev[:n]] for the number [n] of rows of the segment
    [X[t]]: its rows are the first [n] rows of [hs_prev], in order.  On
    a packed input whose [batch_sizes] are counts covered by the rows of
    the data (as the packed-sequence invariant makes them) [n] is
    [batch_sizes[t]].  When [forward] returns, the unit was called at
    every timestep. *)
Theorem C1_previous_hidden_truncation self (input : PackedSequence R) hidden t c :
  0 < t →
  (TimeIterator_forward self input hidden).1 !! t = Some c →
  ∃ c_prev hs_prev h,
    (TimeIterator_forward self input hidden).1 !! (t - 1) = Some c_prev ∧
    call_outcome c_prev = Returns hs_prev ∧
    (∀ s, (recurrence self (segments (ps_data input) (batch_sizes input)) hidden).2
            = Returns s →
          hidden_states s !! (t - 1) = Some (PyTensor hs_prev)) ∧
    segments (ps_data input) (batch_sizes input) !! t = Some (call_x c) ∧
    call_hidden c = Some h ∧
    h = tensor_slice hs_prev 0 (Z.of_nat (shape0 (call_x c))) ∧
    rows (data h) = take (shape0 (call_x c)) (rows (data hs_prev)) ∧
    ncols (data h) = ncols (data hs_prev) ∧
    (segments_fit input →
     shape0 (call_x c) = Z.to_nat (batch_sizes input !!! t) ∧
     h = tensor_slice hs_prev 0 (batch_sizes input !!! t) ∧
     rows (data h) = take (Z.to_nat (batch_sizes input !!! t)) (rows (data hs_prev))) ∧
    (∀ ps final,
       (TimeIterator_forward self input hidden).2 = Returns (ps, final) →
       length (TimeIterator_forward self input hidden).1
       = length (batch_sizes input)).
Proof.
  intros Ht. rewrite forward_trace.
  destruct (unroll (unit self) hidden None
              (segments (ps_data input) (batch_sizes input))) as [trace res] eqn:Hu.
  simpl. intros Hc.
  destruct (unroll_calls _ _ _ _ _ _ Hu) as (P1 & _ & P3 & P4 & _).
  destruct t as [|t]; [lia|]. replace (S t - 1) with t by lia.
  destruct (P3 t c Hc) as (cp & hp & Hcp & Hout & Hhid).
  destruct (P1 _ _ Hc) as [HX _].
  exists cp, hp, (tensor_slice hp 0 (Z.of_nat (shape0 (call_x c)))).
  split_and!; try done.
  - intros s Hs.
    destruct (recurrence self _ hidden) as [trace' r] eqn:Hrec. simpl in Hs. subst r.
    apply recurrence_returns in Hrec as (l & Hu' & ->).
    rewrite Hu in Hu'. injection Hu' as -> ->.
    destruct (P4 l eq_refl) as [_ Hall].
    destruct (Forall2_lookup_l _ _ _ _ _ Hall Hcp) as (p & Hp & Hret & _).
    simpl. rewrite list_lookup_fmap, Hp. simpl.
    rewrite Hout in Hret. by injection Hret as ->.
  - simpl. apply py_slice_to.
  - intros Hfit.
    destruct (Forall2_lookup_l _ _ _ _ _ (segments_shape input Hfit) HX)
      as (b & Hb & Hrows & _).
    assert (Hbt : batch_sizes input !!! S t = b) by (by apply list_lookup_total_correct).
    assert (Hb0 : (0 ≤ b)%Z).
    { destruct Hfit as [Hall _]. rewrite Forall_forall in Hall.
      apply Hall. by eapply list_elem_of_lookup_2. }
    rewrite Hbt. split; [done|]. rewrite Hrows, Z2Nat.id by done.
    split; [done|]. simpl. rewrite <- (Z2Nat.id b) at 1 by done. apply py_slice_to.
  - intros ps final Hret.
    destruct (TimeIterator_forward self input hidden) as [trace' r] eqn:Hf.
    simpl in Hret. subst r.
    apply forward_returns in Hf as (l & Hu' & _).
    rewrite Hu in Hu'. injection Hu' as <- ->.
    destruct (P4 l eq_refl) as [Hlen Hall].
    rewrite (Forall2_length _ _ _ Hall), Hlen. apply length_segments.
Qed.

(** *** Which timesteps are selected *)

Lemma last_index_Some bs v i :
  last_index bs v = Some i ↔ bs !! i = Some v ∧ v ∉ drop (S i) bs.
Proof.
  revert i. induction bs as [|b bs IH]; intros i; simpl.
  - split; [done|]. by intros [? _].
  - destruct (last_index bs v) as [k|] eqn:Hk.
    + pose proof (proj1 (IH k) eq_refl) as [Hk1 Hk2].
      split.
      * intros [= <-]. done.
      * intros [Hi Hd]. destruct i as [|i]; simpl in *.
        { exfalso. apply Hd. rewrite drop_0. by eapply list_elem_of_lookup_2. }
        assert (Some k = Some i) as [= ->] by (by apply IH). done.
    + assert (Hnot : v ∉ bs).
      { intros Hin. apply list_elem_of_lookup in Hin as [j Hj].
        assert (Hex : ∃ j, bs !! j = Some v ∧ v ∉ drop (S j) bs).
        { clear -Hj. revert j Hj. induction bs as [|b bs IHb]; intros j Hj; [done|].
          destruct (decide (v ∈ bs)) as [Hin|Hin].
          - apply list_elem_of_lookup in Hin as [j' Hj'].
            destruct (IHb _ Hj') as (k & Hk1 & Hk2). by exists (S k).
          - destruct j as [|j]; simpl in Hj.
            + injection Hj as ->. exists 0. simpl. by rewrite drop_0.
            + exfalso. apply Hin. by eapply list_elem_of_lookup_2. }
        destruct Hex as (k & Hk1 & Hk2).
        assert (None = Some k) by (by apply IH). done. }
      destruct (decide (b = v)) as [->|Hne].
      * split.
        -- intros [= <-]. by rewrite drop_0.
        -- intros [Hi _]. destruct i as [|i]; [done|]. simpl in Hi.
           exfalso. apply Hnot. by eapply list_elem_of_lookup_2.
      * split; [done|]. intros [Hi _]. destruct i as [|i]; simpl in Hi.
        -- congruence.
        -- exfalso. apply Hnot. by eapply list_elem_of_lookup_2.
Qed.

Lemma last_index_None bs v : last_index bs v = None ↔ v ∉ bs.
Proof.
  induction bs as [|b bs IH]; simpl.
  - split; [intros _; apply not_elem_of_nil|done].
  - destruct (last_index bs v) as [k|] eqn:Hk.
    + split; [done|]. intros Hnot. exfalso. apply Hnot. right.
      apply last_index_Some in Hk as [Hk _]. by eapply list_elem_of_lookup_2.
    + destruct (decide (b = v)) as [->|Hne].
      * split; [done|]. intros Hnot. exfalso. apply Hnot. by left.
      * split; [|done]. intros _ Hin. apply elem_of_cons in Hin as [->|Hin]; [done|].
        by apply IH in Hin.
Qed.

Lemma elem_of_last_steps bs i :
  i ∈ last_steps bs ↔ ∃ v, last_index bs v = Some i.
Proof.
  unfold last_steps. rewrite list_elem_of_filter, elem_of_seq. split.
  - intros [Hlast [_ Hi]]. simpl in Hi.
    destruct (lookup_lt_is_Some_2 bs i Hi) as [v Hv].
    exists v. apply last_index_Some. split; [done|].
    by rewrite (list_lookup_total_correct _ _ _ Hv) in Hlast.
  - intros (v & Hv). apply last_index_Some in Hv as [Hv Hd].
    rewrite (list_lookup_total_correct _ _ _ Hv).
    split; [done|]. split; [lia|]. simpl. by eapply lookup_lt_Some.
Qed.

Lemma StronglySorted_lt_seq j n : StronglySorted lt (seq j n).
Proof.
  revert j. induction n as [|n IH]; intros j; simpl; constructor; [apply IH|].
  apply Forall_forall. intros k Hk. apply elem_of_seq in Hk. lia.
Qed.

Lemma StronglySorted_filter_list {A} (Rel : relation A) (P : A → Prop)
    `{∀ x, Decision (P x)} (l : list A) :
  StronglySorted Rel l → StronglySorted Rel (filter P l).
Proof.
  induction 1 as [|x l Hl IH Hx]; [constructor|].
  rewrite filter_cons. destruct (decide (P x)); [|done].
  constructor; [done|]. apply Forall_forall. intros y Hy.
  apply list_elem_of_filter in Hy as [_ Hy].
  rewrite Forall_forall in Hx. by apply Hx.
Qed.

Lemma last_steps_sorted bs : StronglySorted lt (last_steps bs).
Proof. apply StronglySorted_filter_list, StronglySorted_lt_seq. Qed.

Lemma StronglySorted_lt_le (l : list nat) : StronglySorted lt l → Sorted le l.
Proof.
  intros Hl. apply StronglySorted_Sorted.
  induction Hl as [|x l Hl IH Hx]; constructor; [done|].
  eapply Forall_impl; [exact Hx|]. simpl. lia.
Qed.

Lemma StronglySorted_lt_NoDup (l : list nat) : StronglySorted lt l → NoDup l.
Proof.
  induction 1 as [|x l Hl IH Hx]; constructor; [|done].
  intros Hin. rewrite Forall_forall in Hx. specialize (Hx _ Hin). lia.
Qed.

(** Sorting any duplicate-free list of exactly those timesteps gives
    [last_steps]. *)
Lemma sort_last_steps bs (l : list nat) :
  NoDup l → (∀ i, i ∈ l ↔ ∃ v, last_index bs v = Some i) →
  merge_sort le l = last_steps bs.
Proof.
  intros Hnd Hel.
  apply (Sorted_unique le).
  - apply (Sorted_merge_sort le).
  - apply StronglySorted_lt_le, last_steps_sorted.
  - rewrite merge_sort_Permutation.
    apply NoDup_Permutation; [done|apply StronglySorted_lt_NoDup, last_steps_sorted|].
    intros i. by rewrite Hel, elem_of_last_steps.
Qed.

Lemma count_loop pre bs (d : gmap Z (option nat)) v :
  fold_left (count_step (pre ++ bs)) (seq (length pre) (length bs)) d !! v
  = match last_index bs v with
    | Some i => Some (Some (length pre + i))
    | None => d !! v
    end.
Proof.
  revert pre d. induction bs as [|b bs IH]; intros pre d; simpl; [done|].
  unfold count_step at 2. rewrite list_lookup_total_middle by done.
  replace (pre ++ b :: bs) with ((pre ++ [b]) ++ bs) by (by rewrite <- app_assoc).
  replace (S (length pre)) with (length (pre ++ [b]))
    by (rewrite length_app; simpl; lia).
  rewrite IH. rewrite length_app. simpl.
  destruct (last_index bs v) as [i|].
  - do 2 f_equal. lia.
  - destruct (decide (b = v)) as [->|Hne].
    + rewrite lookup_insert_eq. do 2 f_equal. lia.
    + by rewrite lookup_insert_ne.
Qed.

Lemma batch_size_sample_count_lookup bs v :
  batch_size_sample_count bs !! v = Some <$> last_index bs v.
Proof.
  unfold batch_size_sample_count.
  rewrite (count_loop [] bs). simpl.
  destruct (last_index bs v) as [i|] eqn:Hi; [done|]. simpl.
  apply lookup_gset_to_gmap_None. rewrite elem_of_list_to_set.
  by apply last_index_None.
Qed.

Lemma NoDup_omap_id {A} (l : list (option A)) : NoDup l → NoDup (omap id l).
Proof.
  induction 1 as [|o l Ho Hl IH]; simpl; [constructor|].
  destruct o as [a|]; simpl; [|done]. constructor; [|done].
  intros Hin. apply list_elem_of_omap in Hin as (o & Ho' & Heq).
  simpl in Heq. by subst o.
Qed.

Lemma rmapM_somes (l : list (option nat)) :
  Forall is_Some l →
  rmapM (λ v, match v with
              | Some i => Returns i
              | None => Raises TypeError
              end) l = Returns (omap id l).
Proof.
  induction 1 as [|o l [i ->] Hl IH]; simpl; [done|]. by rewrite IH.
Qed.

(** The dictionary loop selects the timesteps of [last_steps]. *)
Lemma target_hidden_step_indices_eq bs :
  target_hidden_step_indices bs = Returns (last_steps bs).
Proof.
  unfold target_hidden_step_indices, sorted_values.
  set (d := batch_size_sample_count bs).
  assert (Hel : ∀ o, o ∈ map snd (map_to_list d) ↔ ∃ v, d !! v = Some o).
  { intros o. rewrite list_elem_of_fmap. split.
    - intros ([v o'] & -> & Hin). exists v. by apply elem_of_map_to_list.
    - intros (v & Hv). exists (v, o). split; [done|]. by apply elem_of_map_to_list. }
  rewrite rmapM_somes.
  2:{ apply Forall_forall. intros o Ho. apply Hel in Ho as (v & Hv).
      unfold d in Hv. rewrite batch_size_sample_count_lookup in Hv.
      destruct (last_index bs v); simplify_eq/=. by eexists. }
  simpl. f_equal. apply sort_last_steps.
  - apply NoDup_omap_id. apply NoDup_fmap_2_strong; [|apply NoDup_map_to_list].
    intros [v1 o1] [v2 o2] H1 H2 Heq. simpl in Heq. subst o2.
    apply elem_of_map_to_list in H1, H2. unfold d in H1, H2.
    rewrite batch_size_sample_count_lookup in H1, H2.
    destruct (last_index bs v1) as [i1|] eqn:E1; [|done].
    destruct (last_index bs v2) as [i2|] eqn:E2; [|done].
    simpl in *. assert (i1 = i2) as -> by congruence.
    apply last_index_Some in E1 as [E1 _], E2 as [E2 _]. congruence.
  - intros i. rewrite list_elem_of_omap. split.
    + intros (o & Ho & Hid). simpl in Hid. subst o.
      apply Hel in Ho as (v & Hv). exists v.
      unfold d in Hv. rewrite batch_size_sample_count_lookup in Hv.
      destruct (last_index bs v); simplify_eq/=. done.
    + intros (v & Hv). exists (Some i). split; [|done]. apply Hel. exists v.
      unfold d. by rewrite batch_size_sample_count_lookup, Hv.
Qed.

(** The spec's order is the reverse of [last_steps]. *)
Lemma spec_order_eq bs : spec_order bs = reverse (last_steps bs).
Proof.
  unfold spec_order. f_equal. apply sort_last_steps.
  - assert (Hnd : NoDup (remove_dups bs)) by apply NoDup_remove_dups.
    induction Hnd as [|v l Hv Hl IH]; simpl; [constructor|].
    destruct (last_index bs v) as [i|] eqn:Hi; [|done].
    constructor; [|done]. intros Hin.
    apply list_elem_of_omap in Hin as (v' & Hv' & Hi').
    apply last_index_Some in Hi as [Hi _], Hi' as [Hi' _]. congruence.
  - intros i. rewrite list_elem_of_omap. split.
    + intros (v & _ & Hv). by exists v.
    + intros (v & Hv). exists v. split; [|done].
      apply elem_of_remove_dups. apply last_index_Some in Hv as [Hv _].
      by eapply list_elem_of_lookup_2.
Qed.

(** *** Assembling the final hidden state *)

Lemma rmapM_Forall2 {A B} (f : A → pyresult B) l ys :
  rmapM f l = Returns ys ↔ Forall2 (λ a y, f a = Returns y) l ys.
Proof.
  revert ys. induction l as [|a l IH]; intros ys; simpl.
  - split; [intros [= <-]; constructor|]. by inv 1.
  - split.
    + destruct (f a) as [b|] eqn:Hb; [|done]. simpl.
      destruct (rmapM f l) as [ys'|]; [|done]. simpl.
      intros [= <-]. constructor; [done|]. by apply IH.
    + inv 1 as [|? y ? ys' Hy Hys]. rewrite Hy. simpl.
      apply IH in Hys. by rewrite Hys.
Qed.

Lemma rmapM_reverse {A B} (f : A → pyresult B) l ys :
  rmapM f l = Returns ys → rmapM f (reverse l) = Returns (reverse ys).
Proof.
  rewrite !rmapM_Forall2. apply Forall2_reverse.
Qed.

Lemma unroll_exit_hidden (u : U) hidden prev Xs trace l :
  unroll u hidden prev Xs = (trace, Returns l) →
  spec_exit_hidden (map fst l) = Returns (map snd l).
Proof.
  intros Hu. destruct (unroll_calls _ _ _ _ _ _ Hu) as (_ & _ & _ & P4 & _).
  destruct (P4 l eq_refl) as [_ Hall].
  apply rmapM_Forall2. clear -Hall.
  induction Hall as [|c p t l' [_ Hp] _ IH]; simpl; constructor; done.
Qed.

Lemma finish_spec (l : list (tensor * tensor)) si bs ps final :
  spec_exit_hidden (map fst l) = Returns (map snd l) →
  finish l si bs = Returns (ps, final) ↔
  tensor_cat (map fst l) = Returns (ps_data ps) ∧
  sorted_indices ps = si ∧ batch_sizes ps = bs ∧
  spec_final_hidden (map fst l) bs = Returns final.
Proof.
  intros Hexit. unfold finish, spec_final_hidden, last_hidden_step_per_sample.
  rewrite Hexit, target_hidden_step_indices_eq, spec_order_eq. simpl.
  split.
  - destruct (rmapM (getitem (map snd l)) (last_steps bs)) as [chosen|] eqn:Hc;
      [|done]. simpl.
    destruct (tensor_cat (map fst l)) as [out|]; [|done]. simpl.
    destruct (tensor_cat (reverse chosen)) as [final'|] eqn:Hf; [|done]. simpl.
    intros [= <- <-]. simpl. split_and!; try done.
    apply rmapM_reverse in Hc. by rewrite Hc.
  - intros (Hout & Hsi & Hbs & Hfin).
    destruct (rmapM (getitem (map snd l)) (reverse (last_steps bs)))
      as [chosen|] eqn:Hc; [|done]. simpl in Hfin.
    apply rmapM_reverse in Hc. rewrite reverse_involutive in Hc.
    rewrite Hc. simpl. rewrite reverse_involutive, Hout. simpl.
    rewrite Hfin. simpl. destruct ps as [d s b]. simpl in *. by subst.
Qed.

Lemma tensor_cat_returns (l : list tensor) t :
  tensor_cat l = Returns t →
  l ≠ [] ∧
  rows (data t) = concat (map (λ x, rows (data x)) l) ∧
  Forall (λ x, ncols (data x) = ncols (data t)) l.
Proof.
  unfold tensor_cat, np_concatenate. destruct l as [|a l]; [done|]. simpl.
  destruct (forallb _ _) eqn:Hall; [|done]. simpl. intros [= <-]. simpl.
  split; [done|]. split.
  - f_equal. by rewrite map_map.
  - constructor; [done|].
    apply Forall_forall. intros x Hx.
    assert (Hall' : Forall (λ b, ncols b =? ncols (data a)) (map data l)).
    { apply forallb_True. by rewrite Hall. }
    rewrite Forall_forall in Hall'.
    apply Nat.eqb_eq, Is_true_true, Hall', list_elem_of_fmap. by exists x.
Qed.

Lemma tensor_last_row_returns (h r : tensor) :
  tensor_last_row h = Returns r →
  ∃ row, last (rows (data h)) = Some row ∧
         rows (data r) = [row] ∧ ncols (data r) = ncols (data h).
Proof.
  unfold tensor_last_row, np_last_row.
  destruct (last (rows (data h))) as [row|]; [|done]. simpl.
  intros [= <-]. by exists row.
Qed.

(** The rows of the final hidden state, one for each selected timestep. *)
Lemma spec_final_hidden_rows (hs : list tensor) bs final :
  spec_final_hidden hs bs = Returns final →
  Forall2 (λ row i, ∃ h, hs !! i = Some h ∧ last (rows (data h)) = Some row)
    (rows (data final)) (spec_order bs).
Proof.
  unfold spec_final_hidden, spec_exit_hidden.
  destruct (rmapM tensor_last_row hs) as [exit_hidden|] eqn:Hexit; [|done]. simpl.
  destruct (rmapM (getitem exit_hidden) (spec_order bs)) as [chosen|] eqn:Hc;
    [|done]. simpl.
  intros Hcat. apply tensor_cat_returns in Hcat as (_ & -> & _).
  apply rmapM_Forall2 in Hexit, Hc.
  clear -Hexit Hc. induction Hc as [|i c idxs chosen Hi _ IH]; simpl; [constructor|].
  unfold getitem in Hi. destruct (exit_hidden !! i) as [e|] eqn:He; [|done].
  injection Hi as ->.
  destruct (Forall2_lookup_r _ _ _ _ _ Hexit He) as (h & Hh & Hlast).
  apply tensor_last_row_returns in Hlast as (row & Hrow & -> & _).
  simpl. constructor; [|done]. by exists h.
Qed.

(** *** The order of the selected timesteps *)

Lemma StronglySorted_reverse {A} (Rel : relation A) (l : list A) :
  StronglySorted Rel l → StronglySorted (flip Rel) (reverse l).
Proof.
  induction 1 as [|x l Hl IH Hx]; [constructor|].
  rewrite reverse_cons. apply StronglySorted_app. split_and!.
  - intros y z Hy Hz. apply list_elem_of_singleton in Hz as ->.
    rewrite elem_of_reverse in Hy. rewrite Forall_forall in Hx.
    unfold flip. by apply Hx.
  - done.
  - repeat constructor.
Qed.

Lemma spec_order_descending bs : StronglySorted gt (spec_order bs).
Proof.
  rewrite spec_order_eq.
  apply (StronglySorted_reverse lt), last_steps_sorted.
Qed.

Lemma StronglySorted_lookup_lt {A} (Rel : relation A) (l : list A) j k a b :
  StronglySorted Rel l → j < k → l !! j = Some a → l !! k = Some b → Rel a b.
Proof.
  intros Hl. revert j k. induction Hl as [|x l Hl IH Hx]; intros j k Hjk Hj Hk; [done|].
  destruct k as [|k]; [lia|]. simpl in Hk.
  destruct j as [|j]; simpl in Hj.
  - injection Hj as ->. rewrite Forall_forall in Hx.
    apply Hx. by eapply list_elem_of_lookup_2.
  - apply (IH j k); [lia|done..].
Qed.

Lemma filter_all {A} (P : A → Prop) `{∀ x, Decision (P x)} (l : list A) :
  Forall P l → filter P l = l.
Proof.
  induction 1 as [|x l Hx Hl IH]; [done|].
  rewrite filter_cons. destruct (decide (P x)); [|done]. by rewrite IH.
Qed.

Lemma filter_none {A} (P : A → Prop) `{∀ x, Decision (P x)} (l : list A) :
  Forall (λ x, ¬ P x) l → filter P l = [].
Proof.
  induction 1 as [|x l Hx Hl IH]; [done|].
  rewrite filter_cons. destruct (decide (P x)); [done|]. by rewrite IH.
Qed.

(** When the batch sizes are positive and do not increase, the sample
    whose row is the last one at a selected timestep [i] has exactly
    [i + 1] timesteps: [i] is its last. *)
Lemma selected_sample_length bs i :
  non_increasing bs → Forall (λ b, (0 < b)%Z) bs →
  i ∈ spec_order bs →
  sequence_length bs (Z.to_nat (bs !!! i) - 1) = S i.
Proof.
  intros Hsorted Hpos Hi.
  rewrite spec_order_eq, elem_of_reverse, elem_of_last_steps in Hi.
  destruct Hi as (v & Hv). apply last_index_Some in Hv as [Hv Hlast].
  rewrite (list_lookup_total_correct _ _ _ Hv).
  assert (Hv0 : (0 < v)%Z).
  { rewrite Forall_forall in Hpos. apply Hpos. by eapply list_elem_of_lookup_2. }
  unfold sequence_length.
  rewrite <- (take_drop (S i) bs) at 1. rewrite filter_app, length_app.
  rewrite filter_all, filter_none.
  - simpl. rewrite length_take. apply lookup_lt_Some in Hv. lia.
  - apply Forall_forall. intros b Hb.
    apply list_elem_of_lookup in Hb as [k Hk]. rewrite lookup_drop in Hk.
    pose proof (StronglySorted_lookup_lt _ bs i (S i + k) v b
                  Hsorted ltac:(lia) Hv Hk) as Hle. simpl in Hle.
    assert (b ≠ v).
    { intros ->. apply Hlast. apply list_elem_of_lookup. exists k.
      by rewrite lookup_drop. }
    lia.
  - apply Forall_forall. intros b Hb.
    apply list_elem_of_lookup in Hb as [k Hk].
    apply lookup_take_Some in Hk as [Hk Hlt].
    destruct (decide (k = i)) as [->|Hne].
    + assert (b = v) by congruence. lia.
    + pose proof (StronglySorted_lookup_lt _ bs k i b v
                    Hsorted ltac:(lia) Hk Hv) as Hle. simpl in Hle.
      lia.
Qed.

(** [forward] returns exactly when the recurrence returns, its hidden
    states concatenate, and the spec's Step 3 assembles the final
    hidden state. *)
Lemma forward_returns_spec self (input : PackedSequence R) hidden trace ps final :
  TimeIterator_forward self input hidden = (trace, Returns (ps, final)) ↔
  ∃ s hs,
    recurrence self (segments (ps_data input) (batch_sizes input)) hidden
      = (trace, Returns s) ∧
    hidden_states s = map PyTensor hs ∧
    tensor_cat hs = Returns (ps_data ps) ∧
    sorted_indices ps = sorted_indices input ∧
    batch_sizes ps = batch_sizes input ∧
    spec_final_hidden hs (batch_sizes input) = Returns final.
Proof.
  rewrite forward_returns. split.
  - intros (l & Hu & Hfin).
    pose proof (unroll_exit_hidden _ _ _ _ _ _ Hu) as Hexit.
    apply (finish_spec _ _ _ _ _ Hexit) in Hfin as (Hout & Hsi & Hbs & Hfin).
    exists (mk_rec (map (λ p, PyTensor p.1) l) (map snd l)), (map fst l).
    split_and!; try done.
    + rewrite recurrence_unroll, Hu. simpl. by rewrite app_nil_r.
    + simpl. by rewrite map_map.
  - intros (s & hs & Hrec & Hhs & Hout & Hsi & Hbs & Hfin).
    apply recurrence_returns in Hrec as (l & Hu & ->). simpl in Hhs.
    assert (hs = map fst l) as ->.
    { rewrite <- (map_map fst PyTensor) in Hhs. revert Hhs.
      generalize (map fst l). clear. intros l.
      revert l. induction hs as [|h hs IH]; intros [|h' l] Heq;
        simplify_eq/=; [done|]. f_equal. by apply IH. }
    exists l. split; [done|].
    pose proof (unroll_exit_hidden _ _ _ _ _ _ Hu) as Hexit.
    by apply (finish_spec _ _ _ _ _ Hexit).
Qed.

(** When the recurrence has returned [l] and the assembly returns, row
    [m] of the final hidden state is the last row of what the unit
    returned at the [m]-th selected timestep. *)
Lemma final_rows_from_unroll self (input : PackedSequence R) hidden trace l ps final :
  unroll (unit self) hidden None (segments (ps_data input) (batch_sizes input))
    = (trace, Returns l) →
  finish l (sorted_indices input) (batch_sizes input) = Returns (ps, final) →
  length trace = length (batch_sizes input) ∧
  Forall2 (λ row i, ∃ c p,
             trace !! i = Some c ∧
             l !! i = Some p ∧
             segments (ps_data input) (batch_sizes input) !! i = Some (call_x c) ∧
             call_outcome c
               = unit_forward (unit self) (PyTensor (call_x c)) (call_hidden c) ∧
             call_outcome c = Returns p.1 ∧
             last (rows (data p.1)) = Some row)
    (rows (data final)) (spec_order (batch_sizes input)).
Proof.
  intros Hu Hfin.
  pose proof (unroll_exit_hidden _ _ _ _ _ _ Hu) as Hexit.
  apply (finish_spec _ _ _ _ _ Hexit) in Hfin as (_ & _ & _ & Hfin).
  apply spec_final_hidden_rows in Hfin.
  destruct (unroll_calls _ _ _ _ _ _ Hu) as (P1 & _ & _ & P4 & _).
  destruct (P4 l eq_refl) as [Hlen Hall]. rewrite length_segments in Hlen.
  split; [by rewrite (Forall2_length _ _ _ Hall)|].
  eapply Forall2_impl; [exact Hfin|]. simpl. intros row i (h & Hh & Hrow).
  rewrite list_lookup_fmap in Hh. destruct (l !! i) as [p|] eqn:Hp; [|done].
  injection Hh as <-.
  destruct (Forall2_lookup_r _ _ _ _ _ Hall Hp) as (c & Hc & Hout & _).
  destruct (P1 i c Hc) as [Hx Hcall]. by exists c, p.
Qed.

(** C9.  The [PackedSequence] that [TimeIterator.forward] returns has
    the [sorted_indices] and the [batch_sizes] of the input, and its
    data is [tensor.cat(hidden_states)]: there is one hidden state for
    each timestep, and the rows of the data are the rows of
    [hidden_states[0]], then those of [hidden_states[1]], and so on. *)
Theorem C9_output_packed_sequence self (input : PackedSequence R) hidden trace ps final :
  TimeIterator_forward self input hidden = (trace, Returns (ps, final)) →
  sorted_indices ps = sorted_indices input ∧
  batch_sizes ps = batch_sizes input ∧
  ∃ s hs,
    recurrence self (segments (ps_data input) (batch_sizes input)) hidden
      = (trace, Returns s) ∧
    hidden_states s = map PyTensor hs ∧
    length hs = length (batch_sizes input) ∧
    tensor_cat hs = Returns (ps_data ps) ∧
    rows (data (ps_data ps)) = concat (map (λ h, rows (data h)) hs) ∧
    Forall (λ h, ncols (data h) = ncols (data (ps_data ps))) hs.
Proof.
  intros Hf. apply forward_returns_spec in Hf
    as (s & hs & Hrec & Hhs & Hout & Hsi & Hbs & _).
  split; [done|]. split; [done|]. exists s, hs.
  pose proof Hrec as Hrec'.
  apply recurrence_returns in Hrec' as (l & Hu & ->). simpl in Hhs.
  destruct (unroll_calls _ _ _ _ _ _ Hu) as (_ & _ & _ & P4 & _).
  destruct (P4 l eq_refl) as [Hlen _].
  apply tensor_cat_returns in Hout as Hcat. destruct Hcat as (_ & Hrows & Hcols).
  split_and!; try done.
  rewrite <- (length_map PyTensor hs), <- Hhs, length_map, Hlen.
  apply length_segments.
Qed.

(** C7, as the code has it.  [TimeIterator.forward] checks nothing
    about [batch_sizes]: whenever [batch_sizes] has an entry, well formed
    or not, the first thing it does is to call the unit on
    [data[0:batch_sizes[0]]] with the hidden state it was given. *)
Theorem C7_no_validation self (input : PackedSequence R) hidden :
  batch_sizes input ≠ [] →
  ∃ c rest,
    (TimeIterator_forward self input hidden).1 = c :: rest ∧
    call_x c = tensor_slice (ps_data input) 0 (batch_sizes input !!! 0) ∧
    call_hidden c = hidden.
Proof.
  intros Hne. rewrite forward_trace, segments_cut.
  destruct (batch_sizes input) as [|b bs]; [done|]. cbn [cut].
  destruct (unroll (unit self) hidden None (_ :: cut _ _ _)) as [trace res] eqn:Hu.
  destruct (unroll_calls _ _ _ _ _ _ Hu) as (P1 & P2 & _ & _ & P5).
  destruct P5 as (c & rest & ->); [done|].
  exists c, rest. split; [done|].
  destruct (P1 0 c eq_refl) as [HX _]. simpl in HX. injection HX as HX.
  split; [by rewrite <- HX|]. by apply P2.
Qed.

(** With a single timestep there is one call, with the hidden state
    given, one hidden state, and the final hidden state is the last row
    of that hidden state alone. *)
Lemma single_timestep self (dat : tensor) si (B : Z) hidden trace ps final :
  TimeIterator_forward self (mk_PackedSequence dat si [B]) hidden
    = (trace, Returns (ps, final)) →
  ∃ hs row,
    trace = [mk_call (tensor_slice dat 0 B) hidden (Returns hs)] ∧
    recurrence self (segments dat [B]) hidden
      = (trace, Returns (mk_rec [PyTensor hs] [op_output (mk_ndarray [row] (ncols (data hs)))
                                                 (requires_grad hs)])) ∧
    data (ps_data ps) = data hs ∧
    last (rows (data hs)) = Some row ∧
    rows (data final) = [row].
Proof.
  intros Hf. apply forward_returns in Hf as (l & Hu & Hfin).
  cbn [ps_data batch_sizes sorted_indices] in Hu, Hfin.
  rewrite segments_cut in Hu. cbn [cut] in Hu.
  rewrite unroll_cons in Hu. cbn zeta in Hu.
  destruct (unit_forward (unit self) _ hidden) as [hs|] eqn:Hcall; [|done].
  unfold tensor_last_row, np_last_row in Hu.
  destruct (last (rows (data hs))) as [row|] eqn:Hrow; [|done].
  simpl in Hu. injection Hu as <- <-.
  exists hs, row. split; [done|]. split.
  { rewrite recurrence_unroll, segments_cut. cbn [cut].
    rewrite unroll_cons. cbn zeta. rewrite Hcall.
    unfold tensor_last_row, np_last_row. rewrite Hrow. done. }
  unfold finish in Hfin. rewrite target_hidden_step_indices_eq in Hfin.
  change (last_steps [B]) with [0] in Hfin.
  simpl in Hfin. injection Hfin as <- <-. simpl.
  split_and!; try done.
  - destruct hs as [[rs c] ? ? ?]. simpl. by rewrite app_nil_r.
Qed.
End TimeIteratorFacts.

(** ** The time iterator over the recurrent unit *)

Section RNNIteratorFacts.
Context {R : Type} `{Scalar R} `{Activations R} `{TensorTruth R}.
Local Abbreviation tensor := (Tensor (ndarray R)).
Implicit Types (u : RNNUnit R) (x h : tensor) (Xs : list tensor) (bs : list Z).

Lemma RNNUnit_forward_returns u a input_size x hp :
  unit_shaped u input_size → act u = Some a →
  ncols (data x) = input_size → hidden_fits u hp x →
  ∃ y, RNNUnit_forward u (PyTensor x) hp = Returns y ∧
       shape0 y = shape0 x ∧ ncols (data y) = hidden_size u.
Proof.
  intros Hu Hact Hx Hfit.
  destruct (resolve_hidden_shape u x hp) as [Hr Hc].
  { destruct hp; [exact Hfit|done]. }
  rewrite RNNUnit_forward_unfold, (affine_act_shaped u x _ input_size) by done.
  unfold getattr_act. rewrite Hact. simpl. eexists. split; [done|].
  simpl. split; [apply nrows_tabulate|done].
Qed.

Lemma shape0_slice_to x n :
  n ≤ shape0 x → shape0 (tensor_slice x 0 (Z.of_nat n)) = n.
Proof.
  intros Hn. unfold shape0, nrows. simpl. rewrite py_slice_to, length_take.
  unfold shape0, nrows in Hn. lia.
Qed.

Lemma tensor_last_row_total x :
  1 ≤ shape0 x →
  ∃ r, tensor_last_row x = Returns r ∧ shape0 r = 1 ∧ ncols (data r) = ncols (data x).
Proof.
  intros Hx. unfold tensor_last_row, np_last_row.
  destruct (last (rows (data x))) as [row|] eqn:Hlast.
  - simpl. eexists. split; [done|]. done.
  - apply last_None in Hlast. unfold shape0, nrows in Hx. rewrite Hlast in Hx.
    simpl in Hx. lia.
Qed.

(** On segments that shrink the recurrence returns, and every hidden
    state has the rows of its segment. *)
Lemma unroll_RNN_returns u a input_size hidden prev Xs :
  unit_shaped u input_size → act u = Some a →
  shrinking input_size Xs →
  match Xs with
  | [] => True
  | x :: _ =>
      match prev with
      | None => hidden_fits u hidden x
      | Some p => shape0 x ≤ shape0 p ∧ ncols (data p) = hidden_size u
      end
  end →
  ∃ trace l,
    unroll u hidden prev Xs = (trace, Returns l) ∧
    length trace = length Xs ∧
    Forall2 (λ x p, shape0 p.1 = shape0 x ∧ ncols (data p.1) = hidden_size u ∧
                    shape0 p.2 = 1 ∧ ncols (data p.2) = hidden_size u) Xs l.
Proof.
  intros Hu Hact. revert prev.
  induction Xs as [|x Xs IH]; intros prev Hshr Hfirst.
  - exists [], []. split; [done|]. split; [done|constructor].
  - destruct Hshr as (Hx1 & Hxc & Hnext & Hshr).
    rewrite unroll_cons. cbn zeta.
    set (hp := match prev with None => hidden | Some p => _ end).
    assert (Hfit : hidden_fits u hp x).
    { unfold hp. destruct prev as [p|]; [|done]. destruct Hfirst as [Hle Hpc].
      split; [by apply shape0_slice_to|done]. }
    destruct (RNNUnit_forward_returns u a input_size x hp Hu Hact Hxc Hfit)
      as (y & Hy & Hyr & Hyc).
    change (unit_forward u (PyTensor x) hp) with (RNNUnit_forward u (PyTensor x) hp).
    rewrite Hy.
    destruct (tensor_last_row_total y) as (r & Hr & Hr1 & Hrc); [lia|].
    rewrite Hr.
    destruct (IH (Some y) Hshr) as (trace & l & Hrest & Hlen & Hall).
    { destruct Xs as [|x' Xs']; [done|]. split; [lia|done]. }
    rewrite Hrest. simpl. eexists _, _. split; [done|].
    split; [simpl; by f_equal|].
    constructor; [|done]. simpl. split_and!; try done. congruence.
Qed.

Lemma segments_shrinking (input : PackedSequence R) :
  packed_invariant input →
  shrinking (ncols (data (ps_data input)))
    (segments (ps_data input) (batch_sizes input)).
Proof.
  intros Hinv. pose proof (segments_shape input (packed_invariant_fit _ Hinv)) as Hshape.
  destruct Hinv as (Hpos & Hsorted & _).
  revert Hshape Hpos Hsorted.
  generalize (segments (ps_data input) (batch_sizes input)) as Xs.
  generalize (batch_sizes input) as bs.
  intros bs Xs Hshape. induction Hshape as [|x b Xs bs [Hxr Hxc] Hrest IH];
    intros Hpos Hsorted; [done|].
  apply Forall_cons in Hpos as [Hb Hpos].
  apply StronglySorted_inv in Hsorted as [Hsorted Hall].
  simpl. split_and!; [lia|done| |by apply IH].
  destruct Hrest as [|x' b' Xs' bs' [Hxr' _] _]; [done|].
  apply Forall_cons in Hall as [Hb' _]. lia.
Qed.

Lemma rmapM_getitem_total {A} (l : list A) (idxs : list nat) :
  Forall (λ i, i < length l) idxs →
  ∃ ys, rmapM (getitem l) idxs = Returns ys ∧
        Forall2 (λ i y, l !! i = Some y) idxs ys.
Proof.
  induction 1 as [|i idxs Hi _ (ys & Hys & Hall)].
  - exists []. split; [done|constructor].
  - destruct (lookup_lt_is_Some_2 l i Hi) as [y Hy].
    exists (y :: ys). simpl. unfold getitem at 1. rewrite Hy. simpl.
    rewrite Hys. split; [done|]. by constructor.
Qed.

Lemma tensor_cat_total (l : list tensor) (c : nat) :
  l ≠ [] → Forall (λ x, ncols (data x) = c) l →
  ∃ t, tensor_cat l = Returns t ∧
       rows (data t) = concat (map (λ x, rows (data x)) l) ∧
       ncols (data t) = c.
Proof.
  intros Hne Hall. destruct l as [|x l]; [done|].
  apply Forall_cons in Hall as [Hx Hall].
  unfold tensor_cat, np_concatenate. simpl.
  assert (Hb : forallb (λ b, ncols b =? ncols (data x)) (map data l) = true).
  { apply forallb_forall. intros b Hb. apply in_map_iff in Hb as (y & <- & Hy).
    apply Nat.eqb_eq. rewrite Forall_forall in Hall.
    rewrite Hx. apply Hall. by apply list_elem_of_In. }
  rewrite Hb. simpl. eexists. split; [done|]. simpl.
  split; [|done]. f_equal. by rewrite map_map.
Qed.

Lemma last_steps_lt bs i : i ∈ last_steps bs → i < length bs.
Proof.
  unfold last_steps. rewrite list_elem_of_filter, elem_of_seq. lia.
Qed.

Lemma last_steps_nonempty bs : bs ≠ [] → last_steps bs ≠ [].
Proof.
  intros Hne Hnil.
  destruct bs as [|b bs _] using rev_ind; [done|].
  assert (Hin : length bs ∈ last_steps (bs ++ [b])).
  { apply elem_of_last_steps. exists b. apply last_index_Some.
    split; [by rewrite list_lookup_middle|].
    rewrite drop_ge by (rewrite length_app; simpl; lia). apply not_elem_of_nil. }
  rewrite Hnil in Hin. by apply not_elem_of_nil in Hin.
Qed.

Lemma length_concat_single (l : list tensor) :
  Forall (λ x, shape0 x = 1) l →
  length (concat (map (λ x, rows (data x)) l)) = length l.
Proof.
  induction 1 as [|x l Hx _ IH]; simpl; [done|].
  rewrite length_app, IH. unfold shape0, nrows in Hx. lia.
Qed.

Lemma length_concat_counts (l : list (tensor * tensor)) bs :
  Forall2 (λ p b, shape0 p.1 = Z.to_nat b) l bs →
  Forall (λ b, (0 ≤ b)%Z) bs →
  length (concat (map (λ x, rows (data x)) (map fst l))) = Z.to_nat (sum_Z bs).
Proof.
  induction 1 as [|p b l bs Hp _ IH]; intros Hpos; simpl; [done|].
  apply Forall_cons in Hpos as [Hb Hpos].
  rewrite length_app, IH by done. unfold shape0, nrows in Hp. rewrite Hp.
  assert (0 ≤ sum_Z bs)%Z; [|unfold sum_Z in *; lia].
  clear -Hpos. induction Hpos; simpl; [done|]. unfold sum_Z in *. simpl. lia.
Qed.

(** On a packed input that satisfies the invariant, with a hidden state
    of one row for each sample (or none), [forward] returns. *)
Lemma RNN_forward_returns u a input_size (input : PackedSequence R) hidden :
  unit_shaped u input_size → act u = Some a →
  packed_invariant input → batch_sizes input ≠ [] →
  ncols (data (ps_data input)) = input_size →
  match hidden with
  | None => True
  | Some h => Z.of_nat (shape0 h) = batch_sizes input !!! 0 ∧
              ncols (data h) = hidden_size u
  end →
  ∃ trace ps final,
    TimeIterator_forward (mk_TimeIterator u) input hidden
      = (trace, Returns (ps, final)) ∧
    length trace = length (batch_sizes input) ∧
    shape0 (ps_data ps) = Z.to_nat (sum_Z (batch_sizes input)) ∧
    ncols (data (ps_data ps)) = hidden_size u ∧
    shape0 final = length (spec_order (batch_sizes input)) ∧
    ncols (data final) = hidden_size u.
Proof.
  intros Hu Hact Hinv Hne Hcols Hhid.
  pose proof (segments_shrinking input Hinv) as Hshr. rewrite Hcols in Hshr.
  pose proof (segments_shape input (packed_invariant_fit _ Hinv)) as Hshape.
  destruct (unroll_RNN_returns u a input_size hidden None _ Hu Hact Hshr)
    as (trace & l & Hunroll & Hlen & Hall).
  { clear -Hshape Hhid. revert Hshape Hhid.
    generalize (segments (ps_data input) (batch_sizes input)) (batch_sizes input).
    intros Xs0 bs0 Hshape Hhid.
    destruct Hshape as [|x b Xs bs [Hx _] _]; [done|].
    destruct hidden as [h|]; [|done]. destruct Hhid as [Hh Hhc].
    change ((b :: bs) !!! 0) with b in Hh.
    split; [lia|done]. }
  assert (Hll : length l = length (batch_sizes input)).
  { rewrite <- (Forall2_length _ _ _ Hall). apply length_segments. }
  (* the rows recorded at the selected timesteps *)
  destruct (rmapM_getitem_total (map snd l) (last_steps (batch_sizes input)))
    as (chosen & Hchosen & Hch).
  { apply Forall_forall. intros i Hi. apply last_steps_lt in Hi.
    rewrite length_map. lia. }
  assert (Hsingle : Forall (λ x : tensor, shape0 x = 1 ∧ ncols (data x) = hidden_size u)
                      chosen).
  { apply Forall_forall. intros c Hc.
    apply list_elem_of_lookup in Hc as [k Hk].
    destruct (Forall2_lookup_r _ _ _ _ _ Hch Hk) as (i & _ & Hi).
    rewrite list_lookup_fmap in Hi.
    destruct (l !! i) as [p|] eqn:Hp; [|done]. injection Hi as <-.
    destruct (Forall2_lookup_r _ _ _ _ _ Hall Hp) as (x & _ & _ & _ & Hp1 & Hp2).
    done. }
  destruct (tensor_cat_total (map fst l) (hidden_size u)) as (out & Hout & Hrows & Hoc).
  { intros Hnil. apply (f_equal length) in Hnil. rewrite length_map in Hnil.
    simpl in Hnil. destruct (batch_sizes input); [done|]. simpl in Hll. lia. }
  { apply Forall_forall. intros x Hx. apply list_elem_of_fmap in Hx as (p & -> & Hp).
    apply list_elem_of_lookup in Hp as [k Hk].
    by destruct (Forall2_lookup_r _ _ _ _ _ Hall Hk) as (x & _ & _ & Hc & _). }
  destruct (tensor_cat_total (reverse chosen) (hidden_size u))
    as (final & Hfinal & Hfrows & Hfc).
  { intros Hnil. apply (f_equal length) in Hnil.
    rewrite length_reverse in Hnil. simpl in Hnil.
    pose proof (Forall2_length _ _ _ Hch) as Hl.
    pose proof (last_steps_nonempty _ Hne) as Hls.
    destruct (last_steps (batch_sizes input)); [done|]. simpl in Hl. lia. }
  { apply Forall_forall. intros x Hx. rewrite elem_of_reverse in Hx.
    rewrite Forall_forall in Hsingle. by apply Hsingle. }
  exists trace, (mk_PackedSequence out (sorted_indices input) (batch_sizes input)), final.
  split_and!.
  - apply forward_returns. exists l. split; [done|].
    unfold finish, last_hidden_step_per_sample.
    rewrite target_hidden_step_indices_eq. simpl.
    rewrite Hchosen. simpl. rewrite Hout. simpl. by rewrite Hfinal.
  - rewrite Hlen. apply length_segments.
  - unfold shape0, nrows. simpl. rewrite Hrows.
    apply length_concat_counts; [|by destruct (packed_invariant_fit _ Hinv)].
    clear -Hall Hshape. revert Hshape Hall.
    generalize (segments (ps_data input) (batch_sizes input)) as Xs.
    generalize (batch_sizes input) as bs.
    intros bs Xs Hshape Hall. revert bs Hshape.
    induction Hall as [|x p Xs l (Hp & _) _ IH]; intros bs Hshape.
    + inv Hshape. constructor.
    + inv Hshape as [|? b ? bs' [Hx _] Hrest]. constructor; [congruence|by apply IH].
  - done.
  - unfold shape0, nrows. rewrite Hfrows, length_concat_single.
    + rewrite length_reverse, spec_order_eq, length_reverse.
      symmetry. apply (Forall2_length _ _ _ Hch).
    + apply Forall_forall. intros x Hx. rewrite elem_of_reverse in Hx.
      rewrite Forall_forall in Hsingle. by apply Hsingle.
  - done.
Qed.

(** On a packed input that satisfies the invariant the iterator over
    [RNNUnit] returns, and row [m] of the final hidden state is the row
    of index [batch_sizes[i] - 1] of the hidden state of the [m]-th
    selected timestep [i], the last timestep of the sample in that
    row. *)
Lemma RNN_final_rows u a input_size (input : PackedSequence R) hidden :
  unit_shaped u input_size → act u = Some a →
  packed_invariant input → batch_sizes input ≠ [] →
  ncols (data (ps_data input)) = input_size →
  match hidden with
  | None => True
  | Some h => Z.of_nat (shape0 h) = batch_sizes input !!! 0 ∧
              ncols (data h) = hidden_size u
  end →
  ∃ trace ps final,
    TimeIterator_forward (mk_TimeIterator u) input hidden
      = (trace, Returns (ps, final)) ∧
    length trace = length (batch_sizes input) ∧
    Forall2 (λ row i, ∃ c h,
               trace !! i = Some c ∧
               segments (ps_data input) (batch_sizes input) !! i = Some (call_x c) ∧
               call_outcome c = RNNUnit_forward u (PyTensor (call_x c)) (call_hidden c) ∧
               call_outcome c = Returns h ∧
               shape0 h = Z.to_nat (batch_sizes input !!! i) ∧
               rows (data h) !! (Z.to_nat (batch_sizes input !!! i) - 1) = Some row ∧
               sequence_length (batch_sizes input)
                 (Z.to_nat (batch_sizes input !!! i) - 1) = S i)
      (rows (data final)) (spec_order (batch_sizes input)).
Proof.
  intros Hu Hact Hinv Hne Hcols Hhid.
  destruct (RNN_forward_returns u a input_size input hidden Hu Hact Hinv Hne Hcols Hhid)
    as (trace & ps & final & Hf & _).
  exists trace, ps, final. split; [exact Hf|].
  apply forward_returns in Hf as (l & Hrun & Hfin). cbn [unit] in Hrun.
  destruct (final_rows_from_unroll (mk_TimeIterator u) input hidden trace l ps final
              Hrun Hfin) as [Hlen Hrows].
  split; [exact Hlen|].
  pose proof (segments_shrinking input Hinv) as Hshr. rewrite Hcols in Hshr.
  pose proof (segments_shape input (packed_invariant_fit _ Hinv)) as Hshape.
  destruct (unroll_RNN_returns u a input_size hidden None _ Hu Hact Hshr)
    as (trace2 & l2 & Hrun2 & _ & Hall).
  { clear -Hshape Hhid. revert Hshape Hhid.
    generalize (segments (ps_data input) (batch_sizes input)) (batch_sizes input).
    intros Xs0 bs0 Hshape Hhid.
    destruct Hshape as [|x b Xs bs [Hx _] _]; [done|].
    destruct hidden as [h|]; [|done]. destruct Hhid as [Hh Hhc].
    change ((b :: bs) !!! 0) with b in Hh.
    split; [lia|done]. }
  rewrite Hrun in Hrun2. injection Hrun2 as <- <-.
  destruct Hinv as (Hpos & Hsorted & _).
  apply Forall2_same_length_lookup_2; [by eapply Forall2_length|].
  intros m row i Hrow Hi.
  destruct (Forall2_lookup_lr _ _ _ _ _ _ Hrows Hrow Hi)
    as (c & p & Hc & Hp & Hx & Hcall & Hout & Hlast).
  destruct (Forall2_lookup_r _ _ _ _ _ Hall Hp) as (x & Hx' & Hpx & _).
  destruct (Forall2_lookup_l _ _ _ _ _ Hshape Hx') as (b & Hb & Hxb & _).
  rewrite (list_lookup_total_correct _ _ _ Hb).
  assert (Hrowsp : shape0 p.1 = Z.to_nat b) by congruence.
  exists c, p.1. split_and!; try done.
  - rewrite last_lookup in Hlast. unfold shape0, nrows in Hrowsp.
    rewrite Hrowsp in Hlast.
    by replace (Z.to_nat b - 1) with (pred (Z.to_nat b)) by lia.
  - rewrite <- (list_lookup_total_correct _ _ _ Hb).
    apply selected_sample_length; [done..|]. by eapply list_elem_of_lookup_2.
Qed.

(** C2.  The final hidden state is assembled as the spec's Step 3 says.
    For every unit, [TimeIterator.forward] returns [(ps, final)]
    exactly when the recurrence returns hidden states [hs], their
    concatenation is the data of [ps], and [final] is what Step 3
    assembles from them: record the last row of every
    [hidden_states[t]] as [exit_hidden[t]]; for each distinct value of
    [batch_sizes] take the last timestep at which it occurs; sort these
    ascending, reverse, index [exit_hidden] with them and concatenate.
    The timesteps so selected are strictly decreasing, and whenever
    [forward] returns there was one call of the unit for each timestep
    and row [m] of [final] is the last row of what the unit returned at
    the [m]-th of them.  Over [RNNUnit], on every packed input that
    satisfies the invariant of packed sequences, [forward] does return,
    and row [m] of [final] is the row of index [batch_sizes[i] - 1] of
    the hidden state the unit returned at the [m]-th selected timestep
    [i], which has [batch_sizes[i]] rows; the sample in that row
    (position [batch_sizes[i] - 1]) has [i + 1] timesteps, so that the
    rows come by descending sequence length. *)
Theorem C2_final_hidden_assembly {U : Type} `{BasicUnit R U} (self : TimeIterator U)
    (input : PackedSequence R) hidden :
  let bs := batch_sizes input in
  let X := segments (ps_data input) bs in
  (∀ trace ps final,
     TimeIterator_forward self input hidden = (trace, Returns (ps, final)) ↔
     ∃ s hs,
       recurrence self X hidden = (trace, Returns s) ∧
       hidden_states s = map PyTensor hs ∧
       tensor_cat hs = Returns (ps_data ps) ∧
       sorted_indices ps = sorted_indices input ∧
       batch_sizes ps = bs ∧
       spec_final_hidden hs bs = Returns final) ∧
  (∀ (hs : list tensor) (final : tensor),
     spec_final_hidden hs bs = Returns final →
     Forall2 (λ row i, ∃ h,
                hs !! i = Some h ∧ last (rows (data h)) = Some row ∧
                (shape0 h = Z.to_nat (bs !!! i) →
                 rows (data h) !! (Z.to_nat (bs !!! i) - 1) = Some row))
       (rows (data final)) (spec_order bs)) ∧
  StronglySorted gt (spec_order bs) ∧
  (non_increasing bs → Forall (λ b, (0 < b)%Z) bs →
   Forall (λ i, sequence_length bs (Z.to_nat (bs !!! i) - 1) = S i) (spec_order bs)) ∧
  (∀ trace ps final,
     TimeIterator_forward self input hidden = (trace, Returns (ps, final)) →
     length trace = length bs ∧
     Forall2 (λ row i, ∃ c h,
                trace !! i = Some c ∧
                X !! i = Some (call_x c) ∧
                call_outcome c
                  = unit_forward (unit self) (PyTensor (call_x c)) (call_hidden c) ∧
                call_outcome c = Returns h ∧
                last (rows (data h)) = Some row)
       (rows (data final)) (spec_order bs)) ∧
  (∀ (u : RNNUnit R) (a : Activation) (input_size : nat),
     unit_shaped u input_size → act u = Some a →
     packed_invariant input → bs ≠ [] →
     ncols (data (ps_data input)) = input_size →
     match hidden with
     | None => True
     | Some h => Z.of_nat (shape0 h) = bs !!! 0 ∧ ncols (data h) = hidden_size u
     end →
     ∃ trace ps final,
       TimeIterator_forward (mk_TimeIterator u) input hidden
         = (trace, Returns (ps, final)) ∧
       length trace = length bs ∧
       Forall2 (λ row i, ∃ c h,
                  trace !! i = Some c ∧
                  X !! i = Some (call_x c) ∧
                  call_outcome c
                    = RNNUnit_forward u (PyTensor (call_x c)) (call_hidden c) ∧
                  call_outcome c = Returns h ∧
                  shape0 h = Z.to_nat (bs !!! i) ∧
                  rows (data h) !! (Z.to_nat (bs !!! i) - 1) = Some row ∧
                  sequence_length bs (Z.to_nat (bs !!! i) - 1) = S i)
         (rows (data final)) (spec_order bs)).
Proof.
  intros bs X. subst X bs. split_and!.
  - intros trace ps final. apply forward_returns_spec.
  - intros hs final Hfinal. apply spec_final_hidden_rows in Hfinal.
    eapply Forall2_impl; [exact Hfinal|]. simpl.
    intros row i (h & Hh & Hlast). exists h. split; [done|]. split; [done|].
    intros Hrows. rewrite last_lookup in Hlast.
    unfold shape0, nrows in Hrows. rewrite Hrows in Hlast.
    by replace (Z.to_nat (batch_sizes input !!! i) - 1)
      with (pred (Z.to_nat (batch_sizes input !!! i))) by lia.
  - apply spec_order_descending.
  - intros Hsorted Hpos. apply Forall_forall. intros i Hi.
    by apply selected_sample_length.
  - intros trace ps final Hf. apply forward_returns in Hf as (l & Hrun & Hfin).
    destruct (final_rows_from_unroll self input hidden trace l ps final Hrun Hfin)
      as [Hlen Hrows].
    split; [exact Hlen|]. eapply Forall2_impl; [exact Hrows|]. simpl.
    intros row i (c & p & Hc & _ & Hx & Hcall & Hout & Hlast). by exists c, p.1.
  - intros u a input_size. apply RNN_final_rows.
Qed.

(** C3, as the code has it.  For [batch_sizes = [3,3,2,1]] (three
    samples, of 4, 3 and 2 timesteps) and data of 9 rows,
    [TimeIterator.forward] over an [RNNUnit] returns packed data of
    [sum(batch_sizes) = 9] rows and a final hidden state of exactly 3
    rows, one for each sample: the last rows of [hidden_states[3]],
    [hidden_states[2]] and [hidden_states[1]], which belong to the
    samples of 4, 3 and 2 timesteps, in this order. *)
Theorem C3_example_three_rows u (a : Activation) (input_size : nat)
    (dat : tensor) (si : list Z) (hidden : option tensor) :
  unit_shaped u input_size → act u = Some a →
  has_shape (data dat) 9 input_size →
  match hidden with
  | None => True
  | Some h => has_shape (data h) 3 (hidden_size u)
  end →
  let bs := [3; 3; 2; 1]%Z in
  ∃ trace ps final s hs,
    TimeIterator_forward (mk_TimeIterator u) (mk_PackedSequence dat si bs) hidden
      = (trace, Returns (ps, final)) ∧
    shape0 (ps_data ps) = 9 ∧
    shape0 final = 3 ∧
    recurrence (mk_TimeIterator u) (segments dat bs) hidden = (trace, Returns s) ∧
    hidden_states s = map PyTensor hs ∧
    Forall2 (λ row i, ∃ h, hs !! i = Some h ∧ last (rows (data h)) = Some row)
      (rows (data final)) [3; 2; 1] ∧
    map (λ i, sequence_length bs (Z.to_nat (bs !!! i) - 1)) [3; 2; 1] = [4; 3; 2].
Proof.
  intros Hu Hact (Hdr & Hdc & _) Hhid bs.
  destruct (RNN_forward_returns u a input_size (mk_PackedSequence dat si bs) hidden)
    as (trace & ps & final & Hf & _ & Hrows & _ & Hfin & _); try done.
  { split_and!.
    - unfold bs. repeat constructor.
    - unfold bs. repeat constructor; lia.
    - simpl. unfold shape0. rewrite Hdr. done. }
  { destruct hidden as [h|]; [|done]. destruct Hhid as (Hh & Hhc & _).
    simpl. unfold shape0. rewrite Hh. done. }
  pose proof Hf as Hf'.
  apply forward_returns_spec in Hf' as (s & hs & Hrec & Hhs & _ & _ & _ & Hspec).
  apply spec_final_hidden_rows in Hspec.
  exists trace, ps, final, s, hs. split_and!; try done.
Qed.
End RNNIteratorFacts.

(** ** Concrete runs *)

Example relu_unit_init : unit_of 1 1 "relu" = Returns relu_unit.
Proof. reflexivity. Qed.

Example py_slice_middle : py_slice [10; 11; 12; 13] 1 3 = [11; 12].
Proof. reflexivity. Qed.

Example py_slice_past_the_end : py_slice [10; 11; 12; 13] 3 9 = [13].
Proof. reflexivity. Qed.

Example py_slice_negative : py_slice [10; 11; 12; 13] (-3) (-1) = [11; 12].
Proof. reflexivity. Qed.

Example target_of_3321 :
  target_hidden_step_indices [3; 3; 2; 1]%Z = Returns [1; 2; 3].
Proof. reflexivity. Qed.

Example spec_order_of_3321 : spec_order [3; 3; 2; 1]%Z = [3; 2; 1].
Proof. reflexivity. Qed.

(** Two samples of two timesteps: one row is selected. *)
Example target_of_22 : target_hidden_step_indices [2; 2]%Z = Returns [1].
Proof. reflexivity. Qed.

(** [[2,3,1]]: the unit is called twice; the second call raises, the
    hidden state of 2 rows not fitting the segment of 3 rows. *)
Example forward_of_231 :
  let r := TimeIterator_forward relu_iterator
             (mk_PackedSequence (data_rows 6) [0; 1; 2]%Z [2; 3; 1]%Z) None in
  length r.1 = 2 ∧ r.2 = Raises ValueError.
Proof. split; reflexivity. Qed.

Example broadcast_bias :
  np_plus (mk_nparray [2; 3] [1; 2; 3; 4; 5; 6]%Z) (mk_nparray [3] [10; 20; 30]%Z)
  = Returns (mk_nparray [2; 3] [11; 22; 33; 14; 25; 36]%Z).
Proof. reflexivity. Qed.

Example broadcast_mismatch :
  np_plus (mk_nparray [2] [1; 2]%Z) (mk_nparray [3] [10; 20; 30]%Z)
  = Raises ValueError.
Proof. reflexivity. Qed.

Lemma C5_witness :
  ∃ y pre,
    RNNUnit_forward relu_unit (PyTensor (const_tensor [[1]; [2]]%Z 1))
      (Some (const_tensor [[3]; [4]]%Z 1)) = Returns y ∧
    spec_pre_arrays relu_unit (const_tensor [[1]; [2]]%Z 1) (const_tensor [[3]; [4]]%Z 1)
      = Returns pre ∧
    pre = tabulate 2 1 (spec_pre relu_unit (const_tensor [[1]; [2]]%Z 1)
                          (const_tensor [[3]; [4]]%Z 1)) ∧
    data y = np_map (act_fun ReLU) pre ∧
    has_shape (data y) 2 1.
Proof.
  apply (C5_forward_formula relu_unit ReLU _ _ 2 1).
  - intros [[rs c] rg lf ip] Ht. simpl in Ht.
    apply negb_false_iff, Nat.eqb_eq in Ht. unfold shape0, nrows in *. simpl in *.
    destruct rs; [reflexivity|discriminate].
  - repeat split; repeat constructor.
  - reflexivity.
  - repeat split; repeat constructor.
  - repeat split; repeat constructor.
Defined.

Lemma C6_witness :
  rmap data (RNNUnit_forward relu_unit (PyTensor (const_tensor [[1]; [2]]%Z 1)) None)
  = rmap data (RNNUnit_forward relu_unit (PyTensor (const_tensor [[1]; [2]]%Z 1))
                 (Some (Tensor_new (np_zeros 2 1) false false))).
Proof.
  apply (C6_zero_hidden_default relu_unit (const_tensor [[1]; [2]]%Z 1)
           (Tensor_new (np_zeros 2 1) false false)).
  reflexivity.
Defined.

Lemma C8_witness :
  ∃ u : RNNUnit sym,
    unit_of 3 2 "sigmoid" = Returns u ∧
    act u = None ∧
    (∀ (o : pyobj sym) hidden y, RNNUnit_forward u o hidden ≠ Returns y) ∧
    (∀ x hidden B,
       has_shape (data x) B 3 →
       match hidden with
       | None => True
       | Some h => has_shape (data h) B 2
       end →
       RNNUnit_forward u (PyTensor x) hidden = Raises AttributeError).
Proof.
  apply (C8_unknown_nonlinearity 3 2 "sigmoid"); discriminate.
Defined.

Lemma C1_witness :
  let input := mk_PackedSequence (data_rows 9) [0; 1; 2]%Z [3; 3; 2; 1]%Z in
  ∃ c c_prev hs_prev h,
    (TimeIterator_forward relu_iterator input None).1 !! 2 = Some c ∧
    (TimeIterator_forward relu_iterator input None).1 !! 1 = Some c_prev ∧
    call_outcome c_prev = Returns hs_prev ∧
    call_hidden c = Some h ∧
    rows (data h) = take 2 (rows (data hs_prev)).
Proof.
  intros input.
  destruct ((TimeIterator_forward relu_iterator input None).1 !! 2) as [c|] eqn:Hc;
    [|vm_compute in Hc; discriminate].
  assert (Hfit : segments_fit input).
  { split; [repeat constructor; lia|]. vm_compute. discriminate. }
  destruct (C1_previous_hidden_truncation relu_iterator input None 2 c
              ltac:(lia) Hc)
    as (c_prev & hs_prev & h & H1 & H2 & _ & _ & H3 & _ & _ & _ & H5 & _).
  destruct (H5 Hfit) as (_ & _ & H6).
  exists c, c_prev, hs_prev, h. split; [reflexivity|].
  split; [exact H1|]. split; [exact H2|]. split; [exact H3|exact H6].
Defined.

Lemma C2_witness :
  let bs := [3; 3; 2; 1]%Z in
  let input := mk_PackedSequence (data_rows 9) [0; 1; 2]%Z bs in
  ∃ trace ps final,
    TimeIterator_forward relu_iterator input None = (trace, Returns (ps, final)) ∧
    length trace = 4 ∧
    Forall2 (λ row i, ∃ c h,
               trace !! i = Some c ∧
               segments (data_rows 9) bs !! i = Some (call_x c) ∧
               call_outcome c
                 = RNNUnit_forward relu_unit (PyTensor (call_x c)) (call_hidden c) ∧
               call_outcome c = Returns h ∧
               shape0 h = Z.to_nat (bs !!! i) ∧
               rows (data h) !! (Z.to_nat (bs !!! i) - 1) = Some row ∧
               sequence_length bs (Z.to_nat (bs !!! i) - 1) = S i)
      (rows (data final)) [3; 2; 1].
Proof.
  intros bs input.
  destruct (C2_final_hidden_assembly relu_iterator input None)
    as (_ & _ & _ & _ & _ & Hruns).
  apply (Hruns relu_unit ReLU 1).
  - repeat split; repeat constructor.
  - reflexivity.
  - split; [unfold bs; repeat constructor; lia|]. split; [|reflexivity].
    unfold bs. repeat constructor; lia.
  - discriminate.
  - reflexivity.
  - exact I.
Defined.

Lemma C9_witness :
  let input := mk_PackedSequence (data_rows 9) [0; 1; 2]%Z [3; 3; 2; 1]%Z in
  ∃ trace ps final,
    TimeIterator_forward relu_iterator input None = (trace, Returns (ps, final)) ∧
    sorted_indices ps = [0; 1; 2]%Z ∧
    batch_sizes ps = [3; 3; 2; 1]%Z.
Proof.
  intros input.
  destruct (TimeIterator_forward relu_iterator input None)
    as [trace [[ps final]|e]] eqn:Hf; [|vm_compute in Hf; discriminate].
  destruct (C9_output_packed_sequence relu_iterator input None trace ps final Hf)
    as (Hsi & Hbs & _).
  exists trace, ps, final. split; [reflexivity|]. split; [exact Hsi|exact Hbs].
Defined.

Lemma C7_witness :
  let input := mk_PackedSequence (data_rows 6) [0; 1; 2]%Z [2; 3; 1]%Z in
  ∃ c rest,
    (TimeIterator_forward relu_iterator input None).1 = c :: rest ∧
    call_x c = tensor_slice (data_rows 6) 0 2 ∧
    call_hidden c = None.
Proof.
  intros input.
  apply (C7_no_validation relu_iterator input None). discriminate.
Defined.

(** C7 fails on the code.  None of the three kinds of malformed
    [batch_sizes] is rejected before the unit is called: [[1,3,1]]
    (which increases) and [[2,1]] on data of 9 rows (a sum that is not
    the number of rows) make [forward] return, and with [[2,0]] (a zero
    entry) the unit is called twice before an index error is raised. *)
Lemma C7_counterexample :
  let increasing := mk_PackedSequence (data_rows 5) [0; 1; 2]%Z [1; 3; 1]%Z in
  let short_sum := mk_PackedSequence (data_rows 9) [0; 1]%Z [2; 1]%Z in
  let zero_entry := mk_PackedSequence (data_rows 2) [0; 1]%Z [2; 0]%Z in
  (malformed increasing ∧
   ∃ trace ps final,
     TimeIterator_forward relu_iterator increasing None = (trace, Returns (ps, final)) ∧
     length trace = 3) ∧
  (malformed short_sum ∧
   ∃ trace ps final,
     TimeIterator_forward relu_iterator short_sum None = (trace, Returns (ps, final)) ∧
     length trace = 2 ∧ shape0 (ps_data ps) = 3) ∧
  (malformed zero_entry ∧
   ∃ trace,
     TimeIterator_forward relu_iterator zero_entry None = (trace, Raises IndexError) ∧
     length trace = 2) ∧
  ¬ rejects_malformed relu_iterator.
Proof.
  intros increasing short_sum zero_entry.
  assert (Hinc : malformed increasing).
  { left. intros Hs. apply StronglySorted_inv in Hs as [_ Hall].
    apply Forall_cons in Hall as [Hle _]. lia. }
  refine (conj _ (conj _ (conj _ _))).
  - split; [exact Hinc|]. eexists _, _, _. split; [vm_compute; reflexivity|done].
  - split; [right; right; vm_compute; discriminate|].
    eexists _, _, _. split; [vm_compute; reflexivity|done].
  - split; [right; left; set_solver|].
    eexists. split; [vm_compute; reflexivity|done].
  - intros Hrej.
    assert (Hshort : malformed short_sum) by (right; right; vm_compute; discriminate).
    destruct (Hrej short_sum None Hshort) as [e He].
    vm_compute in He. discriminate.
Qed.

(** C3 fails on the code: for [batch_sizes = [3,3,2,1]] the final
    hidden state has 3 rows, not 4. *)
Lemma C3_counterexample :
  let input := mk_PackedSequence (data_rows 9) [0; 1; 2]%Z [3; 3; 2; 1]%Z in
  ∃ trace ps final,
    TimeIterator_forward relu_iterator input None = (trace, Returns (ps, final)) ∧
    shape0 (ps_data ps) = 9 ∧
    shape0 final = 3 ∧
    shape0 final ≠ 4.
Proof.
  intros input. eexists _, _, _. split; [vm_compute; reflexivity|].
  split; [done|]. split; [done|]. discriminate.
Qed.

Lemma C3_witness :
  let bs := [3; 3; 2; 1]%Z in
  ∃ trace ps final s hs,
    TimeIterator_forward relu_iterator (mk_PackedSequence (data_rows 9) [0; 1; 2]%Z bs) None
      = (trace, Returns (ps, final)) ∧
    shape0 (ps_data ps) = 9 ∧
    shape0 final = 3 ∧
    recurrence relu_iterator (segments (data_rows 9) bs) None = (trace, Returns s) ∧
    hidden_states s = map PyTensor hs ∧
    Forall2 (λ row i, ∃ h, hs !! i = Some h ∧ last (rows (data h)) = Some row)
      (rows (data final)) [3; 2; 1] ∧
    map (λ i, sequence_length bs (Z.to_nat (bs !!! i) - 1)) [3; 2; 1] = [4; 3; 2].
Proof.
  apply (C3_example_three_rows relu_unit ReLU 1 (data_rows 9) [0; 1; 2]%Z None).
  - repeat split; repeat constructor.
  - reflexivity.
  - repeat split; repeat constructor.
  - exact I.
Defined.

(** C4 on a batch of two samples of one timestep: there is one call,
    with the hidden state given, and one hidden state, of 2 rows; the
    final hidden state returned has 1 row, the last row of that hidden
    state, and is not that hidden state. *)
Theorem C4_single_timestep_two_samples :
  let input := mk_PackedSequence (data_rows 2) [0; 1]%Z [2]%Z in
  ∃ c ps final hs,
    TimeIterator_forward relu_iterator input None = ([c], Returns (ps, final)) ∧
    call_x c = data_rows 2 ∧ call_hidden c = None ∧ call_outcome c = Returns hs ∧
    (recurrence relu_iterator (segments (data_rows 2) [2]%Z) None).2
      = Returns (mk_rec [PyTensor hs] [final]) ∧
    shape0 hs = 2 ∧
    shape0 final = 1 ∧
    rows (data final) = drop 1 (rows (data hs)) ∧
    data final ≠ data hs.
Proof.
  intros input. eexists _, _, _, _. split; [vm_compute; reflexivity|].
  split_and!; try reflexivity. discriminate.
Qed.

(** ** Arrays of any rank *)

Section NPArrayFacts.
Context {R : Type} `{Scalar R}.
Implicit Types (a b : nparray R) (s : list nat).

Lemma pad_shape_same s : pad_shape (length s `max` length s) s = s.
Proof. unfold pad_shape. by rewrite Nat.max_id, Nat.sub_diag. Qed.

Lemma broadcast_dims_same s : broadcast_dims s s = Some s.
Proof.
  induction s as [|d s IH]; simpl; [done|]. by rewrite bcast_dim_same, IH.
Qed.

Lemma ravel_unravel s k : k < size s → ravel_bcast s (unravel s k) = k.
Proof.
  revert k. induction s as [|d s IH]; intros k Hk; simpl in *; [lia|].
  assert (Hp : size s ≠ 0) by (intros Hz; rewrite Hz in Hk; lia).
  rewrite IH by (by apply Nat.mod_upper_bound).
  assert (Hq : k / size s < d).
  { apply Nat.Div0.div_lt_upper_bound. lia. }
  rewrite bcast_idx_lt by done.
  rewrite (Nat.div_mod k (size s)) at 3 by done. lia.
Qed.

Lemma map_nth_zip (op : R → R → R) (l1 l2 : list R) (z : R) :
  length l1 = length l2 →
  map (λ k, op (nth k l1 z) (nth k l2 z)) (seq 0 (length l1)) = zip_with op l1 l2.
Proof.
  revert l2. induction l1 as [|x l1 IH]; intros [|y l2] Hlen; simplify_eq/=; [done|].
  f_equal. rewrite <- seq_shift, map_map. by apply IH.
Qed.

(** Operands of one shape are combined element by element. *)
Lemma np_elementwise_same (op : R → R → R) a b :
  shape a = shape b → wf_nparray a → wf_nparray b →
  np_elementwise op a b = Returns (mk_nparray (shape a) (zip_with op (flat a) (flat b))).
Proof.
  intros Hs Ha Hb. unfold np_elementwise. rewrite <- Hs.
  rewrite pad_shape_same, broadcast_dims_same. do 2 f_equal.
  unfold wf_nparray in *. rewrite <- Hs in Hb.
  rewrite <- (map_nth_zip op (flat a) (flat b) s_zero) by congruence.
  rewrite Ha. apply map_ext_in. intros k Hk. apply in_seq in Hk.
  cbn zeta. by rewrite ravel_unravel by lia.
Qed.

Lemma np_elementwise_same_wf (op : R → R → R) a b c :
  shape a = shape b → wf_nparray a → wf_nparray b →
  np_elementwise op a b = Returns c → shape c = shape a ∧ wf_nparray c.
Proof.
  intros Hs Ha Hb. rewrite np_elementwise_same by done. intros [= <-].
  split; [done|]. unfold wf_nparray in *. simpl.
  rewrite length_zip_with, Ha, Hb, Hs. lia.
Qed.

Lemma np_scale_wf (c : R) a : wf_nparray a → wf_nparray (np_scale c a).
Proof. unfold wf_nparray. simpl. by rewrite length_map. Qed.

Lemma np_zeros_shape_wf s : wf_nparray (np_zeros_shape (R := R) s).
Proof. unfold wf_nparray. simpl. by rewrite length_replicate. Qed.
End NPArrayFacts.

(** ** [SGD.step] *)

Section SGDFacts.
Context {R : Type} `{Scalar R}.
Implicit Types (st : sgd_state R) (idx : nat).

Lemma step_body_returns idx st st' :
  step_body idx st = (st', Returns ()) ↔ updates_index idx st st'.
Proof.
  unfold step_body, updates_index, sbind, sget, slift, sput, params_at, getitem,
    setitem, grad_data.
  destruct st as [sto [ps l mu ms]]. cbn [store self params lr momentum momentums].
  split.
  - destruct (ms !! idx) as [m|] eqn:Hm; [|done].
    destruct (ps !! idx) as [t|] eqn:Ht; [|done]. cbn [rbind].
    destruct (sto !! t) as [o|] eqn:Ho; [|done]. cbn [fst snd].
    destruct (param_grad o) as [g|] eqn:Hg; [|done].
    destruct (np_minus _ _) as [m'|] eqn:Hm'; [|done].
    destruct (decide (idx < length ms)) as [Hlt|Hn].
    2:{ apply lookup_lt_Some in Hm. lia. }
    cbn [store self params lr momentum momentums].
    rewrite list_lookup_insert_eq by done.
    destruct (np_plus (param_data o) m') as [d|] eqn:Hd; [|done].
    intros [= <-]. by exists m, t, o, g, m', d.
  - intros (m & t & o & g & m' & d & Hm & Ht & Ho & Hg & Hm' & Hd & ->).
    rewrite Hm, Ht. cbn [rbind]. rewrite Ho. cbn [fst snd]. rewrite Hg, Hm'.
    destruct (decide (idx < length ms)) as [Hlt|Hn].
    2:{ apply lookup_lt_Some in Hm. lia. }
    cbn [store self params lr momentum momentums].
    rewrite list_lookup_insert_eq by done. by rewrite Hd.
Qed.

Lemma for_idx_cons_returns i idxs (body : nat → stateful R ()) st st' :
  for_idx (i :: idxs) body st = (st', Returns ()) ↔
  ∃ st1, body i st = (st1, Returns ()) ∧ for_idx idxs body st1 = (st', Returns ()).
Proof.
  cbn [for_idx]. unfold sbind. split.
  - destruct (body i st) as [st1 [[]|e]]; [|done]. intros Hrest. by exists st1.
  - intros (st1 & Hb & Hrest). by rewrite Hb.
Qed.

Lemma step_loop k n st st' :
  NoDup (params (self st)) →
  for_idx (seq k n) step_body st = (st', Returns ()) →
  updates_range k n st st'.
Proof.
  revert k st. induction n as [|n IH]; intros k st Hnd.
  - simpl. intros [= <-]. unfold updates_range. split_and!; try done. lia.
  - cbn [seq]. rewrite for_idx_cons_returns. intros (st1 & Hbody & Hrest).
    apply step_body_returns in Hbody
      as (m & t & o & g & m' & d & Hm & Ht & Ho & Hg & Hm' & Hd & ->).
    apply IH in Hrest; [|done].
    destruct Hrest as (Hps & Hlr & Hmu & Hlen & Hout & Hsto & Hin).
    cbn [store self params lr momentum momentums] in *.
    assert (Hk : k < length (momentums (self st))) by (by eapply lookup_lt_Some).
    unfold updates_range. split_and!; try done.
    + by rewrite Hlen, length_insert.
    + intros i Hi. rewrite Hout by lia. apply list_lookup_insert_ne. lia.
    + intros t' Ht'. rewrite Hsto.
      * apply lookup_insert_ne. intros <-. apply (Ht' k); [lia|done].
      * intros i Hi. apply Ht'. lia.
    + intros i Hi. destruct (decide (i = k)) as [->|Hne].
      * exists m, t, o, g, m', d. split_and!; try done.
        -- rewrite Hout by lia. by apply list_lookup_insert_eq.
        -- rewrite Hsto; [by rewrite lookup_insert_eq|].
           intros i Hi' Hti. assert (i = k); [|lia].
           by apply (NoDup_lookup _ _ _ _ Hnd Hti Ht).
      * destruct (Hin i) as (mi & ti & oi & gi & mi' & di & Hmi & Hti & Hoi & Hrest);
          [lia|].
        assert (Htne : t ≠ ti).
        { intros <-. apply Hne. by apply (NoDup_lookup _ _ _ _ Hnd Hti Ht). }
        rewrite list_lookup_insert_ne in Hmi by lia.
        rewrite lookup_insert_ne in Hoi by done.
        by exists mi, ti, oi, gi, mi', di.
Qed.

(** When the parameters are ready the loop raises nothing. *)
Lemma step_loop_total k n st :
  NoDup (params (self st)) →
  (∀ i, k ≤ i < k + n → index_ready st i) →
  ∃ st', for_idx (seq k n) step_body st = (st', Returns ()).
Proof.
  revert k st. induction n as [|n IH]; intros k st Hnd Hready.
  - by eexists.
  - destruct (Hready k) as (t & o & g & m & Ht & Ho & Hg & Hm & Hwo & Hwg & Hwm & Hsg & Hsm);
      [lia|].
    set (m' := mk_nparray (shape (np_scale (momentum (self st)) m))
                 (zip_with s_sub (flat (np_scale (momentum (self st)) m))
                    (flat (np_scale (lr (self st)) g)))).
    assert (Hminus : np_minus (np_scale (momentum (self st)) m)
                       (np_scale (lr (self st)) g) = Returns m').
    { unfold np_minus. apply np_elementwise_same;
        [simpl; congruence|by apply np_scale_wf..]. }
    assert (Hplus : ∃ d, np_plus (param_data o) m' = Returns d).
    { unfold np_plus. rewrite np_elementwise_same; [by eexists|simpl; congruence|done|].
      unfold wf_nparray, m'. simpl. rewrite length_zip_with, !length_map.
      unfold wf_nparray in *. rewrite Hwm, Hwg, Hsg, Hsm. lia. }
    destruct Hplus as [d Hd].
    set (st1 := mk_state (<[t := mk_param d (Some g)]> (store st))
                  (mk_SGD (params (self st)) (lr (self st)) (momentum (self st))
                     (<[k := m']> (momentums (self st))))).
    assert (Hbody : step_body k st = (st1, Returns ())).
    { apply step_body_returns. by exists m, t, o, g, m', d. }
    destruct (IH (S k) st1) as [st' Hrest]; [done| |].
    { intros i Hi.
      destruct (Hready i) as (ti & oi & gi & mi & Hti & Hoi & Hrest); [lia|].
      exists ti, oi, gi, mi. unfold st1. cbn [store self params momentums].
      split; [done|]. split.
      - rewrite lookup_insert_ne; [done|]. intros <-.
        assert (i = k); [|lia]. by apply (NoDup_lookup _ _ _ _ Hnd Hti Ht).
      - destruct Hrest as (? & ? & ?). split; [done|].
        rewrite list_lookup_insert_ne by lia. done. }
    exists st'. cbn [seq]. apply for_idx_cons_returns. by exists st1.
Qed.

(** The two assignments on arrays of one shape, element by element. *)
Lemma ready_update (mu eta : R) (p g m m' d : nparray R) :
  wf_nparray p → wf_nparray g → wf_nparray m →
  shape g = shape p → shape m = shape p →
  np_minus (np_scale mu m) (np_scale eta g) = Returns m' →
  np_plus p m' = Returns d →
  shape m' = shape m ∧
  flat m' = zip_with (λ mi gi, s_sub (s_mul mu mi) (s_mul eta gi)) (flat m) (flat g) ∧
  wf_nparray m' ∧
  shape d = shape p ∧
  flat d = zip_with s_add (flat p) (flat m') ∧
  wf_nparray d.
Proof.
  intros Hwp Hwg Hwm Hsg Hsm Hminus Hplus.
  assert (Hs1 : shape (np_scale mu m) = shape (np_scale eta g))
    by (simpl; congruence).
  unfold np_minus in Hminus.
  destruct (np_elementwise_same_wf s_sub (np_scale mu m) (np_scale eta g) m'
              Hs1 (np_scale_wf mu m Hwm) (np_scale_wf eta g Hwg) Hminus)
    as [Hsm' Hwm'].
  rewrite np_elementwise_same in Hminus by (try done; by apply np_scale_wf).
  injection Hminus as <-. simpl in Hsm'.
  assert (Hs2 : shape p = shape (mk_nparray (shape m)
                  (zip_with s_sub (map (s_mul mu) (flat m)) (map (s_mul eta) (flat g)))))
    by (simpl; congruence).
  unfold np_plus in Hplus.
  destruct (np_elementwise_same_wf s_add p _ d Hs2 Hwp Hwm' Hplus) as [Hsd Hwd].
  rewrite np_elementwise_same in Hplus by done.
  injection Hplus as <-.
  split_and!; try done.
  simpl. by rewrite zip_with_fmap_l, zip_with_fmap_r.
Qed.


(** A freshly built optimizer is ready: its velocities are zero arrays
    of the shapes of the parameters. *)
Lemma SGD_init_ready st (refs : list nat) (eta mu : R) :
  NoDup refs →
  (∀ t, t ∈ refs →
     ∃ o g, store st !! t = Some o ∧ param_grad o = Some g ∧
            wf_nparray (param_data o) ∧ wf_nparray g ∧
            shape g = shape (param_data o)) →
  ∃ st',
    SGD_init refs eta mu st = (st', Returns ()) ∧
    store st' = store st ∧
    self st' = mk_SGD refs eta mu
                 (map (λ t, match store st !! t with
                            | Some o => np_zeros_shape (shape (param_data o))
                            | None => np_zeros_shape []
                            end) refs) ∧
    sgd_ready st'.
Proof.
  intros Hnd Hall. unfold SGD_init, sbind, sget, slift, sput.
  assert (Hshapes :
    rmapM (λ t, match store st !! t with
                | Some p => Returns (shape (param_data p))
                | None => Raises (Exception "no such object")
                end) refs
    = Returns (map (λ t, match store st !! t with
                         | Some o => shape (param_data o)
                         | None => []
                         end) refs)).
  { apply rmapM_total. apply Forall_forall. intros t Ht.
    destruct (Hall t Ht) as (o & g & Ho & _). by rewrite Ho. }
  rewrite Hshapes. eexists. split; [reflexivity|]. cbn [store self].
  split; [done|]. split.
  { f_equal. rewrite map_map. apply map_ext_in. intros t Ht.
    apply list_elem_of_In in Ht. destruct (Hall t Ht) as (o & g & Ho & _).
    by rewrite Ho. }
  split; [done|]. cbn [self params momentums store].
  split; [by rewrite !length_map|].
  intros idx Hidx. destruct (lookup_lt_is_Some_2 refs idx Hidx) as [t Ht].
  destruct (Hall t (list_elem_of_lookup_2 _ _ _ Ht)) as (o & g & Ho & Hg & Hwo & Hwg & Hsg).
  exists t, o, g, (np_zeros_shape (shape (param_data o))).
  split_and!; try done.
  - cbn [self momentums]. rewrite map_map.
    rewrite list_lookup_fmap, Ht. simpl. by rewrite Ho.
  - apply np_zeros_shape_wf.
Qed.

End SGDFacts.



(** * Further properties of the code *)

(** ** The segments of [TimeIterator.forward] *)

Section SegmentFacts.
Context {R : Type} `{Scalar R} {U : Type} `{BasicUnit R U}.
Local Abbreviation tensor := (Tensor (ndarray R)).
Implicit Types (bs : list Z) (self : TimeIterator U).

Lemma sum_Z_nonneg bs : Forall (λ b, (0 ≤ b)%Z) bs → (0 ≤ sum_Z bs)%Z.
Proof. induction 1; unfold sum_Z in *; simpl; lia. Qed.

Lemma cut_concat (dat : tensor) s bs :
  (0 ≤ s)%Z → Forall (λ b, (0 ≤ b)%Z) bs →
  (s + sum_Z bs ≤ Z.of_nat (shape0 dat))%Z →
  concat (map (λ x : tensor, rows (data x)) (cut dat s bs))
  = take (Z.to_nat (sum_Z bs)) (drop (Z.to_nat s) (rows (data dat))).
Proof.
  intros Hs Hbs. revert s Hs. induction Hbs as [|b bs Hb Hbs IH]; intros s Hs Hsum.
  - done.
  - pose proof (sum_Z_nonneg bs Hbs) as Hnn.
    change (sum_Z (b :: bs)) with (b + sum_Z bs)%Z in *.
    cbn [cut map concat]. rewrite IH by lia.
    cbn [tensor_slice op_output data np_slice rows].
    rewrite py_slice_counted by (unfold shape0, nrows in Hsum; lia).
    rewrite !Z2Nat.inj_add by lia.
    rewrite <- drop_drop.
    generalize (drop (Z.to_nat s) (rows (data dat))) as l. intros l.
    by rewrite take_take_drop.
Qed.

(** X1.  The first loop of [TimeIterator.forward] (lines 126-134) cuts the
    data into consecutive pieces: on [batch_sizes] that are counts
    covered by the rows of the data, segment [t] has [batch_sizes[t]]
    rows and the columns of the data, and the segments, one after the
    other, are the first [sum(batch_sizes)] rows of the data, all of
    them when the sum is the number of rows. *)
Theorem segments_partition (input : PackedSequence R) :
  segments_fit input →
  let X := segments (ps_data input) (batch_sizes input) in
  Forall2 (λ x b, shape0 x = Z.to_nat b ∧
                  ncols (data x) = ncols (data (ps_data input)))
    X (batch_sizes input) ∧
  concat (map (λ x : tensor, rows (data x)) X)
    = take (Z.to_nat (sum_Z (batch_sizes input))) (rows (data (ps_data input))) ∧
  (sum_Z (batch_sizes input) = Z.of_nat (shape0 (ps_data input)) →
   concat (map (λ x : tensor, rows (data x)) X) = rows (data (ps_data input))).
Proof.
  intros Hfit X. subst X. split; [by apply segments_shape|].
  destruct Hfit as [Hbs Hsum].
  assert (Hcat : concat (map (λ x : tensor, rows (data x))
                   (segments (ps_data input) (batch_sizes input)))
                 = take (Z.to_nat (sum_Z (batch_sizes input)))
                     (rows (data (ps_data input)))).
  { rewrite segments_cut, cut_concat by (try done; lia). by rewrite drop_0. }
  split; [exact Hcat|].
  intros Heq. rewrite Hcat, Heq, Nat2Z.id. apply take_ge. unfold shape0, nrows. lia.
Qed.

Lemma cut_appended (dat : tensor) (extra : list (list R)) s bs :
  (0 ≤ s)%Z → Forall (λ b, (0 ≤ b)%Z) bs →
  (s + sum_Z bs ≤ Z.of_nat (shape0 dat))%Z →
  cut (mk_Tensor (mk_ndarray (rows (data dat) ++ extra) (ncols (data dat)))
         (requires_grad dat) (is_leaf dat) (is_parameter dat)) s bs
  = cut dat s bs.
Proof.
  intros Hs Hbs. revert s Hs. induction Hbs as [|b bs Hb Hbs IH]; intros s Hs Hsum.
  - done.
  - pose proof (sum_Z_nonneg bs Hbs) as Hnn.
    change (sum_Z (b :: bs)) with (b + sum_Z bs)%Z in *.
    cbn [cut]. rewrite IH by lia. f_equal.
    unfold tensor_slice, np_slice. cbn [data rows ncols requires_grad].
    unfold shape0, nrows in Hsum.
    rewrite !py_slice_counted by (rewrite ?length_app; lia).
    rewrite drop_app_le by lia. by rewrite take_app_le by (rewrite length_drop; lia).
Qed.

(** X2.  Rows of the data past those that [batch_sizes] counts are never
    read: appending rows to the data of a packed input changes neither
    the calls [TimeIterator.forward] makes nor what it returns or
    raises. *)
Theorem trailing_rows_ignored self (dat : tensor) (si bs : list Z)
    (hidden : option tensor) (extra : list (list R)) :
  segments_fit (mk_PackedSequence dat si bs) →
  TimeIterator_forward self
    (mk_PackedSequence
       (mk_Tensor (mk_ndarray (rows (data dat) ++ extra) (ncols (data dat)))
          (requires_grad dat) (is_leaf dat) (is_parameter dat)) si bs) hidden
  = TimeIterator_forward self (mk_PackedSequence dat si bs) hidden.
Proof.
  intros [Hbs Hsum]. simpl in Hbs, Hsum.
  rewrite !forward_unroll. cbn [ps_data batch_sizes sorted_indices].
  rewrite !segments_cut. by rewrite cut_appended by (try done; lia).
Qed.
End SegmentFacts.

(** ** Calls and exceptions of [TimeIterator.forward] *)

Section ForwardFacts.
Context {R : Type} `{Scalar R} {U : Type} `{BasicUnit R U}.
Local Abbreviation tensor := (Tensor (ndarray R)).
Implicit Types (bs : list Z) (self : TimeIterator U) (Xs : list tensor).

Lemma unroll_trace_prefix (u : U) hidden Xs prev trace res :
  unroll u hidden prev Xs = (trace, res) →
  length trace ≤ length Xs ∧
  ∀ t c, trace !! t = Some c → S t < length trace →
    ∃ hs, call_outcome c = Returns hs ∧ rows (data hs) ≠ [].
Proof.
  revert prev trace res. induction Xs as [|x Xs IH]; intros prev trace res.
  - simpl. intros [= <- <-]. split; [done|]. by intros t c.
  - rewrite unroll_cons. cbn zeta.
    set (hp := match prev with None => hidden | Some p => _ end).
    destruct (unit_forward u (PyTensor x) hp) as [hs|e] eqn:Hcall.
    2:{ intros [= <- <-]. simpl. split; [lia|]. intros t c _ Ht. lia. }
    destruct (tensor_last_row hs) as [l|e] eqn:Hlast.
    2:{ intros [= <- <-]. simpl. split; [lia|]. intros t c _ Ht. lia. }
    destruct (unroll u hidden (Some hs) Xs) as [t' r'] eqn:Hrest.
    destruct (IH _ _ _ Hrest) as [Hlen Hpre].
    simpl. intros [= <- <-]. simpl. split; [lia|].
    intros [|t] c Hc Ht; simpl in *.
    + injection Hc as <-. exists hs. split; [done|].
      apply tensor_last_row_returns in Hlast as (row & Hrow & _).
      intros Hnil. by rewrite Hnil in Hrow.
    + apply (Hpre t c Hc). lia.
Qed.

Lemma unroll_raises (u : U) hidden Xs prev trace e :
  unroll u hidden prev Xs = (trace, Raises e) →
  ∃ c, last trace = Some c ∧
       (call_outcome c = Raises e ∨
        ∃ hs, call_outcome c = Returns hs ∧ rows (data hs) = [] ∧ e = IndexError).
Proof.
  revert prev trace. induction Xs as [|x Xs IH]; intros prev trace.
  - simpl. by intros [= <-].
  - rewrite unroll_cons. cbn zeta.
    set (hp := match prev with None => hidden | Some p => _ end).
    destruct (unit_forward u (PyTensor x) hp) as [hs|e'] eqn:Hcall.
    2:{ intros [= <- <-]. eexists. split; [done|]. by left. }
    destruct (tensor_last_row hs) as [l|e'] eqn:Hlast.
    2:{ intros [= <- <-]. eexists. split; [done|]. right. exists hs.
        split; [done|]. unfold tensor_last_row, np_last_row in Hlast.
        destruct (last (rows (data hs))) as [row|] eqn:Hrow; [done|].
        apply last_None in Hrow. simpl in Hlast. by injection Hlast as <-. }
    destruct (unroll u hidden (Some hs) Xs) as [t' r'] eqn:Hrest.
    destruct r' as [rest|e']; [done|]. simpl. intros [= <- <-].
    destruct (IH _ _ Hrest) as (c & Hc & Hout).
    exists c. split; [|done].
    destruct t' as [|c' t'']; [done|]. by rewrite last_cons, Hc.
Qed.

Lemma tensor_cat_raises (l : list tensor) e :
  tensor_cat l = Raises e → e = ValueError.
Proof.
  unfold tensor_cat, np_concatenate. destruct (map data l) as [|a l']; simpl.
  - by intros [= <-].
  - destruct (forallb _ _); simpl; [done|]. by intros [= <-].
Qed.

(** After a recurrence that returned, only a concatenation can fail. *)
Lemma finish_raises (l : list (tensor * tensor)) si bs e :
  length l = length bs →
  finish l si bs = Raises e → e = ValueError.
Proof.
  intros Hlen. unfold finish, last_hidden_step_per_sample.
  rewrite target_hidden_step_indices_eq. simpl.
  destruct (rmapM_getitem_total (map snd l) (last_steps bs)) as (chosen & -> & _).
  { apply Forall_forall. intros i Hi. apply last_steps_lt in Hi.
    rewrite length_map. lia. }
  simpl. destruct (tensor_cat (map fst l)) as [out|e'] eqn:Hout; simpl.
  - destruct (tensor_cat (reverse chosen)) as [final|e'] eqn:Hfin; simpl; [done|].
    intros [= <-]. by eapply tensor_cat_raises.
  - intros [= <-]. by eapply tensor_cat_raises.
Qed.

(** X3.  Where an exception of [TimeIterator.forward] comes from.  Either the
    unit raised it, in the last call made; or the last call returned a
    tensor without rows, of which [hidden_state[None, -1, :]] is an
    index error; or every timestep was processed and a concatenation
    failed.  In particular the placeholders [0] of [hidden_states] are
    never indexed or concatenated, and [sorted] never compares a
    [None]. *)
Theorem forward_raises_provenance self (input : PackedSequence R) hidden trace e :
  TimeIterator_forward self input hidden = (trace, Raises e) →
  (∃ c, last trace = Some c ∧ call_outcome c = Raises e) ∨
  (∃ c hs, last trace = Some c ∧ call_outcome c = Returns hs ∧
           shape0 hs = 0 ∧ e = IndexError) ∨
  (e = ValueError ∧ length trace = length (batch_sizes input) ∧
   Forall (λ c, ∃ hs, call_outcome c = Returns hs ∧ 1 ≤ shape0 hs) trace).
Proof.
  rewrite forward_unroll.
  destruct (unroll (unit self) hidden None _) as [trace' [l|e']] eqn:Hu; simpl.
  - destruct (finish l _ _) as [r|e'] eqn:Hfin; [done|]. intros [= <- <-].
    rewrite app_nil_r.
    destruct (unroll_calls _ _ _ _ _ _ Hu) as (_ & _ & _ & P4 & _).
    destruct (P4 l eq_refl) as [Hlen Hall]. rewrite length_segments in Hlen.
    right. right. split; [by eapply finish_raises|].
    split; [by rewrite (Forall2_length _ _ _ Hall)|].
    apply Forall_forall. intros c Hc.
    apply list_elem_of_lookup in Hc as [t Ht].
    destruct (Forall2_lookup_l _ _ _ _ _ Hall Ht) as (p & _ & Hp & Hlast).
    exists p.1. split; [done|].
    apply tensor_last_row_returns in Hlast as (row & Hrow & _).
    unfold shape0, nrows. destruct (rows (data p.1)); [done|simpl; lia].
  - intros [= <- <-]. apply unroll_raises in Hu as (c & Hc & [Hout|(hs & Hout & Hrows & ->)]).
    + left. by exists c.
    + right. left. exists c, hs. split_and!; try done.
      unfold shape0, nrows. by rewrite Hrows.
Qed.

(** X4.  The calls follow the timesteps and stop at the first failure: call
    [t] is made on the segment [X[t]], the first one with the hidden
    state given; it is made only after every earlier call returned a
    tensor that has a row; and there are at most as many calls as
    timesteps. *)
Theorem calls_follow_timesteps self (input : PackedSequence R) hidden t c :
  (TimeIterator_forward self input hidden).1 !! t = Some c →
  segments (ps_data input) (batch_sizes input) !! t = Some (call_x c) ∧
  call_outcome c = unit_forward (unit self) (PyTensor (call_x c)) (call_hidden c) ∧
  (t = 0 → call_hidden c = hidden) ∧
  (∀ t' c', t' < t →
     (TimeIterator_forward self input hidden).1 !! t' = Some c' →
     ∃ hs, call_outcome c' = Returns hs ∧ 1 ≤ shape0 hs) ∧
  length (TimeIterator_forward self input hidden).1 ≤ length (batch_sizes input).
Proof.
  rewrite forward_trace.
  destruct (unroll (unit self) hidden None _) as [trace res] eqn:Hu. simpl.
  intros Hc.
  destruct (unroll_calls _ _ _ _ _ _ Hu) as (P1 & P2 & _).
  destruct (unroll_trace_prefix _ _ _ _ _ _ Hu) as [Hlen Hpre].
  rewrite length_segments in Hlen.
  destruct (P1 t c Hc) as [HX Hout]. split_and!; try done.
  - intros ->. by apply P2.
  - intros t' c' Hlt Hc'.
    destruct (Hpre t' c' Hc') as (hs & Hhs & Hrows).
    { apply lookup_lt_Some in Hc. lia. }
    exists hs. split; [done|]. unfold shape0, nrows.
    destruct (rows (data hs)); [done|simpl; lia].
Qed.

(** X5.  With no timestep at all ([batch_sizes] empty) the unit is not
    called and [TimeIterator.forward] does not return: there is nothing
    for [tensor.cat] to concatenate. *)
Theorem forward_no_timestep self (dat : tensor) (si : list Z) hidden :
  ∃ e, TimeIterator_forward self (mk_PackedSequence dat si []) hidden = ([], Raises e).
Proof.
  rewrite forward_unroll. cbn [ps_data batch_sizes sorted_indices].
  rewrite segments_cut. cbn [cut unroll]. rewrite tbind_tret_l.
  unfold finish. rewrite target_hidden_step_indices_eq.
  change (last_steps []) with (@nil nat). by eexists.
Qed.

Lemma length_omap_total {A B} (f : A → option B) (l : list A) :
  Forall (λ a, is_Some (f a)) l → length (omap f l) = length l.
Proof.
  induction 1 as [|a l [b Hb] _ IH]; simpl; [done|]. rewrite Hb. simpl.
  f_equal. exact IH.
Qed.

Lemma length_spec_order bs : length (spec_order bs) = length (remove_dups bs).
Proof.
  unfold spec_order. rewrite length_reverse.
  rewrite (Permutation_length (merge_sort_Permutation le _)).
  apply length_omap_total. apply Forall_forall. intros v Hv.
  rewrite elem_of_remove_dups in Hv.
  destruct (last_index bs v) as [i|] eqn:Hi; [by eexists|].
  exfalso. apply last_index_None in Hi. by apply Hi.
Qed.

(** X6.  The final hidden state has one row for each distinct value of
    [batch_sizes], whatever the number of samples: whenever
    [TimeIterator.forward] returns, the rows of the final hidden state
    are as many as the distinct batch sizes, hence at most as many as
    timesteps. *)
Theorem final_rows_count self (input : PackedSequence R) hidden trace ps final :
  TimeIterator_forward self input hidden = (trace, Returns (ps, final)) →
  shape0 final = length (remove_dups (batch_sizes input)) ∧
  shape0 final ≤ length (batch_sizes input).
Proof.
  intros Hf. apply forward_returns_spec in Hf as (s & hs & _ & _ & _ & _ & _ & Hfin).
  apply spec_final_hidden_rows, Forall2_length in Hfin.
  unfold shape0, nrows. rewrite Hfin. split; [apply length_spec_order|].
  rewrite spec_order_eq, length_reverse. unfold last_steps.
  etrans; [apply length_filter|]. by rewrite length_seq.
Qed.

Lemma last_steps_replicate (T : nat) (B : Z) : last_steps (replicate (S T) B) = [T].
Proof.
  rewrite <- (sort_last_steps (replicate (S T) B) [T]); [done|apply NoDup_singleton|].
  intros i. rewrite list_elem_of_singleton. split.
  - intros ->. exists B. apply last_index_Some. split.
    + apply lookup_replicate. split; [done|lia].
    + rewrite drop_replicate. replace (S T - S T) with 0 by lia. apply not_elem_of_nil.
  - intros (v & Hv). apply last_index_Some in Hv as [Hv Hnot].
    apply lookup_replicate in Hv as [-> Hi].
    rewrite drop_replicate in Hnot.
    destruct (decide (i = T)) as [|Hne]; [done|].
    exfalso. apply Hnot. apply elem_of_replicate. split; [done|lia].
Qed.

(** X7.  A batch of sequences of one length ([batch_sizes] is [B] repeated
    over [T + 1] timesteps): whenever [TimeIterator.forward] returns, the
    final hidden state is a single row, the last row of the hidden state
    of the last timestep, whatever [B] is. *)
Theorem equal_lengths_final self (dat : tensor) (si : list Z) (B : Z) (T : nat)
    hidden trace ps final :
  TimeIterator_forward self (mk_PackedSequence dat si (replicate (S T) B)) hidden
    = (trace, Returns (ps, final)) →
  ∃ s hs h row,
    recurrence self (segments dat (replicate (S T) B)) hidden = (trace, Returns s) ∧
    hidden_states s = map PyTensor hs ∧
    length hs = S T ∧
    hs !! T = Some h ∧
    last (rows (data h)) = Some row ∧
    rows (data final) = [row].
Proof.
  intros Hf.
  apply forward_returns_spec in Hf as (s & hs & Hrec & Hhs & _ & _ & _ & Hfin).
  cbn [ps_data batch_sizes] in *.
  apply spec_final_hidden_rows in Hfin.
  rewrite spec_order_eq, last_steps_replicate in Hfin.
  change (reverse [T]) with [T] in Hfin.
  inv Hfin as [|row ? rest ? (h & Hh & Hrow) Hrest Hrows]. inv Hrest.
  exists s, hs, h, row. split_and!; try done.
  pose proof Hrec as Hrec'.
  apply recurrence_returns in Hrec' as (l & Hu & ->).
  destruct (unroll_calls _ _ _ _ _ _ Hu) as (_ & _ & _ & P4 & _).
  destruct (P4 l eq_refl) as [Hlen _].
  rewrite length_segments, length_replicate in Hlen.
  apply (f_equal length) in Hhs. simpl in Hhs. rewrite !length_map in Hhs. lia.
Qed.

(** X8.  [sorted_indices] is only copied into the packed sequence returned:
    the calls, the data of the output and the final hidden state do not
    depend on it.  The final hidden state comes in sorted order and is
    not put back into the order of the original batch. *)
Theorem sorted_indices_only_copied self (dat : tensor) (si si' bs : list Z) hidden :
  TimeIterator_forward self (mk_PackedSequence dat si' bs) hidden
  = let r := TimeIterator_forward self (mk_PackedSequence dat si bs) hidden in
    (r.1, rmap (λ pf, (mk_PackedSequence (ps_data pf.1) si' bs, pf.2)) r.2).
Proof.
  rewrite !forward_unroll. cbn [ps_data batch_sizes sorted_indices].
  destruct (unroll (unit self) hidden None (segments dat bs)) as [trace [l|e]];
    [|done].
  simpl. rewrite !app_nil_r. f_equal. unfold finish.
  destruct (target_hidden_step_indices bs) as [target|]; [|done]. simpl.
  destruct (last_hidden_step_per_sample (map snd l) target) as [last|]; [|done].
  simpl. destruct (tensor_cat (map fst l)) as [out|]; [|done]. simpl.
  destruct (tensor_cat last) as [final|]; done.
Qed.
End ForwardFacts.

(** ** Exceptions and construction of [RNNUnit] *)

Section RNNUnitExtra.
Context {R : Type} `{Scalar R} `{Activations R} `{TensorTruth R}.
Local Abbreviation tensor := (Tensor (ndarray R)).
Implicit Types (u : RNNUnit R) (x h : tensor).

Lemma np_matmul_raises (a b : ndarray R) e : np_matmul a b = Raises e → e = ValueError.
Proof. unfold np_matmul. destruct (_ =? _); [done|]. by intros [= <-]. Qed.

Lemma np_add_raises (a b : ndarray R) e : np_add a b = Raises e → e = ValueError.
Proof.
  unfold np_add, np_broadcast2.
  destruct (bcast_dim (nrows a) (nrows b)); [destruct (bcast_dim (ncols a) (ncols b))|];
    [done|by intros [= <-]..].
Qed.

(** The array computed before the activation is applied, on tensors. *)
Lemma affine_act_arrays u x h :
  rmap data (affine_act u x h)
  = (let! pre := spec_pre_arrays u x h in
     let! a := getattr_act u in
     Returns (np_map (act_fun a) pre)).
Proof.
  unfold affine_act, spec_pre_arrays, tensor_matmul, tensor_add1, tensor_add.
  cbn [tensor_T op_output data].
  destruct (np_matmul (data x) _) as [d1|]; [|done]. simpl.
  destruct (np_add1 d1 _) as [d2|]; [|done]. simpl.
  destruct (np_matmul (data h) _) as [d3|]; [|done]. simpl.
  destruct (np_add1 d3 _) as [d4|]; [|done]. simpl.
  destruct (np_add d2 d4) as [d5|]; [|done]. simpl.
  by destruct (getattr_act u).
Qed.

Lemma spec_pre_arrays_raises u x h e :
  spec_pre_arrays u x h = Raises e → e = ValueError.
Proof.
  unfold spec_pre_arrays, np_add1.
  destruct (np_matmul (data x) _) as [d1|e1] eqn:E1;
    [|intros [= <-]; by eapply np_matmul_raises]. simpl.
  destruct (np_add d1 _) as [d2|e2] eqn:E2;
    [|intros [= <-]; by eapply np_add_raises]. simpl.
  destruct (np_matmul (data h) _) as [d3|e3] eqn:E3;
    [|intros [= <-]; by eapply np_matmul_raises]. simpl.
  destruct (np_add d3 _) as [d4|e4] eqn:E4;
    [|intros [= <-]; by eapply np_add_raises]. simpl.
  apply np_add_raises.
Qed.

Lemma rmap_data_raises (r : pyresult tensor) e :
  rmap data r = Raises e ↔ r = Raises e.
Proof. destruct r; simpl; split; congruence. Qed.

(** X9.  The exceptions of [RNNUnit.forward].  An input that is not a
    tensor always raises the exception of line 68, whatever the unit
    and the hidden state.  On a tensor the call raises exactly in two
    cases: a value error when the weighted sum fails, on operands whose
    shapes do not fit; and an attribute error when the whole sum has
    been computed and the unit has no activation.  In every other case
    it returns. *)
Theorem RNNUnit_forward_exceptions u (o : pyobj R) (hidden : option tensor) :
  match o with
  | PyTensor x =>
      let pre := spec_pre_arrays u x (resolve_hidden u x hidden) in
      (∀ e, RNNUnit_forward u o hidden = Raises e ↔
            (e = ValueError ∧ ∃ e', pre = Raises e') ∨
            (e = AttributeError ∧ act u = None ∧ ∃ p, pre = Returns p)) ∧
      (∀ e', pre = Raises e' → e' = ValueError) ∧
      (∀ p a, pre = Returns p → act u = Some a →
              ∃ y, RNNUnit_forward u o hidden = Returns y ∧
                   data y = np_map (act_fun a) p)
  | _ => RNNUnit_forward u o hidden
         = Raises (Exception ("Input must be Tensor. Got " +:+ type_repr o))
  end.
Proof.
  destruct o as [x|z|n]; [|reflexivity..].
  cbn zeta. rewrite RNNUnit_forward_unfold.
  pose proof (affine_act_arrays u x (resolve_hidden u x hidden)) as Harr.
  cbn zeta in Harr. split_and!.
  - intros e. rewrite <- rmap_data_raises, Harr.
    destruct (spec_pre_arrays u x _) as [pre|e'] eqn:Hpre; simpl.
    + unfold getattr_act. destruct (act u) as [a|] eqn:Hact; simpl.
      * split; [done|]. intros [(_ & e' & ?)|(_ & ? & _)]; done.
      * split.
        -- intros [= <-]. right. split; [done|]. split; [done|]. by exists pre.
        -- intros [(_ & e' & ?)|(-> & _)]; done.
    + apply spec_pre_arrays_raises in Hpre as ->. split.
      * intros [= <-]. left. split; [done|]. by eexists.
      * intros [(-> & _)|(_ & _ & p & ?)]; done.
  - intros e'. apply spec_pre_arrays_raises.
  - intros p a Hp Hact. rewrite Hp in Harr. unfold getattr_act in Harr.
    rewrite Hact in Harr. simpl in Harr.
    destruct (affine_act u x _) as [y|]; [|done]. injection Harr as Hy. by exists y.
Qed.

(** X10.  Operands whose shapes do not fit are rejected with a value error:
    an input that has not [input_size] columns, whatever the hidden
    state; and, for an input that has, a hidden state (one that is
    true) that has not [hidden_size] columns, or whose rows are neither
    those of the input nor a single one. *)
Theorem RNNUnit_forward_shape_mismatch u (input_size : nat) x :
  unit_shaped u input_size →
  (ncols (data x) ≠ input_size →
   ∀ hidden, RNNUnit_forward u (PyTensor x) hidden = Raises ValueError) ∧
  (ncols (data x) = input_size →
   ∀ h, tensor_bool h = true →
        ncols (data h) ≠ hidden_size u ∨
        (shape0 h ≠ shape0 x ∧ shape0 h ≠ 1 ∧ shape0 x ≠ 1) →
        RNNUnit_forward u (PyTensor x) (Some h) = Raises ValueError).
Proof.
  intros (Hih & Hbih & Hhh & Hbhh).
  destruct Hih as (Hih_r & Hih_c & _). destruct Hhh as (Hhh_r & Hhh_c & _).
  split.
  - intros Hx hidden. rewrite RNNUnit_forward_unfold.
    unfold affine_act, tensor_matmul, np_matmul. cbn [tensor_T op_output data].
    assert (nrows (np_T (data (weight_ih u))) = ncols (data (weight_ih u)))
      as -> by apply nrows_tabulate.
    rewrite Hih_c. by destruct (Nat.eqb_spec (ncols (data x)) input_size).
  - intros Hx h Htrue Hbad. rewrite RNNUnit_forward_unfold, resolve_hidden_Some, Htrue.
    unfold affine_act, tensor_matmul, tensor_add1, tensor_add.
    cbn [tensor_T op_output data].
    rewrite np_matmul_T by congruence. simpl.
    rewrite Hih_r, np_add1_tabulate by done. simpl.
    destruct (decide (ncols (data h) = hidden_size u)) as [Hc|Hc].
    + destruct Hbad as [?|(Hr & Hr1 & Hx1)]; [done|].
      rewrite np_matmul_T by congruence. simpl.
      rewrite Hhh_r, np_add1_tabulate by done. simpl.
      unfold np_add, np_broadcast2. rewrite !nrows_tabulate.
      unfold bcast_dim, shape0 in *.
      destruct (Nat.eqb_spec (nrows (data x)) (nrows (data h))); [congruence|].
      destruct (Nat.eqb_spec (nrows (data x)) 1); [done|].
      by destruct (Nat.eqb_spec (nrows (data h)) 1).
    + unfold np_matmul at 1.
      assert (nrows (np_T (data (weight_hh u))) = ncols (data (weight_hh u)))
        as -> by apply nrows_tabulate.
      rewrite Hhh_c. by destruct (Nat.eqb_spec (ncols (data h)) (hidden_size u)).
Qed.

(** X11.  Construction and call compose: a unit built by [__init__]
    with nonlinearity "tanh" or "relu" has parameters that require
    gradients and are flagged as parameters, and biases that are zero;
    called on an input of shape [B, input_size], with no hidden state
    or one of one row for each row of the input, it returns a tensor of
    shape [B, hidden_size] that requires a gradient and is neither a
    leaf nor a parameter.  Its data is the function the name selects
    applied to the weighted sum of the input and of the hidden state
    the unit uses (lines 70-74); when a tensor that is false is all
    zero, as for every usual reading of [not hidden], this is the sum
    for the hidden state passed, and for zeros when none is passed. *)
Theorem constructed_unit_runs (input_size n_hidden : nat) (nonlinearity : string)
    (draw_ih draw_hh : nat → R) x (hidden : option tensor) (B : nat) :
  nonlinearity = "tanh"%string ∨ nonlinearity = "relu"%string →
  has_shape (data x) B input_size →
  hidden_fits_rows n_hidden hidden x →
  ∃ u y,
    RNNUnit_init input_size n_hidden nonlinearity draw_ih draw_hh = Returns u ∧
    Forall (λ p : tensor, requires_grad p = true ∧ is_parameter p = true)
      [weight_ih u; weight_hh u] ∧
    Forall (λ b : Tensor (list R),
              requires_grad b = true ∧ is_parameter b = true ∧
              data b = replicate n_hidden s_zero)
      [bias_ih u; bias_hh u] ∧
    RNNUnit_call u (PyTensor x) hidden = Returns y ∧
    data y = spec_advance u (if String.eqb nonlinearity "tanh" then Tanh else ReLU)
               x (resolve_hidden u x hidden) ∧
    (false_is_zero →
     data y = spec_advance u (if String.eqb nonlinearity "tanh" then Tanh else ReLU) x
                match hidden with
                | Some h => h
                | None => Tensor_new (np_zeros B n_hidden) true true
                end) ∧
    has_shape (data y) B n_hidden ∧
    requires_grad y = true ∧ is_leaf y = false ∧ is_parameter y = false.
Proof.
  intros Hnl (Hxr & Hxc & _) Hfit.
  destruct (RNNUnit_init_returns input_size n_hidden nonlinearity draw_ih draw_hh)
    as (u & Hinit & Hshaped & Hsize & Hrg & Hact).
  exists u.
  assert (Hresolve : shape0 (resolve_hidden u x hidden) = shape0 x ∧
                     ncols (data (resolve_hidden u x hidden)) = hidden_size u).
  { apply resolve_hidden_shape. destruct hidden as [h|]; [|done].
    destruct Hfit as [Hr Hc]. split; [done|congruence]. }
  destruct Hresolve as [Hr Hc].
  assert (Hpassed : ∀ a, false_is_zero →
            spec_advance u a x (resolve_hidden u x hidden)
            = spec_advance u a x match hidden with
                                 | Some h => h
                                 | None => Tensor_new (np_zeros B n_hidden) true true
                                 end).
  { intros a Hz. destruct hidden as [h|].
    - destruct Hfit as [Hhr Hhc]. apply spec_advance_resolved; [done..|congruence].
    - rewrite resolve_hidden_None. unfold shape0. by rewrite Hxr, Hsize. }
  unfold RNNUnit_call. rewrite RNNUnit_forward_unfold.
  rewrite (affine_act_shaped u x _ input_size) by done.
  unfold getattr_act. rewrite Hact.
  assert (Hsome : (if String.eqb nonlinearity "tanh" then Some Tanh
                   else if String.eqb nonlinearity "relu" then Some ReLU else None)
                  = Some (if String.eqb nonlinearity "tanh" then Tanh else ReLU)).
  { destruct Hnl as [-> | ->]; reflexivity. }
  rewrite Hsome. cbn [rbind]. eexists. split; [exact Hinit|].
  split.
  { injection Hinit as <-. by repeat constructor. }
  split.
  { injection Hinit as <-. by repeat constructor. }
  split; [reflexivity|]. cbn [op_output data].
  split; [reflexivity|]. split; [apply Hpassed|].
  split.
  { rewrite <- Hxr, <- Hsize. apply spec_advance_shape. }
  cbn [requires_grad is_leaf is_parameter]. rewrite Hrg.
  by rewrite !orb_true_r.
Qed.
End RNNUnitExtra.

(** ** Iterators built by [TimeIterator.__init__] *)

Section RNNIteratorExtra.
Context {R : Type} `{Scalar R} `{Activations R} `{TensorTruth R}.
Local Abbreviation tensor := (Tensor (ndarray R)).

Lemma known_nonlinearity_act (nonlinearity : string) :
  known_nonlinearity nonlinearity →
  ∃ a, (if String.eqb nonlinearity "tanh" then Some Tanh
        else if String.eqb nonlinearity "relu" then Some ReLU else None) = Some a.
Proof. intros [-> | ->]; by eexists. Qed.

Lemma unknown_nonlinearity_act (nonlinearity : string) :
  nonlinearity ≠ "tanh"%string → nonlinearity ≠ "relu"%string →
  (if String.eqb nonlinearity "tanh" then Some Tanh
   else if String.eqb nonlinearity "relu" then Some ReLU else None) = None.
Proof.
  intros Ht Hr.
  destruct (String.eqb_spec nonlinearity "tanh"); [done|].
  by destruct (String.eqb_spec nonlinearity "relu").
Qed.

(** On an input that satisfies the invariant the output does again, with
    the batch sizes and the sorted indices of the input. *)
Lemma RNN_forward_invariant u a input_size (input : PackedSequence R) hidden :
  unit_shaped u input_size → act u = Some a →
  packed_invariant input → batch_sizes input ≠ [] →
  ncols (data (ps_data input)) = input_size →
  initial_hidden_fits (hidden_size u) hidden input →
  ∃ trace ps final,
    TimeIterator_forward (mk_TimeIterator u) input hidden
      = (trace, Returns (ps, final)) ∧
    length trace = length (batch_sizes input) ∧
    packed_invariant ps ∧
    batch_sizes ps = batch_sizes input ∧
    sorted_indices ps = sorted_indices input ∧
    shape0 (ps_data ps) = shape0 (ps_data input) ∧
    ncols (data (ps_data ps)) = hidden_size u.
Proof.
  intros Hu Hact Hinv Hne Hcols Hhid.
  destruct (RNN_forward_returns u a input_size input hidden Hu Hact Hinv Hne Hcols)
    as (trace & ps & final & Hf & Hlen & Hrows & Hc & _).
  { by destruct hidden. }
  exists trace, ps, final.
  pose proof Hf as Hspec. apply forward_returns_spec in Hspec
    as (s & hs & _ & _ & _ & Hsi & Hbs & _).
  destruct Hinv as (Hpos & Hsorted & Hsum).
  assert (Hrows' : shape0 (ps_data ps) = shape0 (ps_data input)) by lia.
  split_and!; try done.
  unfold packed_invariant. rewrite Hbs, Hrows'. done.
Qed.

(** X12.  Layers compose.  Two iterators built by [TimeIterator.__init__] with
    nonlinearities the unit knows, the second one taking as many input
    features as the first one has hidden features: on a packed input
    that satisfies the invariant of packed sequences, with initial
    hidden states of one row for each sample of the first timestep (or
    none), the first call returns an output that satisfies the invariant
    again, the second call returns on that output, with one call of its
    unit for each timestep, and its output has the batch sizes, the
    sorted indices and the number of rows of the input and as many
    columns as the second layer has hidden features. *)
Theorem stacked_iterators_return (input_size n1 n2 : nat) (nl1 nl2 : string)
    (draw1 draw1' draw2 draw2' : nat → R) (input : PackedSequence R)
    (hidden1 hidden2 : option tensor) :
  known_nonlinearity nl1 → known_nonlinearity nl2 →
  packed_invariant input → batch_sizes input ≠ [] →
  ncols (data (ps_data input)) = input_size →
  initial_hidden_fits n1 hidden1 input →
  initial_hidden_fits n2 hidden2 input →
  ∃ it1 it2 trace1 ps1 final1 trace2 ps2 final2,
    TimeIterator_init input_size n1 nl1 draw1 draw1' = Returns it1 ∧
    TimeIterator_init n1 n2 nl2 draw2 draw2' = Returns it2 ∧
    TimeIterator_call it1 input hidden1 = (trace1, Returns (ps1, final1)) ∧
    packed_invariant ps1 ∧
    TimeIterator_call it2 ps1 hidden2 = (trace2, Returns (ps2, final2)) ∧
    length trace2 = length (batch_sizes input) ∧
    packed_invariant ps2 ∧
    batch_sizes ps2 = batch_sizes input ∧
    sorted_indices ps2 = sorted_indices input ∧
    shape0 (ps_data ps2) = shape0 (ps_data input) ∧
    ncols (data (ps_data ps2)) = n2.
Proof.
  intros Hnl1 Hnl2 Hinv Hne Hcols Hh1 Hh2.
  destruct (RNNUnit_init_returns input_size n1 nl1 draw1 draw1')
    as (u1 & Hinit1 & Hshaped1 & Hsize1 & _ & Hact1).
  destruct (RNNUnit_init_returns n1 n2 nl2 draw2 draw2')
    as (u2 & Hinit2 & Hshaped2 & Hsize2 & _ & Hact2).
  destruct (known_nonlinearity_act nl1 Hnl1) as [a1 Ha1]. rewrite Ha1 in Hact1.
  destruct (known_nonlinearity_act nl2 Hnl2) as [a2 Ha2]. rewrite Ha2 in Hact2.
  destruct (RNN_forward_invariant u1 a1 input_size input hidden1)
    as (trace1 & ps1 & final1 & Hf1 & _ & Hinv1 & Hbs1 & Hsi1 & Hrows1 & Hc1);
    [done..|by rewrite Hsize1|].
  destruct (RNN_forward_invariant u2 a2 n1 ps1 hidden2)
    as (trace2 & ps2 & final2 & Hf2 & Hlen2 & Hinv2 & Hbs2 & Hsi2 & Hrows2 & Hc2);
    [done..|by rewrite Hbs1|congruence|unfold initial_hidden_fits in *; by rewrite Hsize2, Hbs1|].
  exists (mk_TimeIterator u1), (mk_TimeIterator u2), trace1, ps1, final1,
    trace2, ps2, final2.
  unfold TimeIterator_init, TimeIterator_call. rewrite Hinit1, Hinit2. simpl.
  split_and!; try done; congruence.
Qed.

(** X13.  A nonlinearity the unit does not know is not rejected by
    [TimeIterator.__init__]; it is the first timestep of the first call
    that fails.  On a packed input that satisfies the invariant, with
    the columns and hidden state the unit expects, the call raises an
    attribute error after one call of the unit, the one on the first
    segment with the hidden state given, and no later timestep is
    looked at. *)
Theorem unknown_nonlinearity_first_timestep (input_size n_hidden : nat)
    (nonlinearity : string) (draw_ih draw_hh : nat → R)
    (input : PackedSequence R) (hidden : option tensor) :
  nonlinearity ≠ "tanh"%string → nonlinearity ≠ "relu"%string →
  packed_invariant input → batch_sizes input ≠ [] →
  ncols (data (ps_data input)) = input_size →
  initial_hidden_fits n_hidden hidden input →
  ∃ it c,
    TimeIterator_init input_size n_hidden nonlinearity draw_ih draw_hh = Returns it ∧
    TimeIterator_call it input hidden = ([c], Raises AttributeError) ∧
    Some (call_x c) = head (segments (ps_data input) (batch_sizes input)) ∧
    call_hidden c = hidden ∧
    call_outcome c = Raises AttributeError.
Proof.
  intros Ht Hr Hinv Hne Hcols Hhid.
  destruct (RNNUnit_init_returns input_size n_hidden nonlinearity draw_ih draw_hh)
    as (u & Hinit & Hshaped & Hsize & _ & Hact).
  rewrite unknown_nonlinearity_act in Hact by done.
  pose proof (segments_shape input (packed_invariant_fit _ Hinv)) as Hshape.
  unfold TimeIterator_init, TimeIterator_call. rewrite Hinit. simpl rbind.
  exists (mk_TimeIterator u). rewrite forward_unroll. cbn [unit].
  destruct Hinv as (Hpos & _ & _). revert Hshape Hhid Hne Hpos.
  generalize (segments (ps_data input) (batch_sizes input)).
  unfold initial_hidden_fits. generalize (batch_sizes input).
  intros bs Xs Hshape Hhid Hne Hpos.
  destruct Hshape as [|x b Xs bs [Hx Hxc] _]; [done|].
  apply Forall_cons in Hpos as [Hb _].
  assert (Hraise : RNNUnit_forward u (PyTensor x) hidden = Raises AttributeError).
  { rewrite RNNUnit_forward_unfold.
    destruct (resolve_hidden_shape u x hidden) as [Hrr Hrc].
    { destruct hidden as [h|]; [|done]. destruct Hhid as [Hh Hhc].
      change ((b :: bs) !!! 0) with b in Hh. split; [lia|congruence]. }
    rewrite (affine_act_shaped u x _ input_size) by (done || congruence).
    unfold getattr_act. by rewrite Hact. }
  rewrite unroll_cons. cbn zeta. cbn [unit_forward RNNUnit_BasicUnit].
  rewrite Hraise. eexists. split; [reflexivity|]. simpl.
  split; [reflexivity|]. done.
Qed.
End RNNIteratorExtra.

(** ** Samples of a batch *)

Section SampleFacts.
Context {R : Type} `{Scalar R} `{Activations R} `{TensorTruth R}.
Local Abbreviation tensor := (Tensor (ndarray R)).
Implicit Types (u : RNNUnit R) (x h : tensor).

Lemma get_lookup (a : ndarray R) i r k :
  rows a !! i = Some r → get a i k = nth k r s_zero.
Proof. intros Hr. unfold get. by rewrite (nth_lookup_Some _ _ _ _ Hr). Qed.

Lemma row_of_get j x x' k : row_of j x x' → get (data x) j k = get (data x') 0 k.
Proof.
  intros (_ & r & Hr & Hr'). rewrite (get_lookup _ _ _ _ Hr).
  unfold get. by rewrite Hr'.
Qed.

Lemma row_of_shape j x x' : row_of j x x' → j < shape0 x ∧ shape0 x' = 1.
Proof.
  intros (_ & r & Hr & Hr'). split; [by eapply lookup_lt_Some|].
  unfold shape0, nrows. by rewrite Hr'.
Qed.

Lemma spec_pre_rowwise u x h x' h' i i' c :
  ncols (data x') = ncols (data x) → ncols (data h') = ncols (data h) →
  (∀ k, get (data x) i k = get (data x') i' k) →
  (∀ k, get (data h) i k = get (data h') i' k) →
  spec_pre u x h i c = spec_pre u x' h' i' c.
Proof.
  intros Hx Hh Hgx Hgh. unfold spec_pre. rewrite Hx, Hh.
  f_equal; f_equal; apply sum_upto_ext; intros k _; by rewrite ?Hgx, ?Hgh.
Qed.

Lemma spec_advance_row u a x h i :
  i < shape0 x →
  rows (spec_advance u a x h) !! i
  = Some (map (λ c, act_fun a (spec_pre u x h i c)) (seq 0 (hidden_size u))).
Proof.
  intros Hi. unfold spec_advance, tabulate. cbn [rows].
  by rewrite list_lookup_fmap, lookup_seq_lt.
Qed.

Lemma RNNUnit_forward_data u a input_size x hp :
  unit_shaped u input_size → act u = Some a →
  ncols (data x) = input_size → hidden_fits u hp x →
  ∃ y, RNNUnit_forward u (PyTensor x) hp = Returns y ∧
       data y = spec_advance u a x (resolve_hidden u x hp).
Proof.
  intros Hu Hact Hx Hfit.
  destruct (resolve_hidden_shape u x hp Hfit) as [Hr Hc].
  rewrite RNNUnit_forward_unfold, (affine_act_shaped u x _ input_size) by done.
  unfold getattr_act. rewrite Hact. simpl. by eexists.
Qed.

Lemma resolve_hidden_row j u x x' hp hp' k :
  false_is_zero → hidden_row_of j hp hp' →
  get (data (resolve_hidden u x hp)) j k = get (data (resolve_hidden u x' hp')) 0 k.
Proof.
  intros Hz Hrel. destruct hp as [h|], hp' as [h'|]; try done.
  - rewrite !resolve_hidden_get by done. by apply row_of_get.
  - rewrite !resolve_hidden_None. simpl. by rewrite !np_zeros_get.
Qed.

Lemma row_of_slice_to j (p p' : tensor) (n : nat) :
  row_of j p p' → j < n →
  row_of j (tensor_slice p 0 (Z.of_nat n)) (tensor_slice p' 0 1).
Proof.
  intros (Hc & r & Hr & Hr') Hj. split; [done|]. exists r.
  cbn [tensor_slice op_output data np_slice rows].
  rewrite py_slice_to, (py_slice_to _ 1), Hr'. split; [|done].
  by rewrite lookup_take_lt.
Qed.

(** The recurrence on a batch and on one of its samples, side by side. *)
Lemma unroll_sample u a input_size j hidden hidden' :
  false_is_zero → unit_shaped u input_size → act u = Some a →
  ∀ Xs' Xs prev prev',
    shrinking input_size Xs →
    Forall2 (row_of j) (take (length Xs') Xs) Xs' →
    length Xs' ≤ length Xs →
    match Xs with
    | [] => True
    | x :: _ =>
        match prev with
        | None => hidden_fits u hidden x
        | Some p => shape0 x ≤ shape0 p ∧ ncols (data p) = hidden_size u
        end
    end →
    match prev, prev' with
    | None, None => hidden_row_of j hidden hidden'
    | Some p, Some p' => row_of j p p'
    | _, _ => False
    end →
    ∃ trace l trace' l',
      unroll u hidden prev Xs = (trace, Returns l) ∧
      unroll u hidden' prev' Xs' = (trace', Returns l') ∧
      Forall2 (λ p p', row_of j p.1 p'.1) (take (length Xs') l) l'.
Proof.
  intros Hz Hu Hact. induction Xs' as [|x' Xs' IH]; intros Xs prev prev' Hshr Hrows Hlen
    Hfirst Hrel.
  - destruct (unroll_RNN_returns u a input_size hidden prev Xs Hu Hact Hshr Hfirst)
      as (trace & l & Hrun & _).
    exists trace, l, [], []. split; [done|]. split; [done|]. simpl. constructor.
  - destruct Xs as [|x Xs]; [simpl in Hlen; lia|].
    cbn [length take] in Hrows. apply Forall2_cons in Hrows as [Hx Hrows].
    destruct Hshr as (Hx1 & Hxc & Hnext & Hshr).
    destruct (row_of_shape _ _ _ Hx) as [Hj Hx'1].
    rewrite !unroll_cons. cbn zeta.
    set (hp := match prev with None => hidden | Some p => _ end).
    set (hp' := match prev' with None => hidden' | Some p => _ end).
    assert (Hfit : hidden_fits u hp x).
    { unfold hp. destruct prev as [p|]; [|done]. destruct Hfirst as [Hle Hpc].
      split; [by apply shape0_slice_to|done]. }
    assert (Hrel' : hidden_row_of j hp hp').
    { unfold hp, hp'. destruct prev as [p|], prev' as [p'|]; try done.
      rewrite Hx'1. by apply row_of_slice_to. }
    assert (Hfit' : hidden_fits u hp' x').
    { destruct hp as [h|], hp' as [h'|]; try done.
      destruct Hfit as [_ Hhc]. destruct (row_of_shape _ _ _ Hrel') as [_ Hh'1].
      destruct Hrel' as [Hcols _]. split; congruence. }
    assert (Hxc' : ncols (data x') = input_size) by (destruct Hx; congruence).
    destruct (RNNUnit_forward_data u a input_size x hp Hu Hact Hxc Hfit)
      as (y & Hy & Hyd).
    destruct (RNNUnit_forward_data u a input_size x' hp' Hu Hact Hxc' Hfit')
      as (y' & Hy' & Hyd').
    change (unit_forward u (PyTensor x) hp) with (RNNUnit_forward u (PyTensor x) hp).
    change (unit_forward u (PyTensor x') hp')
      with (RNNUnit_forward u (PyTensor x') hp').
    rewrite Hy, Hy'.
    assert (Hyr : shape0 y = shape0 x ∧ ncols (data y) = hidden_size u).
    { unfold shape0. rewrite Hyd. split; [apply nrows_tabulate|done]. }
    assert (Hyr' : shape0 y' = 1 ∧ ncols (data y') = hidden_size u).
    { unfold shape0. rewrite Hyd'. split; [|done].
      etrans; [apply nrows_tabulate|done]. }
    destruct (resolve_hidden_shape u x hp Hfit) as [_ Hrc].
    destruct (resolve_hidden_shape u x' hp' Hfit') as [_ Hrc'].
    assert (Hyy : row_of j y y').
    { split; [destruct Hyr, Hyr'; congruence|].
      eexists. rewrite Hyd, Hyd'. split; [by apply spec_advance_row|].
      unfold spec_advance, tabulate. cbn [rows]. rewrite Hx'1. cbn [seq map].
      f_equal. apply map_ext. intros c. f_equal. symmetry.
      apply spec_pre_rowwise.
      - by destruct Hx.
      - congruence.
      - intros k. by apply row_of_get.
      - intros k. by apply resolve_hidden_row. }
    destruct (tensor_last_row_total y) as (r & Hr & _); [lia|].
    destruct (tensor_last_row_total y') as (r' & Hr' & _); [lia|].
    rewrite Hr, Hr'.
    destruct (IH Xs (Some y) (Some y')) as (trace & l & trace' & l' & Hrun & Hrun' & Hall).
    + done.
    + done.
    + simpl in Hlen. lia.
    + destruct Xs as [|x2 Xs2]; [done|]. destruct Hyr. split; [lia|done].
    + done.
    + rewrite Hrun, Hrun'. simpl. eexists _, _, _, _. split; [done|]. split; [done|].
      simpl. by constructor.
Qed.

Lemma cut_ones (dat : tensor) (n s : nat) :
  s + n ≤ shape0 dat →
  Forall2 (λ (x' : tensor) r, rows (data x') = [r] ∧ ncols (data x') = ncols (data dat))
    (cut dat (Z.of_nat s) (replicate n 1%Z)) (take n (drop s (rows (data dat)))).
Proof.
  revert s. induction n as [|n IH]; intros s Hs; [constructor|].
  unfold shape0, nrows in Hs.
  destruct (drop s (rows (data dat))) as [|r rest] eqn:Hdrop.
  { apply (f_equal length) in Hdrop. rewrite length_drop in Hdrop. simpl in Hdrop. lia. }
  cbn [replicate cut take]. constructor.
  - cbn [tensor_slice op_output data np_slice rows ncols].
    rewrite py_slice_counted by lia. rewrite Nat2Z.id.
    split; [exact (f_equal (take 1) Hdrop)|done].
  - replace (Z.of_nat s + 1)%Z with (Z.of_nat (S s)) by lia.
    assert (rest = drop (S s) (rows (data dat))) as ->.
    { replace (S s) with (s + 1) by lia. by rewrite <- drop_drop, Hdrop. }
    apply IH. unfold shape0, nrows. lia.
Qed.

Lemma shrinking_bound input_size (x : tensor) (Xs : list tensor) :
  shrinking input_size (x :: Xs) → Forall (λ x2, shape0 x2 ≤ shape0 x) Xs.
Proof.
  revert x. induction Xs as [|x2 Xs IH]; intros x Hshr; [constructor|].
  destruct Hshr as (_ & _ & Hle & Hshr). constructor; [done|].
  eapply Forall_impl; [by apply IH|]. simpl. lia.
Qed.

Lemma omap_rows_none (j : nat) (Xs : list tensor) :
  Forall (λ x, shape0 x ≤ j) Xs →
  omap (λ x : tensor, rows (data x) !! j) Xs = [].
Proof.
  induction 1 as [|x Xs Hx _ IH]; [done|]. cbn [omap list_omap].
  rewrite lookup_ge_None_2 by done. exact IH.
Qed.

(** The segments that have a row [j] come first. *)
Lemma omap_rows_prefix input_size (j : nat) (Xs : list tensor) :
  shrinking input_size Xs →
  let rs := omap (λ x : tensor, rows (data x) !! j) Xs in
  length rs ≤ length Xs ∧
  Forall2 (λ (x : tensor) r, rows (data x) !! j = Some r) (take (length rs) Xs) rs.
Proof.
  induction Xs as [|x Xs IH]; intros Hshr; [split; [done|constructor]|].
  pose proof (shrinking_bound _ _ _ Hshr) as Hbound.
  destruct Hshr as (_ & _ & _ & Hshr). cbn zeta. cbn [omap list_omap].
  destruct (rows (data x) !! j) as [r|] eqn:Hr.
  - destruct (IH Hshr) as [Hlen Hall]. cbn [length take].
    split; [lia|]. by constructor.
  - rewrite omap_rows_none; [split; [simpl; lia|constructor]|].
    apply lookup_ge_None_1 in Hr. eapply Forall_impl; [exact Hbound|].
    simpl. unfold shape0, nrows. lia.
Qed.

Lemma length_sample_rows (j : nat) (Xs : list tensor) (bs : list Z) :
  Forall2 (λ (x : tensor) b, shape0 x = Z.to_nat b) Xs bs →
  Forall (λ b, (0 ≤ b)%Z) bs →
  length (omap (λ x : tensor, rows (data x) !! j) Xs)
  = length (filter (λ b, (Z.of_nat j < b)%Z) bs).
Proof.
  induction 1 as [|x b Xs bs Hx _ IH]; intros Hpos; [done|].
  apply Forall_cons in Hpos as [Hb Hpos]. cbn [omap list_omap].
  rewrite filter_cons. unfold shape0, nrows in Hx.
  destruct (decide (Z.of_nat j < b)%Z) as [Hlt|Hge].
  - destruct (lookup_lt_is_Some_2 (rows (data x)) j) as [r Hr]; [lia|].
    rewrite Hr. simpl. f_equal. by apply IH.
  - rewrite lookup_ge_None_2 by lia. by apply IH.
Qed.

(** The segments of a sample are the rows [j] of the segments of the
    batch that have one. *)
Lemma sample_segments input_size (input : PackedSequence R) (j : nat) :
  packed_invariant input →
  ncols (data (ps_data input)) = input_size →
  let X := segments (ps_data input) (batch_sizes input) in
  let X' := segments (ps_data (sample_input input j))
              (batch_sizes (sample_input input j)) in
  length X' = sequence_length (batch_sizes input) j ∧
  length X' ≤ length X ∧
  Forall2 (row_of j) (take (length X') X) X'.
Proof.
  intros Hinv Hcols X X'.
  pose proof (segments_shrinking input Hinv) as Hshr.
  pose proof (segments_shape input (packed_invariant_fit _ Hinv)) as Hshape.
  destruct (omap_rows_prefix _ j _ Hshr) as [Hlen Hpre].
  fold X in Hshr, Hshape, Hlen, Hpre.
  change (omap _ X) with (sample_rows input j) in Hlen, Hpre.
  assert (HX' : length X' = length (sample_rows input j)).
  { unfold X'. rewrite length_segments. unfold sample_input. cbn [batch_sizes].
    apply length_replicate. }
  assert (Hones : Forall2 (λ (x' : tensor) r,
                    rows (data x') = [r] ∧
                    ncols (data x') = ncols (data (ps_data input)))
                    X' (sample_rows input j)).
  { unfold X'. rewrite segments_cut. unfold sample_input. cbn [ps_data batch_sizes].
    set (dat' := mk_Tensor _ _ _ _).
    pose proof (cut_ones dat' (length (sample_rows input j)) 0) as Hcut.
    cbn [Z.of_nat drop] in Hcut. rewrite drop_0 in Hcut.
    unfold dat' in Hcut at 3. cbn [data rows] in Hcut.
    rewrite firstn_all in Hcut. apply Hcut. unfold shape0, nrows, dat'. simpl. lia. }
  split.
  { rewrite HX'. unfold sample_rows, sequence_length. apply length_sample_rows.
    - eapply Forall2_impl; [exact Hshape|]. by intros x b [Hx _].
    - destruct Hinv as (Hpos & _). eapply Forall_impl; [exact Hpos|]. simpl. lia. }
  split; [lia|]. rewrite HX'.
  apply Forall2_same_length_lookup_2.
  { rewrite length_take. lia. }
  intros t x x' Hxt Hx't.
  destruct (Forall2_lookup_l _ _ _ _ _ Hpre Hxt) as (r & Hrt & Hxr).
  destruct (Forall2_lookup_l _ _ _ _ _ Hones Hx't) as (r' & Hrt' & Hx'r & Hx'c).
  simplify_eq. apply lookup_take_Some in Hxt as [Hxt _].
  destruct (Forall2_lookup_l _ _ _ _ _ Hshape Hxt) as (b & _ & _ & Hxc).
  split; [congruence|]. by exists r.
Qed.

Lemma row_of_slice_at (h : tensor) (j : nat) :
  j < shape0 h → row_of j h (tensor_slice h (Z.of_nat j) (Z.of_nat j + 1)).
Proof.
  intros Hj. unfold shape0, nrows in Hj.
  destruct (lookup_lt_is_Some_2 _ _ Hj) as [r Hr].
  split; [done|]. exists r. split; [done|].
  cbn [tensor_slice op_output data np_slice rows].
  rewrite py_slice_counted by lia. rewrite Nat2Z.id.
  change (Z.to_nat 1) with 1. by rewrite (drop_S _ _ _ Hr).
Qed.

Lemma sum_Z_ones (n : nat) : sum_Z (replicate n 1%Z) = Z.of_nat n.
Proof. induction n as [|n IH]; [done|]. unfold sum_Z in *. simpl. lia. Qed.

Lemma non_increasing_replicate (n : nat) (b : Z) : non_increasing (replicate n b).
Proof.
  induction n as [|n IH]; [constructor|]. constructor; [done|].
  apply Forall_forall. intros v Hv. apply elem_of_replicate in Hv as [-> _]. lia.
Qed.

(** X19.  Samples do not mix.  The iterator over [RNNUnit] treats every
    sample of a packed batch as if it were alone: for the sample at
    position [j] of the sorted batch, running [TimeIterator.forward] on
    that sample only (row [j] of every segment that has one, as a
    batch of one, with row [j] of the initial hidden state) makes one
    call for each timestep of the sample, and at every such timestep
    the hidden state it computes is row [j] of the hidden state the run
    on the whole batch computes.  So the truncation of the previous
    hidden state to the effective batch size keeps each sample with its
    own history.  (A tensor that is false is taken to be all zero, as
    for every usual reading of [not hidden].) *)
Theorem samples_do_not_mix u a input_size (input : PackedSequence R)
    (hidden : option tensor) (j : nat) :
  false_is_zero →
  unit_shaped u input_size → act u = Some a →
  packed_invariant input → batch_sizes input ≠ [] →
  ncols (data (ps_data input)) = input_size →
  initial_hidden_fits (hidden_size u) hidden input →
  (Z.of_nat j < batch_sizes input !!! 0%nat)%Z →
  ∃ trace ps final trace' ps' final',
    TimeIterator_forward (mk_TimeIterator u) input hidden
      = (trace, Returns (ps, final)) ∧
    TimeIterator_forward (mk_TimeIterator u) (sample_input input j)
      (sample_hidden hidden j) = (trace', Returns (ps', final')) ∧
    length trace' = sequence_length (batch_sizes input) j ∧
    ∀ t c', trace' !! t = Some c' →
      ∃ c hs hs',
        trace !! t = Some c ∧
        row_of j (call_x c) (call_x c') ∧
        call_outcome c = Returns hs ∧
        call_outcome c' = Returns hs' ∧
        row_of j hs hs'.
Proof.
  intros Hz Hu Hact Hinv Hne Hcols Hhid Hj.
  pose proof (segments_shrinking input Hinv) as Hshr. rewrite Hcols in Hshr.
  pose proof (segments_shape input (packed_invariant_fit _ Hinv)) as Hshape.
  destruct (sample_segments input_size input j Hinv Hcols) as (HL & Hle & Hrows).
  (* the sample exists at the first timestep *)
  assert (Hpos : 0 < sequence_length (batch_sizes input) j).
  { unfold sequence_length. destruct (batch_sizes input) as [|b bs]; [done|].
    change ((b :: bs) !!! 0) with b in Hj. rewrite filter_cons.
    destruct (decide (Z.of_nat j < b)%Z); [simpl; lia|done]. }
  assert (Hjh : ∀ h, hidden = Some h → j < shape0 h ∧ ncols (data h) = hidden_size u).
  { intros h ->. destruct Hhid as [Hh Hhc]. split; [lia|done]. }
  (* the two recurrences *)
  destruct (unroll_sample u a input_size j hidden (sample_hidden hidden j) Hz Hu Hact
              _ _ None None Hshr Hrows Hle)
    as (trace & l & trace' & l' & Hrun & Hrun' & Hall).
  { clear -Hshape Hhid. revert Hshape Hhid. unfold initial_hidden_fits.
    generalize (segments (ps_data input) (batch_sizes input)) (batch_sizes input).
    intros Xs0 bs0 Hshape Hhid.
    destruct Hshape as [|x b Xs bs [Hx _] _]; [done|].
    destruct hidden as [h|]; [|done]. destruct Hhid as [Hh Hhc].
    change ((b :: bs) !!! 0) with b in Hh. split; [lia|done]. }
  { destruct hidden as [h|]; [|done]. simpl. apply row_of_slice_at.
    by destruct (Hjh h eq_refl). }
  (* both calls return *)
  destruct (RNN_forward_returns u a input_size input hidden Hu Hact Hinv Hne Hcols)
    as (trace0 & ps & final & Hf & _); [by destruct hidden|].
  assert (HLlen : length (sample_rows input j) = sequence_length (batch_sizes input) j).
  { rewrite <- HL. rewrite length_segments. unfold sample_input. cbn [batch_sizes].
    by rewrite length_replicate. }
  destruct (RNN_forward_returns u a input_size (sample_input input j)
              (sample_hidden hidden j) Hu Hact)
    as (trace0' & ps' & final' & Hf' & Hlen' & _).
  { unfold packed_invariant, sample_input. cbn [batch_sizes ps_data].
    split; [apply Forall_replicate; lia|]. split; [apply non_increasing_replicate|].
    rewrite sum_Z_ones. unfold shape0, nrows. done. }
  { unfold sample_input. cbn [batch_sizes]. rewrite HLlen.
    destruct (sequence_length (batch_sizes input) j); [lia|done]. }
  { done. }
  { destruct hidden as [h|]; [|done]. unfold sample_input. cbn [sample_hidden batch_sizes].
    destruct (Hjh h eq_refl) as [Hjlt Hhc]. rewrite HLlen.
    destruct (sequence_length (batch_sizes input) j) as [|n]; [lia|].
    change (replicate (S n) 1%Z !!! 0) with 1%Z. split; [|done].
    destruct (row_of_shape _ _ _ (row_of_slice_at h j Hjlt)) as [_ Hone].
    rewrite Hone. done. }
  assert (Hcount : length trace0' = sequence_length (batch_sizes input) j).
  { rewrite Hlen'. unfold sample_input. cbn [batch_sizes].
    by rewrite length_replicate. }
  apply forward_returns in Hf as (l0 & Hrun0 & Hfin). cbn [unit] in Hrun0.
  apply forward_returns in Hf' as (l0' & Hrun0' & Hfin'). cbn [unit] in Hrun0'.
  rewrite Hrun in Hrun0. rewrite Hrun' in Hrun0'. simplify_eq.
  exists trace0, ps, final, trace0', ps', final'.
  split; [apply forward_returns; exists l0; split; [exact Hrun|exact Hfin]|].
  split; [apply forward_returns; exists l0'; split; [exact Hrun'|exact Hfin']|].
  split; [exact Hcount|].
  destruct (unroll_calls _ _ _ _ _ _ Hrun) as (P1 & _ & _ & P4 & _).
  destruct (unroll_calls _ _ _ _ _ _ Hrun') as (P1' & _ & _ & P4' & _).
  destruct (P4 l0 eq_refl) as [_ Htl]. destruct (P4' l0' eq_refl) as [_ Htl'].
  intros t c' Hc'.
  destruct (Forall2_lookup_l _ _ _ _ _ Htl' Hc') as (p' & Hp' & Hout' & _).
  destruct (Forall2_lookup_r _ _ _ _ _ Hall Hp') as (p & Hp & Hpp).
  apply lookup_take_Some in Hp as [Hp Ht].
  destruct (Forall2_lookup_r _ _ _ _ _ Htl Hp) as (c & Hc & Hout & _).
  exists c, p.1, p'.1. split_and!; try done.
  destruct (P1 t c Hc) as [Hx _]. destruct (P1' t c' Hc') as [Hx' _].
  destruct (Forall2_lookup_r _ _ _ _ _ Hrows Hx') as (x & Hxt & Hxx).
  apply lookup_take_Some in Hxt as [Hxt _]. by simplify_eq.
Qed.
End SampleFacts.

(** ** Further properties of [SGD] *)

Section SGDExtra.
Context {R : Type} `{Scalar R}.
Implicit Types (st : sgd_state R) (idx : nat).

Lemma np_elementwise_raises (op : R → R → R) (a b : nparray R) e :
  np_elementwise op a b = Raises e → e = ValueError.
Proof.
  unfold np_elementwise. destruct (broadcast_dims _ _); [done|]. by intros [= <-].
Qed.

Lemma step_frame_refl st : step_frame st st.
Proof. unfold step_frame. split_and!; try done. intros t o' Ho. by exists o'. Qed.

Lemma step_frame_trans st1 st2 st3 :
  step_frame st1 st2 → step_frame st2 st3 → step_frame st1 st3.
Proof.
  intros (Hps & Hlr & Hmu & Hlen & Hdom & Hgrad & Hout)
         (Hps' & Hlr' & Hmu' & Hlen' & Hdom' & Hgrad' & Hout').
  unfold step_frame. split_and!; try congruence.
  - intros t o3 Ho3. destruct (Hgrad' t o3 Ho3) as (o2 & Ho2 & Hg2).
    destruct (Hgrad t o2 Ho2) as (o1 & Ho1 & Hg1). exists o1. split; congruence.
  - intros t Ht. rewrite Hout' by (by rewrite Hps). by apply Hout.
Qed.

Lemma step_body_frame idx st st' r :
  step_body idx st = (st', r) → step_frame st st'.
Proof.
  unfold step_body, sbind, sget, slift, sput, params_at, getitem, setitem, grad_data.
  destruct st as [sto [ps l mu ms]]. cbn [store self params lr momentum momentums].
  destruct (ms !! idx) as [m|] eqn:Hm; [|intros [= <- <-]; apply step_frame_refl].
  destruct (ps !! idx) as [t|] eqn:Ht; [|intros [= <- <-]; apply step_frame_refl].
  cbn [rbind].
  destruct (sto !! t) as [o|] eqn:Ho; [|intros [= <- <-]; apply step_frame_refl].
  cbn [fst snd].
  destruct (param_grad o) as [g|] eqn:Hg; [|intros [= <- <-]; apply step_frame_refl].
  destruct (np_minus _ _) as [m'|] eqn:Hm'; [|intros [= <- <-]; apply step_frame_refl].
  destruct (decide (idx < length ms)) as [Hlt|Hn];
    [|intros [= <- <-]; apply step_frame_refl].
  cbn [store self params lr momentum momentums].
  rewrite list_lookup_insert_eq by done.
  destruct (np_plus (param_data o) m') as [d|] eqn:Hd; intros [= <- <-];
    unfold step_frame; cbn [store self params lr momentum momentums].
  - split_and!; try done.
    + by rewrite length_insert.
    + apply dom_insert_lookup_L. by rewrite Ho.
    + intros t' o'. destruct (decide (t' = t)) as [->|Hne].
      * rewrite lookup_insert_eq. intros [= <-]. exists o. by rewrite Hg.
      * rewrite lookup_insert_ne by done. intros Ho'. by exists o'.
    + intros t' Ht'. apply lookup_insert_ne. intros <-. apply Ht'.
      by eapply list_elem_of_lookup_2.
  - split_and!; try done.
    + by rewrite length_insert.
    + intros t' o' Ho'. by exists o'.
Qed.

Lemma for_idx_frame idxs st st' r :
  for_idx idxs step_body st = (st', r) → step_frame st st'.
Proof.
  revert st. induction idxs as [|i idxs IH]; intros st.
  - intros [= <- <-]. apply step_frame_refl.
  - cbn [for_idx]. unfold sbind.
    destruct (step_body i st) as [st1 [[]|e]] eqn:Hbody.
    + intros Hrest. eapply step_frame_trans; [by eapply step_body_frame|by apply IH].
    + intros [= <- <-]. by eapply step_body_frame.
Qed.

Lemma step_frame_consistent st st' :
  step_frame st st' → optimizer_consistent st → optimizer_consistent st'.
Proof.
  intros (Hps & _ & _ & Hlen & Hdom & _) [Hl Hall]. split; [congruence|].
  intros t Ht. rewrite Hps in Ht. apply Hall in Ht.
  apply elem_of_dom. rewrite Hdom. by apply elem_of_dom.
Qed.

Lemma step_body_raises idx st st' e :
  optimizer_consistent st → idx < length (params (self st)) →
  step_body idx st = (st', Raises e) → e = AttributeError ∨ e = ValueError.
Proof.
  intros [Hlen Hall] Hidx.
  unfold step_body, sbind, sget, slift, sput, params_at, getitem, setitem, grad_data.
  destruct st as [sto [ps l mu ms]]. cbn [store self params lr momentum momentums] in *.
  destruct (ms !! idx) as [m|] eqn:Hm.
  2:{ apply lookup_ge_None in Hm. lia. }
  destruct (ps !! idx) as [t|] eqn:Ht.
  2:{ apply lookup_ge_None in Ht. lia. }
  cbn [rbind].
  destruct (sto !! t) as [o|] eqn:Ho.
  2:{ destruct (Hall t) as [o Ho']; [by eapply list_elem_of_lookup_2|congruence]. }
  cbn [fst snd].
  destruct (param_grad o) as [g|] eqn:Hg; [|intros [= _ <-]; by left].
  destruct (np_minus _ _) as [m'|e'] eqn:Hm'.
  2:{ intros [= _ <-]. right. by eapply np_elementwise_raises. }
  destruct (decide (idx < length ms)) as [Hlt|Hn]; [|lia].
  cbn [store self params lr momentum momentums].
  rewrite list_lookup_insert_eq by done.
  destruct (np_plus (param_data o) m') as [d|e'] eqn:Hd; [done|].
  intros [= _ <-]. right. by eapply np_elementwise_raises.
Qed.

Lemma for_idx_raises k n st st' e :
  optimizer_consistent st → k + n ≤ length (params (self st)) →
  for_idx (seq k n) step_body st = (st', Raises e) →
  e = AttributeError ∨ e = ValueError.
Proof.
  revert k st. induction n as [|n IH]; intros k st Hcons Hk; [done|].
  cbn [seq for_idx]. unfold sbind.
  destruct (step_body k st) as [st1 [[]|e1]] eqn:Hbody.
  - pose proof (step_body_frame _ _ _ _ Hbody) as Hframe.
    apply IH; [by eapply step_frame_consistent|].
    destruct Hframe as (-> & _). lia.
  - intros [= _ <-]. eapply step_body_raises; [done| |done]. lia.
Qed.

Lemma for_idx_app (l1 l2 : list nat) (body : nat → stateful R ()) st :
  for_idx (l1 ++ l2) body st
  = match for_idx l1 body st with
    | (st1, Returns _) => for_idx l2 body st1
    | (st1, Raises e) => (st1, Raises e)
    end.
Proof.
  revert st. induction l1 as [|i l1 IH]; intros st; [done|].
  cbn [app for_idx]. unfold sbind.
  destruct (body i st) as [st1 [[]|e]]; [apply IH|done].
Qed.

(** X14.  What [step] never does.  Whether a call of [step] returns or raises,
    and whatever the parameters (also one tensor listed twice): it
    leaves [params], the learning rate, the momentum factor and the
    number of velocities as they are; it creates and deletes no tensor
    object; it never changes or clears a gradient; and it changes no
    tensor that is not among the parameters. *)
Theorem step_leaves_alone st st' (r : pyresult ()) :
  step st = (st', r) →
  params (self st') = params (self st) ∧
  lr (self st') = lr (self st) ∧
  momentum (self st') = momentum (self st) ∧
  length (momentums (self st')) = length (momentums (self st)) ∧
  dom (store st') = dom (store st) ∧
  (∀ t o', store st' !! t = Some o' →
           ∃ o, store st !! t = Some o ∧ param_grad o' = param_grad o) ∧
  (∀ t, t ∉ params (self st) → store st' !! t = store st !! t).
Proof. intros Hstep. by apply (for_idx_frame _ _ _ _ Hstep). Qed.

(** X15.  The exceptions of [step].  An optimizer that [__init__] has built
    has a velocity for each parameter; every call of [step] keeps it
    so, and such a call raises nothing but an attribute error (a
    parameter without gradient) or a value error (arrays whose shapes
    cannot be broadcast): never an index error. *)
Theorem step_exceptions st :
  (∀ st0 refs eta mu,
     SGD_init refs eta mu st0 = (st, Returns ()) → optimizer_consistent st) ∧
  (optimizer_consistent st →
   ∀ st' r, step st = (st', r) →
     optimizer_consistent st' ∧
     match r with
     | Returns _ => True
     | Raises e => e = AttributeError ∨ e = ValueError
     end).
Proof.
  split.
  - intros st0 refs eta mu. unfold SGD_init, sbind, sget, slift, sput.
    destruct (rmapM _ refs) as [shapes|] eqn:Hshapes; [|done].
    intros [= <-]. split; cbn [store self params momentums].
    + rewrite length_map. by eapply rmapM_returns_length.
    + intros t Ht. clear -Hshapes Ht. revert shapes Hshapes.
      induction Ht as [t refs|t t' refs Ht IH]; intros shapes; simpl.
      * by destruct (store st0 !! t).
      * destruct (store st0 !! t'); [|done]. simpl.
        destruct (rmapM _ refs) as [shapes'|]; [|done]. intros _. by eapply IH.
  - intros Hcons st' r Hstep. split.
    + eapply step_frame_consistent; [|done]. by apply (for_idx_frame _ _ _ _ Hstep).
    + destruct r as [[]|e]; [done|].
      by apply (for_idx_raises 0 (length (params (self st))) st st' e).
Qed.

(** X16.  [step] is not atomic.  When parameter [k] is the first one without
    gradient (the parameters before it being different tensors that
    have one, of the shape of their data and their velocity), the call
    raises an attribute error, and leaves the parameters before [k] and
    their velocities updated, and every other tensor and velocity as
    it was. *)
Theorem step_stops_at_missing_gradient st (k : nat) (t : nat) (o : param_tensor R) :
  NoDup (params (self st)) →
  k < length (momentums (self st)) →
  (∀ i, i < k → index_ready st i) →
  params (self st) !! k = Some t →
  store st !! t = Some o →
  param_grad o = None →
  ∃ st', step st = (st', Raises AttributeError) ∧
         updates_range 0 k st st' ∧
         store st' !! t = Some o ∧
         momentums (self st') !! k = momentums (self st) !! k.
Proof.
  intros Hnd Hk Hready Ht Ho Hg.
  destruct (step_loop_total 0 k st Hnd) as [st1 Hpre].
  { intros i Hi. apply Hready. lia. }
  pose proof (step_loop _ _ _ _ Hnd Hpre) as Hrange.
  destruct Hrange as (Hps & Hlr & Hmu & Hlen & Hout & Hsto & Hin).
  assert (Hkn : k < length (params (self st))) by (by eapply lookup_lt_Some).
  assert (Ho1 : store st1 !! t = Some o).
  { rewrite Hsto; [done|]. intros i Hi Hti.
    assert (i = k) by (by apply (NoDup_lookup _ _ _ _ Hnd Hti Ht)). lia. }
  assert (Hm1 : momentums (self st1) !! k = momentums (self st) !! k)
    by (apply Hout; lia).
  destruct (lookup_lt_is_Some_2 _ _ Hk) as [m Hm].
  exists st1. split_and!; try done.
  change (step st) with (for_idx (seq 0 (length (params (self st)))) step_body st).
  replace (length (params (self st))) with (k + S (length (params (self st)) - S k))
    by lia.
  rewrite seq_app, for_idx_app, Hpre. cbn [seq for_idx Nat.add]. unfold sbind at 1.
  assert (Hbody : step_body k st1 = (st1, Raises AttributeError)).
  { unfold step_body, sbind, sget, slift, sput, params_at, getitem, grad_data.
    rewrite Hm1, Hm, Hps, Ht. cbn [rbind]. rewrite Ho1. cbn [fst snd].
    by rewrite Hg. }
  by rewrite Hbody.
Qed.

Lemma first_velocity (mu eta : R) (g : list R) :
  (∀ x : R, s_mul x s_zero = s_zero) →
  zip_with (λ mi gi, s_sub (s_mul mu mi) (s_mul eta gi))
    (replicate (length g) s_zero) g
  = map (λ gi, s_sub s_zero (s_mul eta gi)) g.
Proof.
  intros Hmul. induction g as [|x g IH]; simpl; [done|]. by rewrite Hmul, IH.
Qed.

Lemma first_descent (eta : R) (p g : list R) :
  (∀ p x : R, s_add p (s_sub s_zero x) = s_sub p x) →
  length g = length p →
  zip_with s_add p (map (λ gi, s_sub s_zero (s_mul eta gi)) g)
  = zip_with (λ pi gi, s_sub pi (s_mul eta gi)) p g.
Proof.
  intros Hsub. revert g. induction p as [|x p IH]; intros [|y g] Hlen;
    simplify_eq/=; [done|]. rewrite Hsub. f_equal. by apply IH.
Qed.

(** X17.  Construction and first step compose.  The velocities [__init__]
    makes are zero, so that the first call of [step] is plain gradient
    descent whatever the momentum factor: on parameters that are
    different tensors with gradients of the shape of their data, and
    scalars without rounding, [__init__] and [step] return, every
    parameter becomes [p - lr * grad] and its velocity [0 - lr * grad],
    of the shape of the parameter. *)
Theorem first_step_ignores_momentum st (refs : list nat) (eta mu : R) :
  zero_laws (R := R) →
  NoDup refs →
  (∀ t, t ∈ refs →
     ∃ o g, store st !! t = Some o ∧ param_grad o = Some g ∧
            wf_nparray (param_data o) ∧ wf_nparray g ∧
            shape g = shape (param_data o)) →
  ∃ st1 st2,
    SGD_init refs eta mu st = (st1, Returns ()) ∧
    step st1 = (st2, Returns ()) ∧
    ∀ i t o g,
      refs !! i = Some t → store st !! t = Some o → param_grad o = Some g →
      store st2 !! t
      = Some (mk_param
                (mk_nparray (shape (param_data o))
                   (zip_with (λ pi gi, s_sub pi (s_mul eta gi))
                      (flat (param_data o)) (flat g)))
                (Some g)) ∧
      momentums (self st2) !! i
      = Some (mk_nparray (shape (param_data o))
                (map (λ gi, s_sub s_zero (s_mul eta gi)) (flat g))).
Proof.
  intros [Hmul Hsub] Hnd Hall.
  destruct (SGD_init_ready st refs eta mu Hnd Hall) as (st1 & Hinit & Hstore & Hself & Hready).
  destruct Hready as (Hnd1 & Hlen1 & Hready).
  destruct (step_loop_total 0 (length (params (self st1))) st1 Hnd1) as [st2 Hstep].
  { intros i Hi. apply Hready. lia. }
  exists st1, st2. split; [done|]. split; [exact Hstep|].
  pose proof (step_loop _ _ _ _ Hnd1 Hstep) as (_ & _ & _ & _ & _ & _ & Hin).
  intros i t o g Ht Ho Hg.
  assert (Hi : i < length (params (self st1))).
  { rewrite Hself. simpl. by eapply lookup_lt_Some. }
  destruct (Hin i) as (m & t1 & o1 & g1 & m' & d & Hm & Ht1 & Ho1 & Hg1
                          & Hminus & Hplus & Hm' & Ho'); [lia|].
  destruct (Hall t) as (o0 & g0 & Ho0 & Hg0 & Hwo & Hwg & Hsg);
    [by eapply list_elem_of_lookup_2|].
  rewrite Hself in Hm, Ht1, Hminus. cbn [params momentums lr momentum] in *.
  rewrite Hstore in Ho1. simplify_eq.
  rewrite list_lookup_fmap, Ht in Hm. simpl in Hm. rewrite Ho in Hm.
  injection Hm as <-.
  destruct (ready_update mu eta (param_data o) g
              (np_zeros_shape (shape (param_data o))) m' d)
    as (Hsm' & Hfm' & _ & Hsd & Hfd & _);
    [done|done|apply np_zeros_shape_wf|done|done|done|done|].
  assert (Hsize : size (shape (param_data o)) = length (flat g)).
  { unfold wf_nparray in Hwg. congruence. }
  simpl in Hsm', Hfm'. rewrite Hsize, first_velocity in Hfm' by done.
  rewrite Hfm', first_descent in Hfd.
  2:{ done. }
  2:{ unfold wf_nparray in *. congruence. }
  rewrite Ho', Hm'. destruct m' as [sm fm], d as [sd fd]. simpl in *.
  by subst.
Qed.

(** One iteration of the loop on arrays of one shape, with the arrays
    it assigns written out. *)
Lemma step_body_ready idx st t o g m :
  params (self st) !! idx = Some t →
  store st !! t = Some o →
  param_grad o = Some g →
  momentums (self st) !! idx = Some m →
  wf_nparray (param_data o) → wf_nparray g → wf_nparray m →
  shape g = shape (param_data o) → shape m = shape (param_data o) →
  let m' := mk_nparray (shape m)
              (zip_with (λ mi gi, s_sub (s_mul (momentum (self st)) mi)
                                    (s_mul (lr (self st)) gi)) (flat m) (flat g)) in
  let d := mk_nparray (shape (param_data o))
             (zip_with s_add (flat (param_data o)) (flat m')) in
  step_body idx st
  = (mk_state (<[t := mk_param d (Some g)]> (store st))
       (mk_SGD (params (self st)) (lr (self st)) (momentum (self st))
          (<[idx := m']> (momentums (self st)))),
     Returns ()) ∧
  wf_nparray m' ∧ wf_nparray d.
Proof.
  intros Ht Ho Hg Hm Hwo Hwg Hwm Hsg Hsm m' d.
  assert (Hminus : np_minus (np_scale (momentum (self st)) m)
                     (np_scale (lr (self st)) g) = Returns m').
  { unfold np_minus. rewrite np_elementwise_same;
      [|simpl; congruence|by apply np_scale_wf..].
    unfold m'. simpl. by rewrite zip_with_fmap_l, zip_with_fmap_r. }
  assert (Hwm' : wf_nparray m').
  { unfold wf_nparray, m' in *. simpl. rewrite length_zip_with. rewrite Hwm, Hwg.
    rewrite Hsg, Hsm. lia. }
  assert (Hplus : np_plus (param_data o) m' = Returns d).
  { unfold np_plus. rewrite np_elementwise_same; [done|simpl; congruence|done..]. }
  split; [|split; [done|]].
  - apply step_body_returns. by exists m, t, o, g, m', d.
  - unfold wf_nparray, d, m' in *. simpl. rewrite !length_zip_with.
    rewrite Hwo, Hwm, Hwg, Hsg, Hsm. lia.
Qed.

(** X18.  A tensor that is listed twice is updated twice.  The optimizer
    holds references: with [params = [t, t]] the second iteration reads
    the data the first one has assigned, so that the tensor moves by
    both velocities, each computed from the one gradient. *)
Theorem tied_parameter_updated_twice st (t : nat) (o : param_tensor R)
    (g m0 m1 : nparray R) :
  params (self st) = [t; t] →
  momentums (self st) = [m0; m1] →
  store st !! t = Some o →
  param_grad o = Some g →
  wf_nparray (param_data o) → wf_nparray g → wf_nparray m0 → wf_nparray m1 →
  shape g = shape (param_data o) →
  shape m0 = shape (param_data o) → shape m1 = shape (param_data o) →
  let v := λ m : nparray R,
             zip_with (λ mi gi, s_sub (s_mul (momentum (self st)) mi)
                                  (s_mul (lr (self st)) gi)) (flat m) (flat g) in
  ∃ st',
    step st = (st', Returns ()) ∧
    momentums (self st') = [mk_nparray (shape m0) (v m0); mk_nparray (shape m1) (v m1)] ∧
    store st' !! t
    = Some (mk_param
              (mk_nparray (shape (param_data o))
                 (zip_with s_add (zip_with s_add (flat (param_data o)) (v m0)) (v m1)))
              (Some g)).
Proof.
  intros Hps Hms Ho Hg Hwo Hwg Hw0 Hw1 Hsg Hs0 Hs1 v.
  destruct (step_body_ready 0 st t o g m0) as (Hbody0 & Hwm0 & Hwd0);
    [by rewrite Hps|done|done|by rewrite Hms|done..|].
  set (st1 := mk_state _ _) in Hbody0.
  destruct (step_body_ready 1 st1 t
              (mk_param (mk_nparray (shape (param_data o))
                           (zip_with s_add (flat (param_data o)) (v m0))) (Some g))
              g m1) as (Hbody1 & _ & _).
  - unfold st1. simpl. by rewrite Hps.
  - unfold st1. simpl. by rewrite lookup_insert_eq.
  - done.
  - unfold st1. simpl. by rewrite Hms.
  - done.
  - done.
  - done.
  - done.
  - done.
  - eexists. split.
    + change (step st) with (for_idx (seq 0 (length (params (self st)))) step_body st).
      rewrite Hps. cbn [length seq for_idx]. unfold sbind.
      rewrite Hbody0, Hbody1. reflexivity.
    + unfold st1. cbn [store self params lr momentum momentums param_data flat shape].
      rewrite Hms. split; [done|]. by rewrite lookup_insert_eq.
Qed.
End SGDExtra.

(** ** Concrete runs of the further properties *)

Lemma segments_partition_witness :
  let input := mk_PackedSequence (data_rows 9) [0; 1; 2]%Z [3; 3; 2; 1]%Z in
  concat (map (λ x : Tensor (ndarray sym), rows (data x))
            (segments (ps_data input) (batch_sizes input)))
  = rows (data (data_rows 9)).
Proof.
  intros input.
  assert (Hfit : segments_fit input).
  { split; [repeat constructor; lia|]. vm_compute. discriminate. }
  pose proof (segments_partition input Hfit) as Hp.
  cbv zeta in Hp. destruct Hp as (_ & _ & Hall). apply Hall. reflexivity.
Defined.

Lemma trailing_rows_ignored_witness :
  let dat := data_rows 4 in
  TimeIterator_forward relu_iterator
    (mk_PackedSequence
       (mk_Tensor (mk_ndarray (rows (data dat) ++ [[SConst 7]]) (ncols (data dat)))
          (requires_grad dat) (is_leaf dat) (is_parameter dat))
       [0; 1]%Z [2; 1]%Z) None
  = TimeIterator_forward relu_iterator (mk_PackedSequence dat [0; 1]%Z [2; 1]%Z) None.
Proof.
  intros dat.
  apply (trailing_rows_ignored relu_iterator dat [0; 1]%Z [2; 1]%Z None [[SConst 7]]).
  split; [repeat constructor; lia|]. vm_compute. discriminate.
Defined.

Lemma forward_raises_provenance_witness :
  let input := mk_PackedSequence (data_rows 6) [0; 1; 2]%Z [2; 3; 1]%Z in
  ∃ trace e,
    TimeIterator_forward relu_iterator input None = (trace, Raises e) ∧
    ((∃ c, last trace = Some c ∧ call_outcome c = Raises e) ∨
     (∃ c hs, last trace = Some c ∧ call_outcome c = Returns hs ∧
              shape0 hs = 0 ∧ e = IndexError) ∨
     (e = ValueError ∧ length trace = length (batch_sizes input) ∧
      Forall (λ c, ∃ hs, call_outcome c = Returns hs ∧ 1 ≤ shape0 hs) trace)).
Proof.
  intros input.
  destruct (TimeIterator_forward relu_iterator input None)
    as [trace [r|e]] eqn:Hf; [vm_compute in Hf; discriminate|].
  exists trace, e. split; [reflexivity|].
  exact (forward_raises_provenance relu_iterator input None trace e Hf).
Defined.

Lemma calls_follow_timesteps_witness :
  let input := mk_PackedSequence (data_rows 9) [0; 1; 2]%Z [3; 3; 2; 1]%Z in
  ∃ c,
    (TimeIterator_forward relu_iterator input None).1 !! 1 = Some c ∧
    segments (ps_data input) (batch_sizes input) !! 1 = Some (call_x c) ∧
    call_outcome c = RNNUnit_forward relu_unit (PyTensor (call_x c)) (call_hidden c).
Proof.
  intros input.
  destruct ((TimeIterator_forward relu_iterator input None).1 !! 1) as [c|] eqn:Hc;
    [|vm_compute in Hc; discriminate].
  destruct (calls_follow_timesteps relu_iterator input None 1 c Hc)
    as (Hx & Hout & _).
  exists c. split; [reflexivity|]. split; [exact Hx|exact Hout].
Defined.

Lemma final_rows_count_witness :
  let input := mk_PackedSequence (data_rows 9) [0; 1; 2]%Z [3; 3; 2; 1]%Z in
  ∃ trace ps final,
    TimeIterator_forward relu_iterator input None = (trace, Returns (ps, final)) ∧
    shape0 final = 3.
Proof.
  intros input.
  destruct (TimeIterator_forward relu_iterator input None)
    as [trace [[ps final]|e]] eqn:Hf; [|vm_compute in Hf; discriminate].
  destruct (final_rows_count relu_iterator input None trace ps final Hf) as [Hrows _].
  exists trace, ps, final. split; [reflexivity|exact Hrows].
Defined.

Lemma equal_lengths_final_witness :
  ∃ trace ps final row,
    TimeIterator_forward relu_iterator
      (mk_PackedSequence (data_rows 4) [0; 1]%Z (replicate 2 2%Z)) None
      = (trace, Returns (ps, final)) ∧
    rows (data final) = [row].
Proof.
  destruct (TimeIterator_forward relu_iterator
              (mk_PackedSequence (data_rows 4) [0; 1]%Z (replicate 2 2%Z)) None)
    as [trace [[ps final]|e]] eqn:Hf; [|vm_compute in Hf; discriminate].
  destruct (equal_lengths_final relu_iterator (data_rows 4) [0; 1]%Z 2%Z 1
              None trace ps final Hf)
    as (s & hs & h & row & _ & _ & _ & _ & _ & Hrow).
  exists trace, ps, final, row. split; [reflexivity|exact Hrow].
Defined.

Lemma RNNUnit_forward_exceptions_witness :
  let x := const_tensor [[1; 2]]%Z 2 in
  (∀ hidden, RNNUnit_forward relu_unit (PyInt 3) hidden
             = Raises (Exception "Input must be Tensor. Got <class 'int'>")) ∧
  RNNUnit_forward relu_unit (PyTensor x) None = Raises ValueError.
Proof.
  intros x. split.
  - intros hidden. exact (RNNUnit_forward_exceptions relu_unit (PyInt 3) hidden).
  - destruct (RNNUnit_forward_exceptions relu_unit (PyTensor x) None) as (Hiff & _).
    apply Hiff. left. split; [reflexivity|]. eexists. reflexivity.
Defined.

Lemma RNNUnit_forward_shape_mismatch_witness :
  RNNUnit_forward relu_unit (PyTensor (const_tensor [[1; 2]]%Z 2))
    (Some (const_tensor [[3]]%Z 1)) = Raises ValueError.
Proof.
  destruct (RNNUnit_forward_shape_mismatch relu_unit 1 (const_tensor [[1; 2]]%Z 2))
    as [Hx _].
  - repeat split; repeat constructor.
  - apply Hx. discriminate.
Defined.

Lemma constructed_unit_runs_witness :
  let x := const_tensor [[1]; [2]]%Z 1 in
  let h := const_tensor [[3]; [4]]%Z 1 in
  ∃ u y,
    unit_of 1 1 "relu" = Returns u ∧
    RNNUnit_call u (PyTensor x) (Some h) = Returns y ∧
    data y = spec_advance u ReLU x h ∧
    has_shape (data y) 2 1 ∧
    requires_grad y = true.
Proof.
  intros x h.
  destruct (constructed_unit_runs 1 1 "relu" (λ _, SConst 1) (λ _, SConst 1) x (Some h) 2)
    as (u & y & Hinit & _ & _ & Hcall & _ & Hdata & Hshape & Hrg & _).
  - right. reflexivity.
  - repeat split; repeat constructor.
  - split; reflexivity.
  - exists u, y. split; [exact Hinit|]. split; [exact Hcall|].
    split; [|split; [exact Hshape|exact Hrg]].
    apply Hdata. intros [[rs c] rg lf ip] Ht. simpl in Ht.
    apply negb_false_iff, Nat.eqb_eq in Ht. unfold shape0, nrows in *. simpl in *.
    destruct rs; [reflexivity|discriminate].
Defined.

Lemma stacked_iterators_return_witness :
  let input := mk_PackedSequence (data_rows 9) [0; 1; 2]%Z [3; 3; 2; 1]%Z in
  ∃ it1 it2 trace1 ps1 final1 trace2 ps2 final2,
    TimeIterator_init 1 2 "tanh" (λ _, SConst 1) (λ _, SConst 1) = Returns it1 ∧
    TimeIterator_init 2 3 "relu" (λ _, SConst 1) (λ _, SConst 1) = Returns it2 ∧
    TimeIterator_call it1 input None = (trace1, Returns (ps1, final1)) ∧
    TimeIterator_call it2 ps1 None = (trace2, Returns (ps2, final2)) ∧
    batch_sizes ps2 = [3; 3; 2; 1]%Z ∧
    shape0 (ps_data ps2) = 9 ∧
    ncols (data (ps_data ps2)) = 3.
Proof.
  intros input.
  destruct (stacked_iterators_return 1 2 3 "tanh" "relu"
              (λ _, SConst 1) (λ _, SConst 1) (λ _, SConst 1) (λ _, SConst 1)
              input None None)
    as (it1 & it2 & t1 & ps1 & f1 & t2 & ps2 & f2
        & H1 & H2 & H3 & _ & H4 & _ & _ & H5 & _ & H6 & H7).
  - left. reflexivity.
  - right. reflexivity.
  - split; [repeat constructor; lia|]. split; [|reflexivity].
    repeat constructor; lia.
  - discriminate.
  - reflexivity.
  - exact I.
  - exact I.
  - exists it1, it2, t1, ps1, f1, t2, ps2, f2.
    split; [exact H1|]. split; [exact H2|]. split; [exact H3|]. split; [exact H4|].
    split; [exact H5|]. split; [exact H6|exact H7].
Defined.

Lemma unknown_nonlinearity_first_timestep_witness :
  let input := mk_PackedSequence (data_rows 9) [0; 1; 2]%Z [3; 3; 2; 1]%Z in
  ∃ it c,
    TimeIterator_init 1 2 "sigmoid" (λ _, SConst 1) (λ _, SConst 1) = Returns it ∧
    TimeIterator_call it input None = ([c], Raises AttributeError).
Proof.
  intros input.
  destruct (unknown_nonlinearity_first_timestep 1 2 "sigmoid"
              (λ _, SConst 1) (λ _, SConst 1) input None)
    as (it & c & Hinit & Hcall & _).
  - discriminate.
  - discriminate.
  - split; [repeat constructor; lia|]. split; [|reflexivity].
    repeat constructor; lia.
  - discriminate.
  - reflexivity.
  - exact I.
  - exists it, c. split; [exact Hinit|exact Hcall].
Defined.

Lemma step_leaves_alone_witness :
  let p := mk_nparray [2] [10; 20]%Z in
  let g := mk_nparray [2] [1; 2]%Z in
  let st := mk_state {[ 7 := mk_param p (Some g); 8 := mk_param p None ]}
              (mk_SGD [7; 8] 3%Z 5%Z [np_zeros_shape [2]; np_zeros_shape [2]]) in
  ∃ st' r,
    step st = (st', r) ∧
    params (self st') = [7; 8] ∧
    lr (self st') = 3%Z ∧
    momentum (self st') = 5%Z ∧
    length (momentums (self st')) = 2.
Proof.
  intros p g st.
  destruct (step st) as [st' r] eqn:Hstep.
  destruct (step_leaves_alone st st' r Hstep) as (Hps & Hlr & Hmu & Hlen & _).
  exists st', r. split; [reflexivity|].
  split; [exact Hps|]. split; [exact Hlr|]. split; [exact Hmu|exact Hlen].
Defined.

Lemma step_exceptions_witness :
  let p := mk_nparray [2] [10; 20]%Z in
  let st := mk_state {[ 7 := mk_param p None ]}
              (mk_SGD [7] 3%Z 5%Z [np_zeros_shape [2]]) in
  ∃ st' e,
    step st = (st', Raises e) ∧ (e = AttributeError ∨ e = ValueError).
Proof.
  intros p st.
  destruct (step st) as [st' [[]|e]] eqn:Hstep; [vm_compute in Hstep; discriminate|].
  destruct (step_exceptions st) as [_ Hexn].
  destruct (Hexn ltac:(split; [reflexivity|]; intros t Ht;
                        apply list_elem_of_singleton in Ht; subst t; by eexists)
              st' (Raises e) Hstep) as [_ He].
  exists st', e. split; [reflexivity|exact He].
Defined.

Lemma step_stops_at_missing_gradient_witness :
  let p := mk_nparray [2] [10; 20]%Z in
  let g := mk_nparray [2] [1; 2]%Z in
  let st := mk_state {[ 7 := mk_param p (Some g); 8 := mk_param p None ]}
              (mk_SGD [7; 8] 3%Z 5%Z [np_zeros_shape [2]; np_zeros_shape [2]]) in
  ∃ st',
    step st = (st', Raises AttributeError) ∧
    updates_range 0 1 st st' ∧
    store st' !! 8 = Some (mk_param p None).
Proof.
  intros p g st.
  destruct (step_stops_at_missing_gradient st 1 8 (mk_param p None))
    as (st' & Hstep & Hrange & Hsame & _).
  - apply NoDup_cons. split; [|apply NoDup_singleton].
    rewrite list_elem_of_singleton. discriminate.
  - simpl. lia.
  - intros [|i] Hi; [|lia].
    exists 7, (mk_param p (Some g)), g, (np_zeros_shape [2]).
    repeat split; reflexivity.
  - reflexivity.
  - reflexivity.
  - reflexivity.
  - exists st'. split; [exact Hstep|]. split; [exact Hrange|exact Hsame].
Defined.

Lemma first_step_ignores_momentum_witness :
  let p := mk_nparray [2] [10; 20]%Z in
  let g := mk_nparray [2] [1; 2]%Z in
  let st := mk_state {[ 7 := mk_param p (Some g) ]} (mk_SGD [] 0%Z 0%Z []) in
  ∃ st1 st2,
    SGD_init [7] 3%Z 5%Z st = (st1, Returns ()) ∧
    step st1 = (st2, Returns ()) ∧
    store st2 !! 7 = Some (mk_param (mk_nparray [2] [7; 14]%Z) (Some g)) ∧
    momentums (self st2) !! 0 = Some (mk_nparray [2] [-3; -6]%Z).
Proof.
  intros p g st.
  destruct (first_step_ignores_momentum st [7] 3%Z 5%Z)
    as (st1 & st2 & Hinit & Hstep & Hall).
  - split; intros; simpl; lia.
  - apply NoDup_singleton.
  - intros t Ht. apply list_elem_of_singleton in Ht. subst t.
    exists (mk_param p (Some g)), g. repeat split; reflexivity.
  - destruct (Hall 0 7 (mk_param p (Some g)) g eq_refl eq_refl eq_refl) as [Hp Hm].
    exists st1, st2. split; [exact Hinit|]. split; [exact Hstep|].
    split; [exact Hp|exact Hm].
Defined.

Lemma tied_parameter_updated_twice_witness :
  let p := mk_nparray [2] [10; 20]%Z in
  let g := mk_nparray [2] [1; 2]%Z in
  let st := mk_state {[ 7 := mk_param p (Some g) ]}
              (mk_SGD [7; 7] 3%Z 0%Z [np_zeros_shape [2]; np_zeros_shape [2]]) in
  ∃ st',
    step st = (st', Returns ()) ∧
    store st' !! 7 = Some (mk_param (mk_nparray [2] [4; 8]%Z) (Some g)).
Proof.
  intros p g st.
  destruct (tied_parameter_updated_twice st 7 (mk_param p (Some g)) g
              (np_zeros_shape [2]) (np_zeros_shape [2]))
    as (st' & Hstep & _ & Hstore); try reflexivity.
  exists st'. split; [exact Hstep|exact Hstore].
Defined.

Lemma samples_do_not_mix_witness :
  let input := mk_PackedSequence (data_rows 9) [0; 1; 2]%Z [3; 3; 2; 1]%Z in
  ∃ trace ps final trace' ps' final',
    TimeIterator_forward relu_iterator input None = (trace, Returns (ps, final)) ∧
    TimeIterator_forward relu_iterator (sample_input input 1) None
      = (trace', Returns (ps', final')) ∧
    length trace' = 3 ∧
    ∀ t c', trace' !! t = Some c' →
      ∃ c hs hs',
        trace !! t = Some c ∧
        call_outcome c = Returns hs ∧
        call_outcome c' = Returns hs' ∧
        row_of 1 hs hs'.
Proof.
  intros input.
  destruct (samples_do_not_mix relu_unit ReLU 1 input None 1)
    as (trace & ps & final & trace' & ps' & final' & Hf & Hf' & Hlen & Hall).
  - intros [[rs c] rg lf ip] Ht. simpl in Ht.
    apply negb_false_iff, Nat.eqb_eq in Ht. unfold shape0, nrows in *. simpl in *.
    destruct rs; [reflexivity|discriminate].
  - repeat split; repeat constructor.
  - reflexivity.
  - split; [repeat constructor; lia|]. split; [|reflexivity].
    repeat constructor; lia.
  - discriminate.
  - reflexivity.
  - exact I.
  - reflexivity.
  - exists trace, ps, final, trace', ps', final'.
    split; [exact Hf|]. split; [exact Hf'|]. split; [exact Hlen|].
    intros t c' Hc'.
    destruct (Hall t c' Hc') as (c & hs & hs' & Hc & _ & Hout & Hout' & Hrow).
    exists c, hs, hs'. split; [exact Hc|]. split; [exact Hout|].
    split; [exact Hout'|exact Hrow].
Defined.
